(** * ytmp3cc: resolution pipeline of the media endpoints

    A shallow embedding of the three programs of the repository:
    - [Mp3Server]  (src/unnamed/part_000): the audio resolver with two
      upstream services and a fallback,
    - [Ytmp3Api]   (src/api/ytmp3.js): URL validation, file-name
      sanitization and streamed delivery,
    - [MovieApi] and [Mp3Basic] (src/index.js): the catalog scraper and the
      single-service audio resolver.

    JavaScript strings are sequences of UTF-16 code units; regular
    expressions are run by a backtracking matcher with ordered alternation
    and greedy quantifiers, as ECMAScript defines them. *)

From Stdlib Require Import String Ascii NArith ZArith QArith Bool Arith Lia List.
Import ListNotations.
Open Scope string_scope.
Open Scope N_scope.
Open Scope list_scope.
Set Warnings "-register-all".
Set Warnings "-notation-overridden".


(* ------------------------------------------------------------------ *)
(** ** JavaScript strings *)

Module Js.

(** A string is the list of its UTF-16 code units. *)
Definition str : Type := list N.

(** An ASCII literal of the source, as code units. *)
Definition lit (s : string) : str := map N_of_ascii (list_ascii_of_string s).

(** WhiteSpace and LineTerminator code units: what [\s] matches and what
    [String.prototype.trim] removes. *)
Definition isWhiteSpace (c : N) : bool :=
  ((9 <=? c) && (c <=? 13)) || (c =? 32) || (c =? 160) || (c =? 5760)
  || ((8192 <=? c) && (c <=? 8202)) || (c =? 8232) || (c =? 8233)
  || (c =? 8239) || (c =? 8287) || (c =? 12288) || (c =? 65279).

Fixpoint trimStart (s : str) : str :=
  match s with
  | c :: s' => if isWhiteSpace c then trimStart s' else s
  | [] => []
  end.

Definition trimEnd (s : str) : str := rev (trimStart (rev s)).

(** [s.trim()] *)
Definition trim (s : str) : str := trimEnd (trimStart s).

(** [s.startsWith(p)] *)
Fixpoint startsWith (s p : str) : bool :=
  match p, s with
  | [], _ => true
  | _ :: _, [] => false
  | a :: p', b :: s' => (a =? b) && startsWith s' p'
  end.

(** [s.includes(needle)] *)
Fixpoint includes (s needle : str) : bool :=
  startsWith s needle
  || match s with
     | [] => false
     | _ :: s' => includes s' needle
     end.

(** [s.substring(0, n)] *)
Definition substring0 (n : nat) (s : str) : str := firstn n s.

(** A string is truthy when it is not empty. *)
Definition nonEmpty (s : str) : bool :=
  match s with [] => false | _ :: _ => true end.

(** ASCII letters folded to upper case; other code units are unchanged.
    For a pattern character below 128 this is the comparison the [i] flag
    makes: a code unit of 128 or more never canonicalizes to one below. *)
Definition asciiUpper (c : N) : N :=
  if (97 <=? c) && (c <=? 122) then c - 32 else c.

Definition asciiLower (c : N) : N :=
  if (65 <=? c) && (c <=? 90) then c + 32 else c.

End Js.

(* ------------------------------------------------------------------ *)
(** ** Regular expressions *)

Module RegExp.

(** The fragment of the pattern language the sources use.  Every [*] and
    [+] of the sources applies to a character class, so [Star] takes the
    class; [r?] is [Alt r Eps], [r{n}] is [rep n r]. *)
Inductive regex : Type :=
| Eps
| Cls (p : N -> bool)
| Cat (r1 r2 : regex)
| Alt (r1 r2 : regex)
| Star (p : N -> bool)
| Group (i : nat) (r : regex)
| Bol.

(** The captures recorded so far, most recent first. *)
Definition caps : Type := list (nat * Js.str).

Fixpoint capture (i : nat) (c : caps) : option Js.str :=
  match c with
  | [] => None
  | (j, v) :: c' => if Nat.eqb i j then Some v else capture i c'
  end.

(** The text between two positions, given what is left of the input at
    each. *)
Definition consumed (s s' : Js.str) : Js.str :=
  firstn (List.length s - List.length s') s.

(** Greedy repetition of a class: the longest run first, then shorter
    ones. *)
Fixpoint starC {R : Type} (p : N -> bool) (s : Js.str) (c : caps)
  (k : Js.str -> caps -> option R) : option R :=
  match s with
  | x :: s' =>
      if p x
      then match starC p s' c k with
           | Some r => Some r
           | None => k s c
           end
      else k s c
  | [] => k [] c
  end.

(** [m n r s c k]: match [r] at the front of [s], the rest of an input of
    [n] code units, then continue with [k]; alternatives are tried in
    order and the first success is the result. *)
Fixpoint m {R : Type} (n : nat) (r : regex) (s : Js.str) (c : caps)
  (k : Js.str -> caps -> option R) : option R :=
  match r with
  | Eps => k s c
  | Cls p =>
      match s with
      | x :: s' => if p x then k s' c else None
      | [] => None
      end
  | Cat r1 r2 => m n r1 s c (fun s' c' => m n r2 s' c' k)
  | Alt r1 r2 =>
      match m n r1 s c k with
      | Some r => Some r
      | None => m n r2 s c k
      end
  | Star p => starC p s c k
  | Group i r1 => m n r1 s c (fun s' c' => k s' ((i, consumed s s') :: c'))
  | Bol => if Nat.eqb (List.length s) n then k s c else None
  end.

(** A match: the matched text and the captures. *)
Definition result : Type := (Js.str * caps)%type.

Definition matchAt (r : regex) (n : nat) (s : Js.str) : option result :=
  m n r s [] (fun s' c => Some (consumed s s', c)).

(** The leftmost match at or after the current position. *)
Fixpoint execFrom (r : regex) (n : nat) (s : Js.str) : option result :=
  match matchAt r n s with
  | Some res => Some res
  | None =>
      match s with
      | [] => None
      | _ :: s' => execFrom r n s'
      end
  end.

(** [r.exec(s)], and [s.match(r)] for a pattern without the [g] flag. *)
Definition exec (r : regex) (s : Js.str) : option result :=
  execFrom r (List.length s) s.

(** [r.test(s)] *)
Definition test (r : regex) (s : Js.str) : bool :=
  match exec r s with Some _ => true | None => false end.

(** [match[i]] for a capture group. *)
Definition group (i : nat) (res : result) : option Js.str := capture i (snd res).

(** [s.replace(r, '')] for a pattern with the [g] flag: every match is
    removed, scanning from the left; after an empty match the scan moves on
    by one code unit. *)
Fixpoint removeAllFuel (fuel : nat) (r : regex) (n : nat) (s : Js.str) : Js.str :=
  match fuel with
  | O => s
  | S fuel' =>
      match m n r s [] (fun s' _ => Some s') with
      | Some s' =>
          if Nat.ltb (List.length s') (List.length s)
          then removeAllFuel fuel' r n s'
          else match s with
               | [] => []
               | x :: t => x :: removeAllFuel fuel' r n t
               end
      | None =>
          match s with
          | [] => []
          | x :: t => x :: removeAllFuel fuel' r n t
          end
      end
  end.

Definition removeAll (r : regex) (s : Js.str) : Js.str :=
  removeAllFuel (S (List.length s)) r (List.length s) s.

(** Pattern syntax. *)
Definition chr (a : ascii) : regex := Cls (N.eqb (N_of_ascii a)).

Definition Lit (s : string) : regex :=
  fold_right (fun a r => Cat (chr a) r) Eps (list_ascii_of_string s).

(** A literal under the [i] flag. *)
Definition chrI (a : ascii) : regex :=
  Cls (fun c => Js.asciiUpper c =? Js.asciiUpper (N_of_ascii a)).

Definition LitI (s : string) : regex :=
  fold_right (fun a r => Cat (chrI a) r) Eps (list_ascii_of_string s).

Definition plus (p : N -> bool) : regex := Cat (Cls p) (Star p).

Definition opt (r : regex) : regex := Alt r Eps.

Fixpoint rep (n : nat) (r : regex) : regex :=
  match n with
  | O => Eps
  | S n' => Cat r (rep n' r)
  end.

(** Character classes of the sources. *)

(** [.] : anything but a line terminator. *)
Definition dot (c : N) : bool :=
  negb ((c =? 10) || (c =? 13) || (c =? 8232) || (c =? 8233)).

(** [\d] *)
Definition digit (c : N) : bool := (48 <=? c) && (c <=? 57).

(** [\w] *)
Definition word (c : N) : bool :=
  ((97 <=? c) && (c <=? 122)) || ((65 <=? c) && (c <=? 90))
  || digit c || (c =? 95).

(** [\s] *)
Definition space (c : N) : bool := Js.isWhiteSpace c.

End RegExp.

Import RegExp.

(* ------------------------------------------------------------------ *)
(** ** JavaScript values, the console and the upstream services *)

Module Value.

(** Values of the handlers: what [JSON.parse] gives for an upstream
    answer, and the objects the handlers build.  [VNum] holds a finite
    number; [VFun] is a function, which a primitive can have as a method. *)
Inductive value : Type :=
| VUndefined
| VNull
| VBool (b : bool)
| VNum (q : Q)
| VStr (s : Js.str)
| VArr (items : list value)
| VObj (fields : list (Js.str * value))
| VFun.

(** ToBoolean. *)
Definition truthy (v : value) : bool :=
  match v with
  | VUndefined | VNull => false
  | VBool b => b
  | VNum q => negb (Qnum q =? 0)%Z
  | VStr s => Js.nonEmpty s
  | VArr _ | VObj _ | VFun => true
  end.

Fixpoint strEqb (a b : Js.str) : bool :=
  match a, b with
  | [], [] => true
  | x :: a', y :: b' => (x =? y) && strEqb a' b'
  | _, _ => false
  end.

Fixpoint lookup (k : Js.str) (fields : list (Js.str * value)) : option value :=
  match fields with
  | [] => None
  | (k', v) :: rest => if strEqb k k' then Some v else lookup k rest
  end.

(** [v.name], for the property names the sources read ([status], [title],
    [link], [img], [duration], [url], [msg]).  Of these a string has
    [link] (a method of String.prototype); arrays, numbers, booleans and
    functions have none.  The sources read a property of [null] or
    [undefined] nowhere: each read is guarded. *)
Definition prop (name : string) (v : value) : value :=
  match v with
  | VObj fields =>
      match lookup (Js.lit name) fields with
      | Some x => x
      | None => VUndefined
      end
  | VStr _ => if String.eqb name "link" then VFun else VUndefined
  | _ => VUndefined
  end.

(** The field [name] of a parsed answer, when the answer is an object that
    has it. *)
Definition field (name : string) (v : value) : option value :=
  match v with
  | VObj fields => lookup (Js.lit name) fields
  | _ => None
  end.


(** [a || b] *)
Definition or (a b : value) : value := if truthy a then a else b.

(** An object literal with ASCII property names. *)
Definition obj (fields : list (string * value)) : value :=
  VObj (map (fun kv => (Js.lit (fst kv), snd kv)) fields).

(** [o[k] = v] on the own properties: an existing property keeps its place. *)
Fixpoint assign (k : Js.str) (v : value) (fields : list (Js.str * value))
  : list (Js.str * value) :=
  match fields with
  | [] => [(k, v)]
  | (k', v') :: rest =>
      if strEqb k k' then (k', v) :: rest else (k', v') :: assign k v rest
  end.

(** [{...o, k1: v1, ..., kn: vn}]: the own properties of [o], when it is an
    object, then the listed ones. *)
Definition spread (o : value) (more : list (string * value)) : value :=
  let own := match o with VObj fields => fields | _ => [] end in
  VObj (fold_left (fun acc kv => assign (Js.lit (fst kv)) (snd kv) acc) more own).

Definition str (s : string) : value := VStr (Js.lit s).

End Value.

Import Value.

Module Console.

(** One call of [console.log] or [console.error], with its arguments. *)
Inductive entry : Type :=
| Log (args : list value)
| Error (args : list value).

(** A computation that writes to the console: its result and what it
    wrote, in order. *)
Definition io (A : Type) : Type := (A * list entry)%type.

Definition ret {A : Type} (a : A) : io A := (a, []).

Definition bind {A B : Type} (x : io A) (f : A -> io B) : io B :=
  let (a, l1) := x in
  let (b, l2) := f a in
  (b, l1 ++ l2).

Definition log (args : list value) : io unit := (tt, [Log args]).
Definition error (args : list value) : io unit := (tt, [Error args]).

Definition value_of {A : Type} (x : io A) : A := fst x.
Definition written {A : Type} (x : io A) : list entry := snd x.

End Console.

Import Console.

Notation "x <- c1 ;; c2" := (bind c1 (fun x => c2))
  (at level 61, c1 at next level, right associativity).
Notation "c1 ;;; c2" := (bind c1 (fun _ => c2))
  (at level 61, right associativity).

Module Net.

(** How one [axios.get] ends: the promise resolves with the parsed body, or
    rejects (transport fault, timeout, HTTP error status) with a message. *)
Inductive outcome : Type :=
| Resolved (data : value)
| Rejected (message : Js.str).

(** The upstream services, as seen during one request: the outcome of a
    GET of each address. *)
Definition upstream : Type := Js.str -> outcome.

End Net.

Import Net.

(* ------------------------------------------------------------------ *)
(** ** src/unnamed/part_000: the resolver with a fallback *)

Module Mp3Server.

(** [[^\/]] *)
Definition notSlash (c : N) : bool := negb (c =? 47).

(** [[?&]] *)
Definition queryMark (c : N) : bool := (c =? 63) || (c =? 38).

(** The class of the identifier: any code unit but the double quote, [&],
    [?], [/] and white space. *)
Definition idLoose (c : N) : bool :=
  negb ((c =? 34) || (c =? 38) || (c =? 63) || (c =? 47) || space c).

(** [[^\/]+\/.+\/] *)
Definition pathShape : regex :=
  Cat (plus notSlash) (Cat (chr "/") (Cat (plus dot) (chr "/"))).

(** [(?:v|e(?:mbed)?)\/] *)
Definition embedShape : regex :=
  Cat (Alt (chr "v") (Cat (chr "e") (opt (Lit "mbed")))) (chr "/").

(** [.*[?&]v=] *)
Definition queryShape : regex :=
  Cat (Star dot) (Cat (Cls queryMark) (Lit "v=")).

(** [(?:youtube\.com\/(?:[^\/]+\/.+\/|(?:v|e(?:mbed)?)\/|.*[?&]v=)|youtu\.be\/)] *)
Definition idPrefix : regex :=
  Alt (Cat (Lit "youtube.com/") (Alt pathShape (Alt embedShape queryShape)))
      (Lit "youtu.be/").

(** The pattern of [extractVideoId]. *)
Definition videoIdRegex : regex :=
  Cat idPrefix (Group 1 (rep 11 (Cls idLoose))).

Definition extractVideoId (url : Js.str) : option Js.str :=
  match exec videoIdRegex url with
  | Some res => group 1 res
  | None => None
  end.

(** [`${videoId}`]: a missing identifier prints as [null]. *)
Definition showId (videoId : option Js.str) : Js.str :=
  match videoId with
  | Some v => v
  | None => Js.lit "null"
  end.

Definition idValue (videoId : option Js.str) : value :=
  match videoId with
  | Some v => VStr v
  | None => VNull
  end.

Definition thumbOf (videoId : option Js.str) : Js.str :=
  Js.lit "https://i.ytimg.com/vi/" ++ showId videoId ++ Js.lit "/maxresdefault.jpg".

(** Method 1: the ytmp3free.cc service. *)
Definition ytmp3free (net : upstream) (url : Js.str) : io value :=
  match extractVideoId url with
  | None => ret (obj [("status", VBool false); ("msg", str "Invalid YouTube URL")])
  | Some videoId =>
      let api := Js.lit "https://ytmp3free.cc/@api/json/mp3/" ++ videoId in
      log [str "Fetching from:"; VStr api] ;;;
      match net api with
      | Rejected message =>
          error [str "ytmp3free error:"; VStr message] ;;;
          ret (obj [("status", VBool false);
                    ("error", VStr message);
                    ("msg", str "Service temporarily unavailable")])
      | Resolved data =>
          log [str "Raw response:"; data] ;;;
          if negb (truthy data) || negb (truthy (prop "title" data))
             || negb (truthy (prop "link" data))
          then ret (obj [("status", VBool false);
                         ("msg", str "No data received from service");
                         ("rawData", data)])
          else ret (obj [("status", VBool true);
                         ("title", prop "title" data);
                         ("thumb", or (prop "img" data) (VStr (thumbOf (Some videoId))));
                         ("duration", prop "duration" data);
                         ("mp3", prop "link" data);
                         ("source", str "ytmp3free.cc");
                         ("videoId", VStr videoId)])
      end
  end.

(** Method 2: the alternative service. *)
Definition alternativeService (net : upstream) (url : Js.str) : io value :=
  let videoId := extractVideoId url in
  let apiUrl := Js.lit "https://api.vevioz.com/api/button/mp3/" ++ showId videoId in
  match net apiUrl with
  | Rejected _ =>
      ret (obj [("status", VBool false); ("msg", str "Alternative service error")])
  | Resolved data =>
      if truthy data && truthy (prop "url" data)
      then ret (obj [("status", VBool true);
                     ("title", VStr (Js.lit "YouTube Video " ++ showId videoId));
                     ("thumb", VStr (thumbOf videoId));
                     ("mp3", prop "url" data);
                     ("source", str "vevioz.com");
                     ("videoId", idValue videoId)])
      else ret (obj [("status", VBool false); ("msg", str "Alternative service failed")])
  end.

(** The primary service first; the alternative when it fails. *)
Definition getMP3Info (net : upstream) (url : Js.str) : io value :=
  result <- ytmp3free net url ;;
  if negb (truthy (prop "status" result))
  then bind (log [str "Primary service failed, trying alternative..."])
            (fun _ => alternativeService net url)
  else ret result.

(** An HTTP answer: the status code and the JSON body. *)
Record response : Type := { code : nat; body : value }.

(** [GET /api/mp3], for a [youtubeUrl] query parameter that is absent or a
    string. *)
Definition apiMp3 (net : upstream) (youtubeUrl : option Js.str) : io response :=
  match youtubeUrl with
  | None | Some [] =>
      ret {| code := 400;
             body := obj [("status", VBool false);
                          ("error", str "Missing youtubeUrl parameter");
                          ("example", str "/api/mp3?youtubeUrl=https://www.youtube.com/watch?v=VIDEO_ID")] |}
  | Some youtubeUrl =>
      match extractVideoId youtubeUrl with
      | None =>
          ret {| code := 400;
                 body := obj [("status", VBool false);
                              ("error", str "Invalid YouTube URL");
                              ("supported_formats",
                               VArr [str "https://www.youtube.com/watch?v=VIDEO_ID";
                                     str "https://youtu.be/VIDEO_ID";
                                     str "https://www.youtube.com/embed/VIDEO_ID"])] |}
      | Some videoId =>
          log [VStr (Js.lit "Processing request for video: " ++ videoId)] ;;;
          result <- getMP3Info net youtubeUrl ;;
          if truthy (prop "status" result)
          then ret {| code := 200; body := result |}
          else ret {| code := 500;
                      body := spread result
                        [("videoId", VStr videoId);
                         ("note", str "The service might be temporarily down. Please try again later.")] |}
      end
  end.

(** [POST /api/mp3/download], for a [youtubeUrl] body field that is absent
    or a string. *)
Definition apiMp3Download (net : upstream) (youtubeUrl : option Js.str) : io response :=
  match youtubeUrl with
  | None | Some [] =>
      ret {| code := 400;
             body := obj [("status", VBool false);
                          ("error", str "Missing youtubeUrl in request body")] |}
  | Some youtubeUrl =>
      match extractVideoId youtubeUrl with
      | None =>
          ret {| code := 400;
                 body := obj [("status", VBool false); ("error", str "Invalid YouTube URL")] |}
      | Some _ =>
          result <- getMP3Info net youtubeUrl ;;
          if truthy (prop "status" result)
          then ret {| code := 200; body := result |}
          else ret {| code := 500; body := result |}
      end
  end.

End Mp3Server.

(* ------------------------------------------------------------------ *)
(** ** src/api/ytmp3.js: validation, file names and streamed delivery *)

Module Http.

(** What a handler has put on the wire: bytes of the audio, or one JSON
    document. *)
Inductive payload : Type :=
| Bytes (data : list N)
| Json (v : value).

(** The response object of the server, as the handlers use it.
    [headersSent] turns true with the first write. *)
Record res : Type := {
  statusCode : nat;
  headers : list (string * Js.str);
  headersSent : bool;
  sent : list payload;
  finished : bool
}.

Definition fresh : res :=
  {| statusCode := 200; headers := []; headersSent := false;
     sent := []; finished := false |}.

Definition dropHeader (name : string) (hs : list (string * Js.str)) :=
  filter (fun h => negb (String.eqb (fst h) name)) hs.

(** The code units Node lets into the value of a header: the tab, 0x20 to
    0x7e and 0x80 to 0xff. *)
Definition headerChar (c : N) : bool :=
  (c =? 9) || ((32 <=? c) && (c <=? 126)) || ((128 <=? c) && (c <=? 255)).

(** A call on the response that may throw: the response after the call, or
    the message of the error with the response as the call left it. *)
Inductive attempt : Type :=
| Returned (r : res)
| Thrown (message : Js.str) (r : res).

(** The message of the error for a value no header may hold; the name of
    the header stands between double quotes. *)
Definition invalidChar (name : string) : Js.str :=
  Js.lit "Invalid character in header content [" ++ [34] ++ Js.lit name
  ++ [34] ++ Js.lit "]".

(** [res.setHeader(name, v)]: it throws once the headers are out, and for a
    value with a code unit that no header may hold. *)
Definition setHeader (name : string) (v : Js.str) (r : res) : attempt :=
  if headersSent r
  then Thrown (Js.lit "Cannot set headers after they are sent to the client") r
  else if forallb headerChar v
  then Returned {| statusCode := statusCode r;
                   headers := dropHeader name (headers r) ++ [(name, v)];
                   headersSent := headersSent r;
                   sent := sent r;
                   finished := finished r |}
  else Thrown (invalidChar name) r.

(** [res.status(c)] *)
Definition status (c : nat) (r : res) : res :=
  {| statusCode := c; headers := headers r; headersSent := headersSent r;
     sent := sent r; finished := finished r |}.

(** The type [res.json] announces: JSON, unless a Content-Type was set
    before, which is kept; the charset is added to it. *)
Definition jsonType (hs : list (string * Js.str)) : Js.str :=
  match List.find (fun h => String.eqb (fst h) "Content-Type") hs with
  | Some h => snd h ++ Js.lit "; charset=utf-8"
  | None => Js.lit "application/json; charset=utf-8"
  end.

(** [res.json(v)]: the body is sent and the response ends. *)
Definition json (v : value) (r : res) : res :=
  {| statusCode := statusCode r;
     headers := dropHeader "Content-Type" (headers r)
                ++ [("Content-Type", jsonType (headers r))];
     headersSent := true;
     sent := sent r ++ [Json v];
     finished := true |}.

(** [res.write(data)]: the headers go out with the first write; on a
    response that has ended nothing is sent. *)
Definition write (data : list N) (r : res) : res :=
  if finished r then r
  else {| statusCode := statusCode r; headers := headers r; headersSent := true;
          sent := sent r ++ [Bytes data]; finished := finished r |}.

(** [res.end()]: the headers go out if they have not yet; on a response
    that has ended it does nothing. *)
Definition finish (r : res) : res :=
  if finished r then r
  else {| statusCode := statusCode r; headers := headers r; headersSent := true;
          sent := sent r; finished := true |}.

(** The audio bytes a response carries, and its JSON documents. *)
Definition audio (r : res) : list N :=
  flat_map (fun p => match p with Bytes d => d | Json _ => [] end) (sent r).

Definition documents (r : res) : list value :=
  flat_map (fun p => match p with Bytes _ => [] | Json v => [v] end) (sent r).

End Http.

Import Http.

Module Ytmp3Api.

(** [[a-zA-Z0-9_-]] *)
Definition idChar (c : N) : bool :=
  ((97 <=? c) && (c <=? 122)) || ((65 <=? c) && (c <=? 90))
  || ((48 <=? c) && (c <=? 57)) || (c =? 95) || (c =? 45).

(** [(youtube\.com\/watch\?v=|youtu\.be\/)] without its group. *)
Definition hostShape : regex :=
  Alt (Lit "youtube.com/watch?v=") (Lit "youtu.be/").

(** [^(https?:\/\/)?(www\.)?(youtube\.com\/watch\?v=|youtu\.be\/)([a-zA-Z0-9_-]{11})] *)
Definition validRegex : regex :=
  Cat Bol
  (Cat (opt (Group 1 (Cat (Lit "http") (Cat (opt (chr "s")) (Lit "://")))))
  (Cat (opt (Group 2 (Lit "www.")))
  (Cat (Group 3 hostShape)
       (Group 4 (rep 11 (Cls idChar)))))).

Definition isValidYouTubeUrl (url : Js.str) : bool := test validRegex url.

(** [(?:youtube\.com\/watch\?v=|youtu\.be\/)([a-zA-Z0-9_-]{11})] *)
Definition idRegex : regex :=
  Cat hostShape (Group 1 (rep 11 (Cls idChar))).

Definition extractVideoId (url : Js.str) : option Js.str :=
  match exec idRegex url with
  | Some res => group 1 res
  | None => None
  end.

(** [[^\w\s]]; the [i] flag changes nothing for this class, whose letters
    come in both cases. *)
Definition notWordNorSpace (c : N) : bool := negb (word c || space c).

(** [title.replace(/[^\w\s]/gi, '')] *)
Definition sanitize (title : Js.str) : Js.str := removeAll (Cls notWordNorSpace) title.

(** The name sent in Content-Disposition. *)
Definition disposition (title : Js.str) : Js.str :=
  Js.lit "attachment; filename=" ++ [34] ++ title ++ Js.lit ".mp3" ++ [34].

(** How [ytdl.getInfo] ends. *)
Inductive info : Type :=
| InfoOk (title : Js.str)
| InfoFailed (message : Js.str).

(** A chunk of a stream: at least one byte. *)
Record chunk : Type := { first : N; rest : list N }.

Definition bytes (c : chunk) : list N := first c :: rest c.

(** How a stream ends: normally, or with an [error] event. *)
Inductive ending : Type :=
| Ended
| Failed (message : Js.str).

(** One run of the source stream that [/api/download-mp3] pipes, as the
    response sees it: the chunks it emits, then its end. *)
Record run : Type := { chunks : list chunk; outcome : ending }.

(** What the transcoder of [/api/download] does, as the handler and the
    response see it.  Its output is piped to the response, and its [error]
    or [end] event is emitted apart from that, when its process is over or
    cannot go on: before the output, in the middle of it, or after its end. *)
Inductive event : Type :=
| Output (c : chunk)
| OutputEnd
| Fault (message : Js.str)
| Completed.

(** What [ytdl.chooseFormat] does: it returns a format, or a value that is
    not one, or it throws, as ytdl-core does when no format fits. *)
Inductive choice : Type :=
| Chosen
| Nothing
| Refused (message : Js.str).

(** [pipe]: each chunk is written to the response as it comes. *)
Definition pipe (cs : list chunk) (r : res) : res :=
  fold_left (fun acc c => write (bytes c) acc) cs r.

(** The [error] listener of both endpoints. *)
Definition onError (label reply : string) (message : Js.str) (r : res) : io res :=
  error [str label; VStr message] ;;;
  if negb (headersSent r)
  then ret (json (obj [("error", str reply)]) (status 500 r))
  else ret r.

(** The [catch] of both endpoints. *)
Definition onThrow (message : Js.str) (r : res) : io res :=
  error [str "Download error:"; VStr message] ;;;
  if negb (headersSent r)
  then ret (json (obj [("error", str "Download failed")]) (status 500 r))
  else ret r.

(** The two headers of a download, set one after the other. *)
Definition audioHeaders (title : Js.str) (r : res) : attempt :=
  match setHeader "Content-Disposition" (disposition title) r with
  | Returned r1 => setHeader "Content-Type" (Js.lit "audio/mpeg") r1
  | Thrown message r1 => Thrown message r1
  end.

(** What one event of the transcoder does to the response of
    [/api/download]: the pipe writes a chunk of the output and, as it was
    made with [{ end: true }], ends the response when the output ends; the
    two listeners of the handler answer the [error] and the [end] event. *)
Definition react (e : event) (r : res) : io res :=
  match e with
  | Output c => ret (write (bytes c) r)
  | OutputEnd => ret (finish r)
  | Fault message => onError "FFmpeg error:" "Conversion failed" message r
  | Completed => log [str "Conversion finished"] ;;; ret r
  end.

Fixpoint transcode (es : list event) (r : res) : io res :=
  match es with
  | [] => ret r
  | e :: es' => r' <- react e r ;; transcode es' r'
  end.

(** [GET /api/download]: the source piped through the transcoder. *)
Definition download (url : option Js.str) (i : info) (es : list event) : io res :=
  match url with
  | None | Some [] =>
      ret (json (obj [("error", str "URL parameter is required")]) (status 400 fresh))
  | Some url =>
      if negb (isValidYouTubeUrl url)
      then ret (json (obj [("error", str "Invalid YouTube URL")]) (status 400 fresh))
      else
        match i with
        | InfoFailed message => onThrow message fresh
        | InfoOk title =>
            match audioHeaders (sanitize title) fresh with
            | Thrown message res0 => onThrow message res0
            | Returned res1 => transcode es res1
            end
        end
  end.

(** [GET /api/download-mp3]: the source piped as it is. *)
Definition downloadMp3 (url : option Js.str) (i : info) (format : choice) (r : run)
  : io res :=
  match url with
  | None | Some [] =>
      ret (json (obj [("error", str "URL parameter is required")]) (status 400 fresh))
  | Some url =>
      if negb (isValidYouTubeUrl url)
      then ret (json (obj [("error", str "Invalid YouTube URL")]) (status 400 fresh))
      else
        match i with
        | InfoFailed message => onThrow message fresh
        | InfoOk title =>
            match format with
            | Refused message => onThrow message fresh
            | Nothing =>
                ret (json (obj [("error", str "No suitable audio format found")])
                          (status 500 fresh))
            | Chosen =>
                match audioHeaders (sanitize title) fresh with
                | Thrown message res0 => onThrow message res0
                | Returned res1 =>
                    let res2 := pipe (chunks r) res1 in
                    match outcome r with
                    | Failed message => onError "Stream error:" "Stream failed" message res2
                    | Ended => ret (finish res2)
                    end
                end
            end
        end
  end.

End Ytmp3Api.

(* ------------------------------------------------------------------ *)
(** ** src/index.js, second program: one upstream service *)

Module Mp3Basic.

(** The characters [encodeURIComponent] leaves as they are. *)
Definition unreserved (c : N) : bool :=
  ((97 <=? c) && (c <=? 122)) || ((65 <=? c) && (c <=? 90))
  || ((48 <=? c) && (c <=? 57))
  || (c =? 45) || (c =? 95) || (c =? 46) || (c =? 33) || (c =? 126)
  || (c =? 42) || (c =? 39) || (c =? 40) || (c =? 41).

Definition hexDigit (d : N) : N := if d <? 10 then 48 + d else 55 + d.

Definition percent (b : N) : Js.str := [37; hexDigit (b / 16); hexDigit (b mod 16)].

Definition utf8 (cp : N) : list N :=
  if cp <? 128 then [cp]
  else if cp <? 2048 then [192 + cp / 64; 128 + cp mod 64]
  else if cp <? 65536
       then [224 + cp / 4096; 128 + (cp / 64) mod 64; 128 + cp mod 64]
       else [240 + cp / 262144; 128 + (cp / 4096) mod 64;
             128 + (cp / 64) mod 64; 128 + cp mod 64].

Definition isLead (c : N) : bool := (55296 <=? c) && (c <=? 56319).
Definition isTrail (c : N) : bool := (56320 <=? c) && (c <=? 57343).

(** [encodeURIComponent(s)]; [None] when it throws URIError on a lone
    surrogate. *)
Fixpoint encodeURIComponent (s : Js.str) : option Js.str :=
  match s with
  | [] => Some []
  | c :: s' =>
      if unreserved c then option_map (cons c) (encodeURIComponent s')
      else if isTrail c then None
      else if isLead c then
        match s' with
        | d :: s'' =>
            if isTrail d
            then option_map
                   (app (flat_map percent
                           (utf8 ((c - 55296) * 1024 + (d - 56320) + 65536))))
                   (encodeURIComponent s'')
            else None
        | [] => None
        end
      else option_map (app (flat_map percent (utf8 c))) (encodeURIComponent s')
  end.

(** The ytmp3free.cc service, asked with the whole address. *)
Definition ytmp3free (net : upstream) (url : Js.str) : io value :=
  match encodeURIComponent url with
  | None =>
      ret (obj [("status", VBool false);
                ("error", str "URI malformed");
                ("msg", str "Service temporarily unavailable. Please try again later.")])
  | Some encoded =>
      let api := Js.lit "https://ytmp3free.cc/@api/json/mp3/" ++ encoded in
      match net api with
      | Rejected message =>
          ret (obj [("status", VBool false);
                    ("error", VStr message);
                    ("msg", str "Service temporarily unavailable. Please try again later.")])
      | Resolved data =>
          if negb (truthy data) || negb (truthy (prop "title" data))
             || negb (truthy (prop "link" data))
          then ret (obj [("status", VBool false);
                         ("msg", str "Scrape failed or invalid YouTube URL")])
          else ret (obj [("status", VBool true);
                         ("title", prop "title" data);
                         ("thumb", prop "img" data);
                         ("duration", prop "duration" data);
                         ("mp3", prop "link" data);
                         ("source", str "ytmp3free.cc")])
      end
  end.

(** [youtubeRegex], the same pattern as [isValidYouTubeUrl] of
    src/api/ytmp3.js. *)
Definition youtubeRegex : regex :=
  Cat Bol
  (Cat (opt (Group 1 (Cat (Lit "http") (Cat (opt (chr "s")) (Lit "://")))))
  (Cat (opt (Group 2 (Lit "www.")))
  (Cat (Group 3 (Alt (Lit "youtube.com/watch?v=") (Lit "youtu.be/")))
       (Group 4 (rep 11 (Cls Ytmp3Api.idChar)))))).

(** The two endpoints, which differ in the text of the first error. *)
Definition answer (missing : string) (net : upstream) (youtubeUrl : option Js.str)
  : io Mp3Server.response :=
  match youtubeUrl with
  | None | Some [] =>
      ret {| Mp3Server.code := 400;
             Mp3Server.body := obj [("status", VBool false); ("error", str missing)] |}
  | Some youtubeUrl =>
      if negb (test youtubeRegex youtubeUrl)
      then ret {| Mp3Server.code := 400;
                  Mp3Server.body := obj [("status", VBool false);
                                         ("error", str "Invalid YouTube URL")] |}
      else
        result <- ytmp3free net youtubeUrl ;;
        if truthy (prop "status" result)
        then ret {| Mp3Server.code := 200; Mp3Server.body := result |}
        else ret {| Mp3Server.code := 500; Mp3Server.body := result |}
  end.

(** [GET /api/mp3] *)
Definition apiMp3 : upstream -> option Js.str -> io Mp3Server.response :=
  answer "Missing youtubeUrl parameter".

(** [POST /api/mp3/download] *)
Definition apiMp3Download : upstream -> option Js.str -> io Mp3Server.response :=
  answer "Missing youtubeUrl in request body".

End Mp3Basic.

(* ------------------------------------------------------------------ *)
(** ** src/index.js, first program: the catalog scraper *)

(** What the handlers ask of cheerio, once a page is loaded. *)
Class Cheerio : Type := {
  document : Type;
  element : Type;
  (** [$(selector)]: the matching elements, in document order *)
  select : document -> string -> list element;
  (** [$(element).find(selector)] *)
  find : element -> string -> list element;
  (** [$(element).attr(name)], [None] for [undefined] *)
  attr : element -> string -> option Js.str;
  (** [$(element).text()] *)
  text : element -> Js.str
}.

(** [String.prototype.toLowerCase], a function of the Unicode tables. *)
Class Casing : Type := { toLowerCase : Js.str -> Js.str }.

Module MovieApi.

Definition BASE_URL : Js.str := Js.lit "https://sinhalasub.lk".

(** [/(19|20)\d{2}/] *)
Definition yearRegex : regex :=
  Cat (Group 1 (Alt (Lit "19") (Lit "20"))) (rep 2 (Cls digit)).

Definition extractYear (title : Js.str) : option Js.str :=
  match exec yearRegex title with
  | Some res => Some (fst res)
  | None => None
  end.

(** [[^\n]] *)
Definition notNewline (c : N) : bool := negb (c =? 10).

(** [new RegExp(`${key}\\s*([^\\n]+)`, 'i')], for a key of letters and a
    colon, as the callers pass. *)
Definition valueRegex (key : string) : regex :=
  Cat (LitI key) (Cat (Star space) (Group 1 (plus notNewline))).

Definition extractValue (text : Js.str) (key : string) : option Js.str :=
  match exec (valueRegex key) text with
  | Some res => option_map Js.trim (group 1 res)
  | None => None
  end.

Definition classifyLinkType (text url : Js.str) : string :=
  if Js.includes url (Js.lit "drive.google.com") then "google_drive"
  else if Js.includes url (Js.lit "mega.nz") then "mega"
  else if Js.includes url (Js.lit "mediafire.com") then "mediafire"
  else if Js.includes url (Js.lit "dropbox.com") then "dropbox"
  else if Js.includes text (Js.lit "watch") then "stream"
  else "download".

(** One entry of [movies]. *)
Record movie : Type := {
  title : Js.str;
  link : Js.str;
  image : option Js.str;
  description : Js.str;
  year : option Js.str
}.

(** One entry of [downloadLinks]. *)
Record download : Type := {
  provider : Js.str;
  url : Js.str;
  type : string
}.

(** The answer of [/api/movie]. *)
Record details : Type := {
  pageTitle : Js.str;
  pageImage : option Js.str;
  pageDescription : Js.str;
  fields : list (Js.str * value);
  downloadLinks : list download
}.

Definition absolute (href : Js.str) : Js.str :=
  if Js.startsWith href (Js.lit "http") then href else BASE_URL ++ href.

(** [x || null] for a string or [undefined]. *)
Definition orNull (x : option Js.str) : option Js.str :=
  match x with
  | Some (c :: s) => Some (c :: s)
  | _ => None
  end.

(** The test on the text and target of a link in [/api/movie]. *)
Definition mentionsDownload (text href : Js.str) : bool :=
  Js.includes text (Js.lit "download") || Js.includes text (Js.lit "watch")
  || Js.includes href (Js.lit "drive.google.com")
  || Js.includes href (Js.lit "mega.nz")
  || Js.includes href (Js.lit "mediafire.com")
  || Js.includes href (Js.lit "dropbox").

Section Handlers.

Context {cheerio : Cheerio} {casing : Casing}.

(** [.first().text()] and [.first().attr(name)] of a selection. *)
Definition firstText (sel : list element) : Js.str :=
  match sel with
  | e :: _ => text e
  | [] => []
  end.

Definition firstAttr (sel : list element) (name : string) : option Js.str :=
  match sel with
  | e :: _ => attr e name
  | [] => None
  end.

(** The callback of the first [each] of [/api/search]: what it pushes. *)
Definition primaryBlock (e : element) : list movie :=
  let title := Js.trim (firstText (find e "h2 a, h3 a, .title a, .entry-title a")) in
  let link := firstAttr (find e "h2 a, h3 a, .title a, .entry-title a") "href" in
  let image := firstAttr (find e "img") "src" in
  let description :=
    Js.trim (firstText (find e ".entry-content, .excerpt, .description")) in
  match link with
  | Some (c :: l) =>
      if Js.nonEmpty title
      then [{| title := title;
               link := absolute (c :: l);
               image := orNull image;
               description := description;
               year := extractYear title |}]
      else []
  | _ => []
  end.

Definition primaryPass (doc : document) : list movie :=
  flat_map primaryBlock (select doc ".post-box, .movie-item, article, .post").

(** The callback of the second [each]: generic link mining. *)
Definition secondaryBlock (e : element) : list movie :=
  let href := attr e "href" in
  let text := Js.trim (text e) in
  match href with
  | Some (c :: h) =>
      if Js.nonEmpty text && Js.includes (c :: h) (Js.lit "/movie/")
         && Nat.ltb 5 (List.length text)
      then [{| title := text;
               link := absolute (c :: h);
               image := None;
               description := [];
               year := extractYear text |}]
      else []
  | _ => []
  end.

Definition secondaryPass (doc : document) : list movie :=
  flat_map secondaryBlock (select doc "a").

(** The [movies] of [/api/search] for a loaded page. *)
Definition searchMovies (doc : document) : list movie :=
  let movies := primaryPass doc in
  if Nat.eqb (List.length movies) 0 then movies ++ secondaryPass doc else movies.

(** The labels read from the paragraphs, in the order of the source. *)
Definition labels : list (string * string) :=
  [("Year:", "year"); ("Genre:", "genre"); ("Director:", "director");
   ("Cast:", "cast"); ("Quality:", "quality"); ("Size:", "size");
   ("Duration:", "duration")].

Definition fieldValue (v : option Js.str) : value :=
  match v with
  | Some s => VStr s
  | None => VNull
  end.

Definition readLabels (acc : list (Js.str * value)) (paragraph : Js.str)
  : list (Js.str * value) :=
  fold_left
    (fun acc l =>
       if Js.includes paragraph (Js.lit (fst l))
       then assign (Js.lit (snd l)) (fieldValue (extractValue paragraph (fst l))) acc
       else acc)
    labels acc.

(** The callback of the [each] over the links of [/api/movie]. *)
Definition downloadEntry (e : element) : list download :=
  let href := attr e "href" in
  let text := toLowerCase (Js.trim (text e)) in
  match href with
  | Some (c :: h) =>
      if mentionsDownload text (c :: h)
      then [{| provider := match text with [] => Js.lit "Download" | _ => text end;
               url := c :: h;
               type := classifyLinkType text (c :: h) |}]
      else []
  | _ => []
  end.

(** The answer of [/api/movie] for a loaded page. *)
Definition movieDetails (doc : document) : details :=
  {| pageTitle := Js.trim (firstText (select doc "h1.entry-title, h1.post-title, h1"));
     pageImage :=
       firstAttr (select doc ".post-image img, .featured-image img, .entry-content img") "src";
     pageDescription :=
       Js.substring0 500 (Js.trim (firstText (select doc ".entry-content, .post-content")))
       ++ Js.lit "...";
     fields :=
       fold_left readLabels
         (map (fun e => Js.trim (text e)) (select doc ".entry-content p, .post-content p"))
         [];
     downloadLinks := flat_map downloadEntry (select doc "a") |}.

End Handlers.

End MovieApi.

(* ------------------------------------------------------------------ *)
(** ** A page as a tree, to run the scraper on *)

Module Dom.

Inductive node : Type :=
| Text (s : Js.str)
| Element (tag : string) (attrs : list (string * Js.str)) (children : list node).

(** An element in its page: the tags and attributes of its ancestors,
    nearest first, and the element. *)
Definition opening : Type := (string * list (string * Js.str))%type.
Definition placed : Type := (list opening * node)%type.

Fixpoint attribute (name : string) (attrs : list (string * Js.str)) : option Js.str :=
  match attrs with
  | [] => None
  | (k, v) :: rest => if String.eqb k name then Some v else attribute name rest
  end.

(** The words of a [class] attribute. *)
Fixpoint wordsFrom (cur : Js.str) (s : Js.str) : list Js.str :=
  match s with
  | [] => match cur with [] => [] | _ => [rev cur] end
  | c :: s' =>
      if Js.isWhiteSpace c
      then match cur with
           | [] => wordsFrom [] s'
           | _ => rev cur :: wordsFrom [] s'
           end
      else wordsFrom (c :: cur) s'
  end.

Definition classesOf (o : opening) : list Js.str :=
  match attribute "class" (snd o) with
  | Some v => wordsFrom [] v
  | None => []
  end.

(** A compound selector: a tag, or none, and classes. *)
Record compound : Type := { tagOf : string; classes : list string }.

Definition hasClass (o : opening) (c : string) : bool :=
  existsb (strEqb (Js.lit c)) (classesOf o).

Definition fits (cp : compound) (o : opening) : bool :=
  (String.eqb (tagOf cp) EmptyString || String.eqb (tagOf cp) (fst o))
  && forallb (hasClass o) (classes cp).

(** The ancestors asked by the part of a selector left of the last
    compound, nearest compound first. *)
Fixpoint under (chain : list compound) (ancestors : list opening) : bool :=
  match chain with
  | [] => true
  | cp :: chain' =>
      (fix climb (anc : list opening) : bool :=
         match anc with
         | [] => false
         | o :: anc' => if fits cp o then under chain' anc' else climb anc'
         end) ancestors
  end.

(** Splitting the text of a selector. *)
Fixpoint splitOn (sep : ascii) (cur : string) (s : string) : list string :=
  match s with
  | EmptyString => [cur]
  | String c s' =>
      if Ascii.eqb c sep
      then cur :: splitOn sep EmptyString s'
      else splitOn sep (cur ++ String c EmptyString)%string s'
  end.

Definition pieces (sep : ascii) (s : string) : list string :=
  filter (fun p => negb (String.eqb p EmptyString)) (splitOn sep EmptyString s).

Definition parseCompound (s : string) : compound :=
  match splitOn "." EmptyString s with
  | [] => {| tagOf := EmptyString; classes := [] |}
  | t :: cs => {| tagOf := t; classes := cs |}
  end.

(** A selector: alternatives separated by commas, each a chain of
    compounds separated by spaces (descendant combinators), here with the
    rightmost compound first. *)
Definition parseSelector (s : string) : list (list compound) :=
  map (fun alt => rev (map parseCompound (pieces " " alt))) (pieces "," s).

Definition matches (sel : list (list compound)) (p : placed) : bool :=
  match snd p with
  | Text _ => false
  | Element t a _ =>
      existsb (fun chain =>
                 match chain with
                 | [] => false
                 | cp :: up => fits cp (t, a) && under up (fst p)
                 end) sel
  end.

(** The elements of a subtree, in document order, with their ancestors. *)
Fixpoint walk (ancestors : list opening) (n : node) : list placed :=
  match n with
  | Text _ => []
  | Element t a kids => (ancestors, n) :: flat_map (walk ((t, a) :: ancestors)) kids
  end.

Fixpoint textOf (n : node) : Js.str :=
  match n with
  | Text s => s
  | Element _ _ kids => flat_map textOf kids
  end.

(** The descendants of an element.  A selector given to [find] is read
    from the element down: the element itself may be the ancestor that a
    descendant combinator asks for, what is above it may not. *)
Definition inside (p : placed) : list placed :=
  match snd p with
  | Text _ => []
  | Element t a kids => flat_map (walk [(t, a)]) kids
  end.

Definition attrOf (p : placed) (name : string) : option Js.str :=
  match snd p with
  | Text _ => None
  | Element _ a _ => attribute name a
  end.

#[global] Instance tree : Cheerio := {
  document := node;
  element := placed;
  select := fun doc s => filter (matches (parseSelector s)) (walk [] doc);
  find := fun e s => filter (matches (parseSelector s)) (inside e);
  attr := attrOf;
  text := fun e => textOf (snd e)
}.

(** Lower case of the ASCII letters.  It is [toLowerCase] on strings of
    code units below 128, the strings it is run on here. *)
#[global] Instance lowerAscii : Casing := {
  toLowerCase := map Js.asciiLower
}.

(** [<a href=h>t</a>] *)
Definition anchor (h t : string) : node :=
  Element "a" [("href", Js.lit h)] [Text (Js.lit t)].

Definition page (body : list node) : node :=
  Element "html" [] [Element "head" [] []; Element "body" [] body].

End Dom.

(* ------------------------------------------------------------------ *)
(** ** Vocabulary of the statements *)

Module Url.

(** The addresses of a video: an optional scheme, an optional [www.] and
    one of three shapes before the identifier. *)
Inductive scheme : Type := NoScheme | Http | Https.

Inductive shape : Type := Watch | Short | Embed.

Definition schemeText (sc : scheme) : Js.str :=
  match sc with
  | NoScheme => []
  | Http => Js.lit "http://"
  | Https => Js.lit "https://"
  end.

Definition hostText (www : bool) : Js.str := if www then Js.lit "www." else [].

Definition shapeText (sh : shape) : Js.str :=
  match sh with
  | Watch => Js.lit "youtube.com/watch?v="
  | Short => Js.lit "youtu.be/"
  | Embed => Js.lit "youtube.com/embed/"
  end.

Definition canonical (sc : scheme) (www : bool) (sh : shape) (id : Js.str) : Js.str :=
  schemeText sc ++ hostText www ++ shapeText sh ++ id.

(** A text without the letter [y]. *)
Definition noY (s : Js.str) : bool := forallb (fun c => negb (c =? 121)) s.

(** The two groups at the front of the validating pattern. *)
Definition schemeGroup : regex :=
  Group 1 (Cat (Lit "http") (Cat (opt (chr "s")) (Lit "://"))).

Definition hostGroup : regex := Group 2 (Lit "www.").

End Url.

Module Outcome.

(** Whether a result reports success. *)
Definition succeeded (r : value) : bool := truthy (prop "status" r).

(** The failure reasons a result carries: its [error] and [msg]. *)
Definition failureReasons (r : value) : list value :=
  match r with
  | VObj fields =>
      flat_map (fun kv =>
                  if strEqb (fst kv) (Js.lit "error") || strEqb (fst kv) (Js.lit "msg")
                  then [snd kv] else [])
               fields
  | _ => []
  end.

(** The line [getMP3Info] writes when the primary service has failed. *)
Definition isFallbackLine (e : entry) : bool :=
  match e with
  | Log [VStr s] => strEqb s (Js.lit "Primary service failed, trying alternative...")
  | _ => false
  end.

(** An entry written with [console.error]. *)
Definition isError (e : entry) : bool :=
  match e with
  | Error _ => true
  | Log _ => false
  end.

(** Whether an entry of the console has the text [reason] among its
    arguments. *)
Definition carries (reason : Js.str) (e : entry) : bool :=
  existsb (fun v => match v with VStr s => strEqb s reason | _ => false end)
          match e with Log args => args | Error args => args end.

End Outcome.

Module Scenario.

(** The address of the test endpoint of src/unnamed/part_000. *)
Definition testUrl : Js.str := Js.lit "https://youtu.be/ArkDQvI_OPE".

Definition primaryApi : Js.str :=
  Js.lit "https://ytmp3free.cc/@api/json/mp3/ArkDQvI_OPE".

Definition secondaryApi : Js.str :=
  Js.lit "https://api.vevioz.com/api/button/mp3/ArkDQvI_OPE".

(** The primary service answers with something that is not JSON; the
    alternative one answers with a link. *)
Definition primaryDown : upstream :=
  fun address =>
    if strEqb address secondaryApi
    then Resolved (obj [("url", str "https://cdn/x.mp3"); ("title", str "T")])
    else Rejected (Js.lit "Unexpected token < in JSON at position 0").

(** The primary service answers without data and the alternative one is
    unreachable. *)
Definition allDown : upstream :=
  fun address =>
    if strEqb address primaryApi
    then Resolved VNull
    else Rejected (Js.lit "connect ECONNREFUSED").

(** The primary service answers with a title and a link. *)
Definition primaryUp : upstream :=
  fun _ => Resolved (obj [("title", str "T"); ("link", str "https://cdn/x.mp3")]).

(** The primary service answers with a title and no link. *)
Definition noLink : upstream :=
  fun _ => Resolved (obj [("title", str "T"); ("img", str "https://cdn/x.jpg")]).

(** A page with one link to a film, under a text of five letters. *)
Definition shortText : Dom.node := Dom.page [Dom.anchor "/movie/x" "Movie"].

(** The same with a text of six letters. *)
Definition longText : Dom.node := Dom.page [Dom.anchor "/movie/x" "Movies"].

(** A page that offers the same file twice. *)
Definition twice : Dom.node :=
  Dom.page [Dom.anchor "https://mega.nz/file/1" "Download";
            Dom.anchor "https://mega.nz/file/1" "Mirror"].

(** The primary service answers without data; the alternative one answers
    with a link. *)
Definition primaryEmpty : upstream :=
  fun address =>
    if strEqb address primaryApi
    then Resolved VNull
    else Resolved (obj [("url", str "https://cdn/x.mp3")]).

(** Two chunks of audio. *)
Definition twoChunks : list Ytmp3Api.chunk :=
  [ {| Ytmp3Api.first := 73; Ytmp3Api.rest := [68; 51] |};
    {| Ytmp3Api.first := 255; Ytmp3Api.rest := [251] |} ].

(** A source stream that fails at once, and one that fails after two
    chunks. *)
Definition failsAtOnce : Ytmp3Api.run :=
  {| Ytmp3Api.chunks := []; Ytmp3Api.outcome := Ytmp3Api.Failed (Js.lit "Status code: 403") |}.

Definition failsLate : Ytmp3Api.run :=
  {| Ytmp3Api.chunks := twoChunks;
     Ytmp3Api.outcome := Ytmp3Api.Failed (Js.lit "aborted") |}.

(** A transcoder that cannot be started: its [error] event is all there
    is. *)
Definition cannotStart : list Ytmp3Api.event :=
  [Ytmp3Api.Fault (Js.lit "Cannot find ffmpeg")].

(** A transcoder that exits with an error before it has given any output:
    its output ends, then its [error] event is emitted. *)
Definition exitsAtOnce : list Ytmp3Api.event :=
  [Ytmp3Api.OutputEnd; Ytmp3Api.Fault (Js.lit "ffmpeg exited with code 1")].

(** A source that fails after the transcoder has given two chunks: the
    [error] event is emitted, the transcoder is stopped and its output
    ends. *)
Definition sourceFailsLate : list Ytmp3Api.event :=
  map Ytmp3Api.Output twoChunks
  ++ [Ytmp3Api.Fault (Js.lit "Input stream error: aborted"); Ytmp3Api.OutputEnd].

End Scenario.

(* ------------------------------------------------------------------ *)
(** ** The other endpoints *)

Module Endpoints.

(** [GET /api/test] of src/unnamed/part_000: the primary service asked
    for a fixed address. *)
Definition apiTest (net : upstream) : io Mp3Server.response :=
  let testUrl := Js.lit "https://youtu.be/ArkDQvI_OPE" in
  result <- Mp3Server.ytmp3free net testUrl ;;
  ret {| Mp3Server.code := 200;
         Mp3Server.body := obj [("test_url", VStr testUrl); ("result", result)] |}.

(** [`${page}`] for the [page] parameter of the catalog endpoints, which
    is 1 when the request has none. *)
Definition showPage (page : option Js.str) : Js.str :=
  match page with
  | Some p => p
  | None => Js.lit "1"
  end.

(** [searchUrl] of [/api/search] of src/index.js; [None] when
    [encodeURIComponent] throws. *)
Definition searchUrl (query : Js.str) (page : option Js.str) : option Js.str :=
  option_map
    (fun q => MovieApi.BASE_URL ++ Js.lit "/page/" ++ showPage page ++ Js.lit "/?s=" ++ q)
    (Mp3Basic.encodeURIComponent query).

(** The address [ytmp3free] of src/index.js asks; [None] when
    [encodeURIComponent] throws. *)
Definition requested (url : Js.str) : option Js.str :=
  option_map (app (Js.lit "https://ytmp3free.cc/@api/json/mp3/"))
    (Mp3Basic.encodeURIComponent url).

(** The address [ytmp3free] of src/unnamed/part_000 asks for an
    identifier. *)
Definition primaryAddress (videoId : Js.str) : Js.str :=
  Js.lit "https://ytmp3free.cc/@api/json/mp3/" ++ videoId.

(** The address [alternativeService] asks; without an identifier it asks
    for [null]. *)
Definition alternativeAddress (videoId : option Js.str) : Js.str :=
  Js.lit "https://api.vevioz.com/api/button/mp3/" ++ Mp3Server.showId videoId.

(** One entry of [movies] in [/api/latest]. *)
Record latest : Type := {
  latestTitle : Js.str;
  latestLink : Js.str;
  latestImage : option Js.str;
  date : Js.str;
  latestYear : option Js.str
}.

Section Latest.

Context {cheerio : Cheerio}.

(** The callback of the [each] of [/api/latest]: what it pushes. *)
Definition latestBlock (e : element) : list latest :=
  let title :=
    Js.trim (MovieApi.firstText (find e "h2 a, h3 a, .title a, .entry-title a")) in
  let link := MovieApi.firstAttr (find e "h2 a, h3 a, .title a, .entry-title a") "href" in
  let image := MovieApi.firstAttr (find e "img") "src" in
  let date := Js.trim (MovieApi.firstText (find e ".post-date, .date, time")) in
  match link with
  | Some (c :: l) =>
      if Js.nonEmpty title
      then [{| latestTitle := title;
               latestLink := MovieApi.absolute (c :: l);
               latestImage := MovieApi.orNull image;
               date := date;
               latestYear := MovieApi.extractYear title |}]
      else []
  | _ => []
  end.

(** The [movies] of [/api/latest] for a loaded page. *)
Definition latestMovies (doc : document) : list latest :=
  flat_map latestBlock (select doc ".post-box, .movie-item, article, .post").

End Latest.

End Endpoints.

Module Shape.

(** What [encodeURIComponent] writes: unreserved characters and the
    percent sign of escapes, whose two digits are unreserved too. *)
Definition encoded (c : N) : bool := Mp3Basic.unreserved c || (c =? 37).

(** A string of 16-bit code units. *)
Definition sixteenBit (s : Js.str) : bool := forallb (fun c => c <? 65536) s.

(** A string without a surrogate code unit. *)
Definition noSurrogate (s : Js.str) : bool :=
  forallb (fun c => negb (Mp3Basic.isLead c || Mp3Basic.isTrail c)) s.

(** A string that neither starts nor ends with white space. *)
Definition bare (s : Js.str) : bool :=
  match s with
  | [] => true
  | c :: _ => negb (Js.isWhiteSpace c)
  end
  && match rev s with
     | [] => true
     | c :: _ => negb (Js.isWhiteSpace c)
     end.

(** The code units Node accepts in the value of a header: the tab, the
    printable ASCII characters and the code units from 128 to 255. *)
Definition headerSafe (c : N) : bool :=
  (c =? 9) || ((32 <=? c) && (c <=? 126)) || ((128 <=? c) && (c <=? 255)).

(** The response of a download once its two headers are set. *)
Definition opened (title : Js.str) : res :=
  {| statusCode := 200;
     headers := [("Content-Disposition", Ytmp3Api.disposition title);
                 ("Content-Type", Js.lit "audio/mpeg")];
     headersSent := false; sent := []; finished := false |}.

(** What the download handlers keep true of a response: nothing is sent
    before the headers, and a JSON document is the whole of a response,
    which has ended. *)
Definition kept (r : res) : Prop :=
  (headersSent r = false -> sent r = [])
  /\ (documents r = []
      \/ exists v, sent r = [Json v] /\ finished r = true /\ headersSent r = true).

(** Whether these events of the transcoder make the response begin: a
    chunk is written, or the output ends. *)
Definition begins (es : list Ytmp3Api.event) : bool :=
  existsb (fun e => match e with
                    | Ytmp3Api.Output _ | Ytmp3Api.OutputEnd => true
                    | _ => false
                    end) es.

(** Events without an [error] event. *)
Definition faultless (es : list Ytmp3Api.event) : bool :=
  forallb (fun e => match e with Ytmp3Api.Fault _ => false | _ => true end) es.

(** The chunks the transcoder gives before its output ends. *)
Fixpoint output (es : list Ytmp3Api.event) : list Ytmp3Api.chunk :=
  match es with
  | [] => []
  | Ytmp3Api.Output c :: es' => c :: output es'
  | Ytmp3Api.OutputEnd :: _ => []
  | _ :: es' => output es'
  end.

(** Whether the output of the transcoder ends. *)
Definition closes (es : list Ytmp3Api.event) : bool :=
  existsb (fun e => match e with Ytmp3Api.OutputEnd => true | _ => false end) es.

(** The values [classifyLinkType] returns. *)
Definition linkTypes : list string :=
  ["google_drive"; "mega"; "mediafire"; "dropbox"; "stream"; "download"].

(** The keys [/api/movie] writes into [details]. *)
Definition detailKeys : list Js.str :=
  map (fun l => Js.lit (snd l)) MovieApi.labels.

(** A value of [details]: [null], or a string without a line feed. *)
Definition detailValue (v : value) : bool :=
  match v with
  | VNull => true
  | VStr s => forallb MovieApi.notNewline s
  | _ => false
  end.

(** What [/api/movie] keeps true of [details] from paragraph to
    paragraph. *)
Definition wellKept (fields : list (Js.str * value)) : Prop :=
  NoDup (map fst fields)
  /\ incl (map fst fields) detailKeys
  /\ forall k v, In (k, v) fields -> detailValue v = true.

End Shape.

(* ------------------------------------------------------------------ *)
(** ** The programs on sample inputs *)

Example extract_watch :
  Mp3Server.extractVideoId (Js.lit "https://www.youtube.com/watch?v=KK9bwTlAvgo")
  = Some (Js.lit "KK9bwTlAvgo").
Proof. reflexivity. Qed.

Example extract_after_path :
  Mp3Server.extractVideoId (Js.lit "https://youtube.com/channel/abc/watch?v=dQw4w9WgXcQ")
  = Some (Js.lit "dQw4w9WgXcQ").
Proof. reflexivity. Qed.

Example extract_short_identifier :
  Mp3Server.extractVideoId (Js.lit "https://youtube.com/watch?v=short") = None
  /\ Ytmp3Api.isValidYouTubeUrl (Js.lit "https://youtube.com/watch?v=short") = false.
Proof. split; reflexivity. Qed.

Example extract_no_address :
  Mp3Server.extractVideoId (Js.lit "not a url") = None
  /\ Ytmp3Api.isValidYouTubeUrl (Js.lit "not a url") = false.
Proof. split; reflexivity. Qed.

Example classify_host_first :
  MovieApi.classifyLinkType (Js.lit "watch now") (Js.lit "https://drive.google.com/x")
  = "google_drive".
Proof. reflexivity. Qed.

Example year_of_title :
  MovieApi.extractYear (Js.lit "Avatar (2009) Sinhala Subtitles") = Some (Js.lit "2009").
Proof. reflexivity. Qed.

Example value_after_label :
  MovieApi.extractValue (Js.lit "Genre: Action  ") "Genre:" = Some (Js.lit "Action")
  /\ MovieApi.extractValue (Js.lit "Runtime 120") "Year:" = None.
Proof. split; reflexivity. Qed.

Example encoded_address :
  Mp3Basic.encodeURIComponent (Js.lit "https://youtu.be/a b")
  = Some (Js.lit "https%3A%2F%2Fyoutu.be%2Fa%20b").
Proof. reflexivity. Qed.

Example fallback_scenario :
  value_of (Mp3Server.getMP3Info Scenario.primaryDown Scenario.testUrl)
  = obj [("status", VBool true);
         ("title", str "YouTube Video ArkDQvI_OPE");
         ("thumb", str "https://i.ytimg.com/vi/ArkDQvI_OPE/maxresdefault.jpg");
         ("mp3", str "https://cdn/x.mp3");
         ("source", str "vevioz.com");
         ("videoId", str "ArkDQvI_OPE")].
Proof. reflexivity. Qed.

Example primary_scenario :
  Mp3Server.getMP3Info Scenario.primaryUp Scenario.testUrl
  = (obj [("status", VBool true);
          ("title", str "T");
          ("thumb", str "https://i.ytimg.com/vi/ArkDQvI_OPE/maxresdefault.jpg");
          ("duration", VUndefined);
          ("mp3", str "https://cdn/x.mp3");
          ("source", str "ytmp3free.cc");
          ("videoId", str "ArkDQvI_OPE")],
     [Log [str "Fetching from:"; VStr Scenario.primaryApi];
      Log [str "Raw response:";
           obj [("title", str "T"); ("link", str "https://cdn/x.mp3")]]]).
Proof. reflexivity. Qed.

Example primary_block_found :
  map MovieApi.title
    (MovieApi.searchMovies
       (Dom.page [Dom.Element "article" [("class", Js.lit "post hentry")]
                    [Dom.Element "h2" [("class", Js.lit "entry-title")]
                       [Dom.anchor "/avatar-2009" " Avatar 2009 "]];
                  Dom.anchor "/movie/other" "Another film"]))
  = [Js.lit "Avatar 2009"].
Proof. reflexivity. Qed.

(* ------------------------------------------------------------------ *)
(** ** The matcher *)

Section Matcher.
Context {R : Type}.
Implicit Types (k : Js.str -> caps -> option R) (s : Js.str) (c : caps).

(** A repetition fails when what follows it fails at every position it can
    stop at. *)
Lemma starC_none p s c k :
  (forall z y, s = z ++ y -> k y c = None) -> starC p s c k = None.
Proof.
  induction s as [|x s IH]; intros H; simpl.
  - apply (H [] []); reflexivity.
  - assert (Hk : k (x :: s) c = None) by (apply (H []); reflexivity).
    destruct (p x); [|exact Hk].
    rewrite IH; [exact Hk|].
    intros z y ->. apply (H (x :: z)). reflexivity.
Qed.

(** A pattern fails when its continuation fails at every later position. *)
Lemma m_none n r : forall s c k,
  (forall z y c', s = z ++ y -> k y c' = None) -> m n r s c k = None.
Proof.
  induction r; intros s c k H; simpl.
  - apply (H []); reflexivity.
  - destruct s as [|x s]; [reflexivity|].
    destruct (p x); [|reflexivity]. apply (H [x]); reflexivity.
  - apply IHr1. intros z y c' ->. apply IHr2.
    intros z' y' c'' ->. apply (H (z ++ z')). now rewrite app_assoc.
  - rewrite IHr1 by exact H. apply IHr2, H.
  - apply starC_none. intros z y Hs. apply (H z y c Hs).
  - apply IHr. intros z y c' Hs. apply (H z y _ Hs).
  - destruct (Nat.eqb _ _); [|reflexivity]. apply (H []); reflexivity.
Qed.

(** Over a run of the class that reaches the end of the text, the repetition
    gives back characters down to the last position where the continuation
    succeeds. *)
Lemma starC_stop p x a y c k res :
  forallb p (x ++ a :: y) = true ->
  (forall z w, y = z ++ w -> k w c = None) ->
  k (a :: y) c = Some res ->
  starC p (x ++ a :: y) c k = Some res.
Proof.
  intros Hp Hy Hk. induction x as [|b x IH]; simpl in *.
  - apply andb_prop in Hp as [-> _].
    rewrite starC_none by exact Hy. exact Hk.
  - apply andb_prop in Hp as [-> Hp]. now rewrite IH.
Qed.

(** A counted repetition of a class takes a run of that length. *)
Lemma m_rep_cls n p x : forall s c k,
  forallb p x = true ->
  m n (rep (List.length x) (Cls p)) (x ++ s) c k = k s c.
Proof.
  induction x as [|a x IH]; intros s c k Hp; simpl in *; [reflexivity|].
  apply andb_prop in Hp as [-> Hp]. now apply IH.
Qed.

(** A literal matches a text that starts with it. *)
Lemma m_Lit n str : forall s c k,
  m n (Lit str) s c k =
  if Js.startsWith s (Js.lit str) then k (skipn (String.length str) s) c else None.
Proof.
  induction str as [|a str IH]; intros s c k.
  - destruct s; reflexivity.
  - change (Lit (String a str)) with (Cat (chr a) (Lit str)).
    change (Js.lit (String a str)) with (N_of_ascii a :: Js.lit str).
    destruct s as [|x s]; [reflexivity|].
    cbn [m chr Js.startsWith String.length skipn].
    destruct (N_of_ascii a =? x); [apply IH|reflexivity].
Qed.

End Matcher.

(** The text taken by a match that stops before [s]. *)
Lemma consumed_app (x s : Js.str) : consumed (x ++ s) s = x.
Proof.
  unfold consumed. rewrite length_app.
  replace (List.length x + List.length s - List.length s)%nat with (List.length x) by lia.
  rewrite firstn_app, firstn_all, Nat.sub_diag. simpl. apply app_nil_r.
Qed.

Lemma m_group_rep {R} n i p x s c (k : Js.str -> caps -> option R) :
  forallb p x = true ->
  m n (Group i (rep (List.length x) (Cls p))) (x ++ s) c k = k s ((i, x) :: c).
Proof.
  intros Hp. cbn [m]. rewrite m_rep_cls by exact Hp. now rewrite consumed_app.
Qed.

Ltac bool_arith :=
  repeat rewrite ?orb_true_iff, ?andb_true_iff, ?negb_true_iff,
    ?orb_false_iff, ?andb_false_iff, ?N.eqb_eq, ?N.eqb_neq, ?N.leb_le, ?N.leb_gt in *;
  lia.

Lemma forallb_impl {A} (p q : A -> bool) (l : list A) :
  (forall a, p a = true -> q a = true) -> forallb p l = true -> forallb q l = true.
Proof.
  intros H. induction l as [|a l IH]; simpl; [reflexivity|].
  intros Hp. apply andb_prop in Hp as [Ha Hl]. now rewrite (H a Ha), IH.
Qed.

Lemma forallb_suffix {A} (p : A -> bool) (z y : list A) :
  forallb p (z ++ y) = true -> forallb p y = true.
Proof. rewrite forallb_app. intros H. now apply andb_prop in H. Qed.

(** The identifier characters within the classes of the patterns. *)

Lemma idChar_dot c : Ytmp3Api.idChar c = true -> dot c = true.
Proof. unfold Ytmp3Api.idChar, dot. bool_arith. Qed.

Lemma idChar_notSlash c : Ytmp3Api.idChar c = true -> Mp3Server.notSlash c = true.
Proof. unfold Ytmp3Api.idChar, Mp3Server.notSlash. bool_arith. Qed.

Lemma idChar_notQuery c : Ytmp3Api.idChar c = true -> Mp3Server.queryMark c = false.
Proof. unfold Ytmp3Api.idChar, Mp3Server.queryMark. bool_arith. Qed.

Lemma idChar_idLoose c : Ytmp3Api.idChar c = true -> Mp3Server.idLoose c = true.
Proof.
  unfold Ytmp3Api.idChar, Mp3Server.idLoose, space, Js.isWhiteSpace. bool_arith.
Qed.

(** ** The pattern of src/unnamed/part_000 *)

Import Url.

Section ServerPattern.

Import Mp3Server.

Section Shapes.
Context {R : Type}.
Implicit Types (k : Js.str -> caps -> option R) (s t : Js.str) (c : caps).

Lemma m_Lit_app n str s c k : m n (Lit str) (Js.lit str ++ s) c k = k s c.
Proof.
  revert s c k. induction str as [|a str IH]; intros s c k; [reflexivity|].
  change (Lit (String a str)) with (Cat (chr a) (Lit str)).
  change (Js.lit (String a str) ++ s) with (N_of_ascii a :: (Js.lit str ++ s)).
  cbn [m chr]. rewrite N.eqb_refl. apply IH.
Qed.

Lemma m_Lit_head n a str x s c k :
  N_of_ascii a <> x -> m n (Lit (String a str)) (x :: s) c k = None.
Proof.
  intros H. change (Lit (String a str)) with (Cat (chr a) (Lit str)).
  cbn [m chr]. apply N.eqb_neq in H. now rewrite H.
Qed.

Lemma m_chr_not n a s c k :
  (forall t, s <> N_of_ascii a :: t) -> m n (chr a) s c k = None.
Proof.
  intros H. destruct s as [|x s]; [reflexivity|]. unfold chr; cbn [m].
  destruct (N.eqb_spec (N_of_ascii a) x) as [E|E]; [|reflexivity].
  exfalso. apply (H s). now rewrite E.
Qed.

(** A path with fewer than two slashes has not the shape [x/y/]. *)
Lemma pathShape_none n s c k :
  (List.length (filter (N.eqb 47) s) <= 1)%nat -> m n pathShape s c k = None.
Proof.
  intros Hs. unfold pathShape. cbn [m]. apply m_none. intros z y c1 ->.
  destruct y as [|x y]; [reflexivity|]. unfold chr at 1; cbn [m].
  destruct (N.eqb_spec (N_of_ascii "/") x) as [<-|]; [|reflexivity].
  apply m_none. intros z' w c2 ->. apply m_chr_not. intros t ->.
  rewrite !filter_app in Hs. cbn [filter] in Hs. rewrite !filter_app in Hs.
  cbn [filter] in Hs. change (N_of_ascii "/") with 47 in Hs.
  rewrite N.eqb_refl in Hs. rewrite !length_app in Hs. cbn [List.length] in Hs.
  rewrite length_app in Hs. cbn [List.length] in Hs. lia.
Qed.

Lemma embedShape_head n x s c k :
  x <> 118 -> x <> 101 -> m n embedShape (x :: s) c k = None.
Proof.
  intros H1 H2. unfold embedShape, chr. cbn [m].
  apply N.eqb_neq in H1, H2. rewrite N.eqb_sym in H1. rewrite N.eqb_sym in H2.
  change (N_of_ascii "v") with 118. change (N_of_ascii "e") with 101.
  now rewrite H1, H2.
Qed.

Lemma embedShape_embed n s c k res :
  k s c = Some res -> m n embedShape (Js.lit "embed/" ++ s) c k = Some res.
Proof. intros H. simpl. now rewrite H. Qed.

Lemma queryShape_stop n x q t c k res :
  queryMark q = true ->
  forallb dot (x ++ q :: Js.lit "v=" ++ t) = true ->
  forallb (fun a => negb (queryMark a)) (Js.lit "v=" ++ t) = true ->
  k t c = Some res ->
  m n queryShape (x ++ q :: Js.lit "v=" ++ t) c k = Some res.
Proof.
  intros Hq Hd Hn Hk. unfold queryShape. cbn [m].
  apply starC_stop; [exact Hd| |].
  - intros z w Hw. rewrite Hw in Hn. apply forallb_suffix in Hn.
    destruct w as [|a w]; [reflexivity|]. cbn [forallb] in Hn.
    apply andb_prop in Hn as [Ha _]. apply negb_true_iff in Ha. now rewrite Ha.
  - rewrite Hq. now rewrite m_Lit_app.
Qed.

End Shapes.

Lemma no_slash_id seg : forallb Ytmp3Api.idChar seg = true -> filter (N.eqb 47) seg = [].
Proof.
  induction seg as [|a seg IH]; [reflexivity|]. cbn [forallb filter].
  intros H. apply andb_prop in H as [Ha Hs]. apply idChar_notSlash in Ha.
  unfold notSlash in Ha. apply negb_true_iff in Ha. rewrite N.eqb_sym in Ha.
  rewrite Ha. now apply IH.
Qed.

Section Prefix.
Context {R : Type} (n : nat) (G : regex) (seg : Js.str) (cp : caps)
  (k : Js.str -> caps -> option R) (res : R).
Hypothesis Hseg : forallb Ytmp3Api.idChar seg = true.
Hypothesis HG : m n G seg cp k = Some res.

Lemma idPrefix_watch :
  m n (Cat idPrefix G) (Js.lit "youtube.com/watch?v=" ++ seg) cp k = Some res.
Proof.
  unfold idPrefix. cbn [m].
  change (Js.lit "youtube.com/watch?v=" ++ seg)
    with (Js.lit "youtube.com/" ++ Js.lit "watch?v=" ++ seg).
  rewrite m_Lit_app.
  rewrite pathShape_none.
  2:{ rewrite filter_app, (no_slash_id _ Hseg). simpl. lia. }
  change (Js.lit "watch?v=" ++ seg) with (119 :: Js.lit "atch?v=" ++ seg).
  rewrite embedShape_head by lia.
  change (119 :: Js.lit "atch?v=" ++ seg) with (Js.lit "watch" ++ 63 :: Js.lit "v=" ++ seg).
  rewrite queryShape_stop with (res := res); auto.
  - simpl. apply (forallb_impl _ _ _ idChar_dot Hseg).
  - simpl. apply (forallb_impl Ytmp3Api.idChar); [|exact Hseg].
    intros a Ha. now rewrite (idChar_notQuery a Ha).
Qed.

Lemma idPrefix_embed :
  m n (Cat idPrefix G) (Js.lit "youtube.com/embed/" ++ seg) cp k = Some res.
Proof.
  unfold idPrefix. cbn [m].
  change (Js.lit "youtube.com/embed/" ++ seg)
    with (Js.lit "youtube.com/" ++ Js.lit "embed/" ++ seg).
  rewrite m_Lit_app.
  rewrite pathShape_none.
  2:{ rewrite filter_app, (no_slash_id _ Hseg). simpl. lia. }
  now rewrite embedShape_embed with (res := res).
Qed.

Lemma idPrefix_short :
  m n (Cat idPrefix G) (Js.lit "youtu.be/" ++ seg) cp k = Some res.
Proof.
  unfold idPrefix. cbn [m].
  change (Js.lit "youtu.be/" ++ seg) with (Js.lit "youtu" ++ 46 :: Js.lit "be/" ++ seg).
  rewrite m_Lit.
  change (Js.startsWith (Js.lit "youtu" ++ 46 :: Js.lit "be/" ++ seg) (Js.lit "youtube.com/"))
    with false.
  change (Js.lit "youtu" ++ 46 :: Js.lit "be/" ++ seg) with (Js.lit "youtu.be/" ++ seg).
  rewrite m_Lit_app. exact HG.
Qed.

End Prefix.

Lemma execFrom_eq r n s :
  execFrom r n s =
  match matchAt r n s with
  | Some res => Some res
  | None => match s with [] => None | _ :: s' => execFrom r n s' end
  end.
Proof. destruct s; reflexivity. Qed.

(** The search moves over a prefix in which no position matches. *)
Lemma execFrom_skip r n pre s :
  (forall z x y, pre = z ++ x :: y -> matchAt r n (x :: y ++ s) = None) ->
  execFrom r n (pre ++ s) = execFrom r n s.
Proof.
  induction pre as [|x pre IH]; intros H; [reflexivity|].
  change ((x :: pre) ++ s) with (x :: pre ++ s). rewrite execFrom_eq.
  rewrite (H [] x pre eq_refl). apply IH.
  intros z x' y ->. apply (H (x :: z)). reflexivity.
Qed.

Lemma noY_split pre z x y : noY pre = true -> pre = z ++ x :: y -> x <> 121.
Proof.
  unfold noY. intros H ->. apply forallb_suffix in H. cbn [forallb] in H.
  apply andb_prop in H as [H _]. apply negb_true_iff, N.eqb_neq in H. exact H.
Qed.

Lemma split_id (seg : Js.str) :
  (11 <= List.length seg)%nat ->
  seg = firstn 11 seg ++ skipn 11 seg /\ List.length (firstn 11 seg) = 11%nat.
Proof.
  intros H. split; [symmetry; apply firstn_skipn|]. rewrite length_firstn. lia.
Qed.

Lemma forallb_firstn {A} (p : A -> bool) n (l : list A) :
  forallb p l = true -> forallb p (firstn n l) = true.
Proof.
  intros H. rewrite <- (firstn_skipn n l), forallb_app in H.
  now apply andb_prop in H.
Qed.

Lemma videoId_head n x t : x <> 121 -> matchAt videoIdRegex n (x :: t) = None.
Proof.
  intros H. unfold matchAt, videoIdRegex, idPrefix. cbn [m].
  rewrite !m_Lit_head; [reflexivity| |]; cbn; congruence.
Qed.

(** The extractor of src/unnamed/part_000 on the three shapes, after a prefix
    without the letter [y]. *)
Lemma extract_shape pre sh seg :
  noY pre = true -> forallb Ytmp3Api.idChar seg = true -> (11 <= List.length seg)%nat ->
  extractVideoId (pre ++ shapeText sh ++ seg) = Some (firstn 11 seg).
Proof.
  intros Hpre Hseg Hlen. unfold extractVideoId, exec.
  rewrite execFrom_skip.
  2:{ intros z x y E. apply videoId_head. exact (noY_split _ _ _ _ Hpre E). }
  rewrite execFrom_eq. unfold matchAt.
  destruct (split_id seg Hlen) as [Eseg Hx].
  set (x := firstn 11 seg) in *. set (rest := skipn 11 seg) in *.
  set (n := List.length (pre ++ shapeText sh ++ seg)).
  set (k0 := fun (s' : Js.str) (c : caps) => Some (consumed (shapeText sh ++ seg) s', c)).
  assert (HG : m n (Group 1 (rep 11 (Cls idLoose))) seg [] k0
               = Some (consumed (shapeText sh ++ seg) rest, [(1%nat, x)])).
  { rewrite Eseg at 1. rewrite <- Hx. rewrite m_group_rep; [reflexivity|].
    apply (forallb_impl Ytmp3Api.idChar); [exact idChar_idLoose|].
    now apply forallb_firstn. }
  unfold videoIdRegex.
  destruct sh; cbn [shapeText].
  - now rewrite (idPrefix_watch n _ seg [] k0 _ Hseg HG).
  - now rewrite (idPrefix_short n _ seg [] k0 _ HG).
  - now rewrite (idPrefix_embed n _ seg [] k0 _ Hseg HG).
Qed.
End ServerPattern.

(** ** The patterns of src/api/ytmp3.js and src/index.js *)

Section ApiPatterns.

Import Ytmp3Api.

(** A pattern anchored at the start matches at no later position. *)
Lemma execFrom_bol r n s : (List.length s < n)%nat -> execFrom (Cat Bol r) n s = None.
Proof.
  induction s as [|x s IH]; intros H; rewrite execFrom_eq; unfold matchAt; cbn [m].
  - destruct (Nat.eqb_spec (List.length (@nil N)) n) as [E|_]; [simpl in *; lia|reflexivity].
  - destruct (Nat.eqb_spec (List.length (x :: s)) n) as [E|_]; [lia|].
    apply IH. simpl in H. lia.
Qed.

Lemma exec_anchored r s :
  exec (Cat Bol r) s = m (List.length s) r s [] (fun s' c => Some (consumed s s', c)).
Proof.
  unfold exec. rewrite execFrom_eq. unfold matchAt. cbn [m]. rewrite Nat.eqb_refl.
  destruct (m _ r s [] _) as [res|]; [reflexivity|].
  destruct s as [|x s]; [reflexivity|]. apply execFrom_bol. simpl. lia.
Qed.

Section Host.
Context {R : Type}.
Implicit Types (k : Js.str -> caps -> option R) (s : Js.str) (c : caps).

Lemma hostShape_ok n sh s c k :
  sh <> Embed -> m n hostShape (shapeText sh ++ s) c k = k s c.
Proof.
  intros H. unfold hostShape. cbn [m].
  destruct sh; [| |congruence]; cbn [shapeText].
  - rewrite m_Lit_app. destruct (k s c); [reflexivity|].
    now rewrite m_Lit.
  - rewrite m_Lit. change (Js.startsWith _ _) with false. cbv iota.
    apply m_Lit_app.
Qed.

Lemma hostShape_embed n s c k : m n hostShape (shapeText Embed ++ s) c k = None.
Proof. unfold hostShape. cbn [m]. now rewrite !m_Lit. Qed.

Lemma hostShape_head n x s c k : x <> 121 -> m n hostShape (x :: s) c k = None.
Proof.
  intros H. unfold hostShape. cbn [m].
  rewrite !m_Lit_head; [reflexivity| |]; cbn; congruence.
Qed.

End Host.

(** What follows the optional scheme and host of the validator. *)
Lemma tail_ok {R} n sh x rest c (k : Js.str -> caps -> option R) :
  sh <> Embed -> List.length x = 11%nat -> forallb idChar x = true ->
  m n (Cat (Group 3 hostShape) (Group 4 (rep 11 (Cls idChar)))) (shapeText sh ++ x ++ rest) c k
  = k rest ((4%nat, x) :: (3%nat, shapeText sh) :: c).
Proof.
  intros Hsh Hx Hp. cbn [m]. rewrite hostShape_ok by exact Hsh.
  rewrite consumed_app. rewrite <- Hx.
  rewrite m_rep_cls by exact Hp. now rewrite consumed_app.
Qed.


Section Front.
Context {R : Type}.
Implicit Types (k : Js.str -> caps -> option R) (s t : Js.str) (c : caps).

Lemma m_Cat n r1 r2 s c k :
  m n (Cat r1 r2) s c k = m n r1 s c (fun s' c' => m n r2 s' c' k).
Proof. reflexivity. Qed.

Lemma m_opt n r s c k :
  m n (opt r) s c k = match m n r s c k with Some x => Some x | None => k s c end.
Proof. reflexivity. Qed.

Lemma scheme_http n t c k :
  m n schemeGroup (Js.lit "http://" ++ t) c k = k t ((1%nat, Js.lit "http://") :: c).
Proof.
  unfold schemeGroup. cbn [m opt].
  change (Js.lit "http://" ++ t) with (Js.lit "http" ++ Js.lit "://" ++ t).
  rewrite m_Lit_app. unfold chr at 1. cbn [m].
  change (Js.lit "://" ++ t) with (58 :: Js.lit "//" ++ t).
  change (N_of_ascii "s" =? 58) with false. cbv iota.
  change (58 :: Js.lit "//" ++ t) with (Js.lit "://" ++ t).
  rewrite m_Lit_app.
  change (Js.lit "http" ++ Js.lit "://" ++ t) with (Js.lit "http://" ++ t).
  now rewrite consumed_app.
Qed.

Lemma scheme_https n t c k :
  m n schemeGroup (Js.lit "https://" ++ t) c k = k t ((1%nat, Js.lit "https://") :: c).
Proof.
  unfold schemeGroup. cbn [m opt].
  change (Js.lit "https://" ++ t) with (Js.lit "http" ++ 115 :: Js.lit "://" ++ t).
  rewrite m_Lit_app. unfold chr at 1. cbn [m].
  change (N_of_ascii "s" =? 115) with true. cbv iota.
  rewrite m_Lit_app.
  change (Js.lit "http" ++ 115 :: Js.lit "://" ++ t) with (Js.lit "https://" ++ t).
  rewrite consumed_app.
  destruct (k t _); [reflexivity|]. now rewrite m_Lit.
Qed.

Lemma scheme_none n t c k : (forall t', t <> 104 :: t') -> m n schemeGroup t c k = None.
Proof.
  intros H. destruct t as [|a t']; [reflexivity|]. unfold schemeGroup. cbn [m].
  rewrite m_Lit_head; [reflexivity|]. cbn. intros <-. now apply (H t').
Qed.

Lemma host_www n t c k :
  m n hostGroup (Js.lit "www." ++ t) c k = k t ((2%nat, Js.lit "www.") :: c).
Proof. unfold hostGroup. cbn [m]. rewrite m_Lit_app. now rewrite consumed_app. Qed.

Lemma host_none n t c k : (forall t', t <> 119 :: t') -> m n hostGroup t c k = None.
Proof.
  intros H. destruct t as [|a t']; [reflexivity|]. unfold hostGroup. cbn [m].
  rewrite m_Lit_head; [reflexivity|]. cbn. intros <-. now apply (H t').
Qed.

(** The optional scheme and host of the validator, before a tail [T] that
    matches what follows them. *)
Lemma front_ok (T : regex) sc www s k n :
  (forall c, exists r, m n T s c k = Some r) ->
  (forall t, s <> 104 :: t) -> (forall t, s <> 119 :: t) ->
  exists r,
    m n (Cat (opt schemeGroup) (Cat (opt hostGroup) T))
      (schemeText sc ++ hostText www ++ s) [] k = Some r.
Proof.
  intros HT Hh Hw. rewrite m_Cat, m_opt.
  destruct sc; cbn [schemeText].
  - cbn [app]. rewrite scheme_none.
    2:{ destruct www; cbn; [congruence|exact Hh]. }
    rewrite m_Cat, m_opt. destruct www; cbn [hostText].
    + rewrite host_www. destruct (HT [(2%nat, Js.lit "www.")]) as [r ->]. now exists r.
    + cbn [app]. rewrite host_none by exact Hw. apply HT.
  - rewrite scheme_http. rewrite m_Cat, m_opt. destruct www; cbn [hostText].
    + rewrite host_www.
      destruct (HT [(2%nat, Js.lit "www."); (1%nat, Js.lit "http://")]) as [r ->].
      now exists r.
    + cbn [app]. rewrite host_none by exact Hw.
      destruct (HT [(1%nat, Js.lit "http://")]) as [r ->]. now exists r.
  - rewrite scheme_https. rewrite m_Cat, m_opt. destruct www; cbn [hostText].
    + rewrite host_www.
      destruct (HT [(2%nat, Js.lit "www."); (1%nat, Js.lit "https://")]) as [r ->].
      now exists r.
    + cbn [app]. rewrite host_none by exact Hw.
      destruct (HT [(1%nat, Js.lit "https://")]) as [r ->]. now exists r.
Qed.

(** The same front before a tail that fails where the address proper
    begins and wherever the text does not begin with [y]. *)
Lemma front_none (T : regex) sc www s k n :
  (forall c, m n T s c k = None) ->
  (forall x t c, x <> 121 -> m n T (x :: t) c k = None) ->
  (forall t, s <> 104 :: t) -> (forall t, s <> 119 :: t) ->
  m n (Cat (opt schemeGroup) (Cat (opt hostGroup) T))
    (schemeText sc ++ hostText www ++ s) [] k = None.
Proof.
  intros Hs Hx Hh Hw.
  assert (A : forall c, m n (Cat (opt hostGroup) T) (hostText www ++ s) c k = None).
  { intros c. rewrite m_Cat, m_opt. destruct www; cbn [hostText].
    - rewrite host_www, Hs. apply Hx. discriminate.
    - cbn [app]. rewrite host_none by exact Hw. apply Hs. }
  assert (B : forall x t c, x = 104 ->
            m n (Cat (opt hostGroup) T) (x :: t) c k = None).
  { intros x t c ->. rewrite m_Cat, m_opt, host_none by (intros t'; discriminate).
    apply Hx. discriminate. }
  rewrite m_Cat, m_opt. destruct sc; cbn [schemeText].
  - cbn [app]. rewrite scheme_none; [apply A|].
    destruct www; cbn; [congruence|exact Hh].
  - rewrite scheme_http, A. now apply B.
  - rewrite scheme_https, A. now apply B.
Qed.

End Front.

Lemma validRegex_eq :
  validRegex = Cat Bol (Cat (opt schemeGroup) (Cat (opt hostGroup)
                 (Cat (Group 3 hostShape) (Group 4 (rep 11 (Cls idChar)))))).
Proof. reflexivity. Qed.

Lemma shape_head sh s x t : shapeText sh ++ s = x :: t -> x = 121.
Proof. destruct sh; cbn; congruence. Qed.

(** The validator accepts the two shapes it lists. *)
Lemma valid_shape sc www sh seg :
  sh <> Embed -> forallb idChar seg = true -> (11 <= List.length seg)%nat ->
  isValidYouTubeUrl (canonical sc www sh seg) = true.
Proof.
  intros Hsh Hseg Hlen. unfold isValidYouTubeUrl, test.
  rewrite validRegex_eq, exec_anchored. unfold canonical.
  destruct (split_id seg Hlen) as [Eseg Hx].
  match goal with |- context [m ?n ?r ?s [] ?k] =>
    destruct (front_ok (Cat (Group 3 hostShape) (Group 4 (rep 11 (Cls idChar))))
                sc www (shapeText sh ++ seg) k n) as [res Hres] end.
  - intros c.
    replace (shapeText sh ++ seg) with (shapeText sh ++ firstn 11 seg ++ skipn 11 seg)
      by (now rewrite firstn_skipn).
    rewrite tail_ok; eauto using forallb_firstn.
  - intros t E. apply shape_head in E. discriminate.
  - intros t E. apply shape_head in E. discriminate.
  - now rewrite Hres.
Qed.

(** The validator rejects the third shape. *)
Lemma invalid_embed sc www seg : isValidYouTubeUrl (canonical sc www Embed seg) = false.
Proof.
  unfold isValidYouTubeUrl, test. rewrite validRegex_eq, exec_anchored. unfold canonical.
  rewrite front_none; [reflexivity| | |discriminate|discriminate].
  - intros c. cbn [m]. apply hostShape_embed.
  - intros x t c Hx. cbn [m]. now apply hostShape_head.
Qed.

Lemma startsWith_app (s t : Js.str) :
  Js.startsWith s t = true -> exists s', s = t ++ s'.
Proof.
  revert s. induction t as [|a t IH]; intros s H.
  - now exists s.
  - destruct s as [|b s]; [discriminate|]. cbn [Js.startsWith] in H.
    apply andb_prop in H as [Hab Hs]. apply N.eqb_eq in Hab. subst b.
    destruct (IH s Hs) as [s' ->]. now exists s'.
Qed.

(** A text made of identifier characters holds no address. *)
Lemma hostShape_id {R} n s c (k : Js.str -> caps -> option R) :
  forallb idChar s = true -> m n hostShape s c k = None.
Proof.
  intros Hs. unfold hostShape. cbn [m]. rewrite !m_Lit.
  destruct (Js.startsWith s (Js.lit "youtube.com/watch?v=")) eqn:E1.
  { apply startsWith_app in E1 as [s' ->]. rewrite forallb_app in Hs.
    apply andb_prop in Hs as [Hs _]. discriminate Hs. }
  destruct (Js.startsWith s (Js.lit "youtu.be/")) eqn:E2; [|reflexivity].
  apply startsWith_app in E2 as [s' ->]. rewrite forallb_app in Hs.
  apply andb_prop in Hs as [Hs _]. discriminate Hs.
Qed.

Lemma execFrom_id n s : forallb idChar s = true -> execFrom idRegex n s = None.
Proof.
  induction s as [|x s IH]; intros Hs; rewrite execFrom_eq; unfold matchAt, idRegex;
    cbn [m]; rewrite hostShape_id by exact Hs; [reflexivity|].
  apply IH. cbn [forallb] in Hs. now apply andb_prop in Hs.
Qed.

Lemma idRegex_head n x t : x <> 121 -> matchAt idRegex n (x :: t) = None.
Proof. intros H. unfold matchAt, idRegex. cbn [m]. now apply hostShape_head. Qed.

(** The extractor of src/api/ytmp3.js on the two shapes it lists. *)
Lemma extract_api pre sh x rest :
  sh <> Embed -> noY pre = true -> List.length x = 11%nat -> forallb idChar x = true ->
  Ytmp3Api.extractVideoId (pre ++ shapeText sh ++ x ++ rest) = Some x.
Proof.
  intros Hsh Hpre Hx Hp. unfold Ytmp3Api.extractVideoId, exec.
  rewrite execFrom_skip.
  2:{ intros z a y E. apply idRegex_head. exact (noY_split _ _ _ _ Hpre E). }
  rewrite execFrom_eq. unfold matchAt, idRegex. cbn [m].
  rewrite hostShape_ok by exact Hsh. rewrite <- Hx.
  rewrite m_rep_cls by exact Hp. now rewrite consumed_app.
Qed.

Lemma extract_api_embed pre seg :
  noY pre = true -> forallb idChar seg = true ->
  Ytmp3Api.extractVideoId (pre ++ shapeText Embed ++ seg) = None.
Proof.
  intros Hpre Hseg. unfold Ytmp3Api.extractVideoId, exec.
  rewrite execFrom_skip.
  2:{ intros z a y E. apply idRegex_head. exact (noY_split _ _ _ _ Hpre E). }
  rewrite execFrom_eq. unfold matchAt at 1, idRegex at 1. cbn [m].
  rewrite hostShape_embed.
  change (shapeText Embed ++ seg) with (121 :: Js.lit "outube.com/embed/" ++ seg).
  cbv iota. rewrite execFrom_skip.
  2:{ intros z a y E. apply idRegex_head.
      apply (noY_split (Js.lit "outube.com/embed/") z a y); [reflexivity|exact E]. }
  rewrite execFrom_id by exact Hseg. reflexivity.
Qed.

End ApiPatterns.

Lemma front_noY sc www : noY (schemeText sc ++ hostText www) = true.
Proof. destruct sc, www; reflexivity. Qed.

Lemma canonical_split sc www sh id :
  canonical sc www sh id = (schemeText sc ++ hostText www) ++ shapeText sh ++ id.
Proof. unfold canonical. now rewrite app_assoc. Qed.

Lemma firstn_exact (x : Js.str) : List.length x = 11%nat -> firstn 11 x = x.
Proof. intros H. rewrite <- H. apply firstn_all. Qed.

(* ------------------------------------------------------------------ *)
(** ** Classification of addresses *)

(** C2, as the code has it: for an identifier [ID] of 11 characters of
    [[A-Za-z0-9_-]], behind an optional scheme and an optional [www.],
    [extractVideoId] of src/unnamed/part_000 returns [ID] for the three
    shapes [watch?v=ID], [youtu.be/ID] and [embed/ID]; the validators of
    src/api/ytmp3.js and src/index.js accept [watch?v=ID] and [youtu.be/ID],
    where [extractVideoId] of src/api/ytmp3.js returns [ID] too, and they
    reject [embed/ID]. *)
Theorem canonical_shapes_classified (sc : scheme) (www : bool) (ID : Js.str) :
  List.length ID = 11%nat ->
  forallb Ytmp3Api.idChar ID = true ->
  (forall sh, Mp3Server.extractVideoId (canonical sc www sh ID) = Some ID)
  /\ (forall sh, sh <> Embed ->
        Ytmp3Api.isValidYouTubeUrl (canonical sc www sh ID) = true
        /\ Ytmp3Api.extractVideoId (canonical sc www sh ID) = Some ID
        /\ test Mp3Basic.youtubeRegex (canonical sc www sh ID) = true)
  /\ Ytmp3Api.isValidYouTubeUrl (canonical sc www Embed ID) = false
  /\ Ytmp3Api.extractVideoId (canonical sc www Embed ID) = None
  /\ test Mp3Basic.youtubeRegex (canonical sc www Embed ID) = false.
Proof.
  intros Hlen Hid.
  assert (Hge : (11 <= List.length ID)%nat) by lia.
  repeat split.
  - intros sh. rewrite canonical_split, extract_shape; auto using front_noY.
    now rewrite firstn_exact.
  - now apply valid_shape.
  - rewrite canonical_split.
    replace (shapeText sh ++ ID) with (shapeText sh ++ ID ++ []) by (now rewrite app_nil_r).
    apply extract_api; auto using front_noY.
  - change Mp3Basic.youtubeRegex with Ytmp3Api.validRegex. now apply valid_shape.
  - apply invalid_embed.
  - rewrite canonical_split. apply extract_api_embed; auto using front_noY.
  - change Mp3Basic.youtubeRegex with Ytmp3Api.validRegex. apply invalid_embed.
Qed.

Lemma canonical_shapes_classified_witness :
  List.length (Js.lit "dQw4w9WgXcQ") = 11%nat
  /\ forallb Ytmp3Api.idChar (Js.lit "dQw4w9WgXcQ") = true
  /\ Mp3Server.extractVideoId (Js.lit "https://www.youtube.com/embed/dQw4w9WgXcQ")
     = Some (Js.lit "dQw4w9WgXcQ").
Proof.
  split; [reflexivity|]. split; [reflexivity|].
  exact (proj1 (canonical_shapes_classified Https true (Js.lit "dQw4w9WgXcQ")
                  eq_refl eq_refl) Embed).
Defined.

(** C2 as stated fails: the validator of src/api/ytmp3.js and the pattern
    of src/index.js reject the [embed/ID] shape of a valid identifier, and
    [extractVideoId] of src/api/ytmp3.js finds no identifier in it. *)
Lemma embed_shape_rejected :
  List.length (Js.lit "dQw4w9WgXcQ") = 11%nat
  /\ forallb Ytmp3Api.idChar (Js.lit "dQw4w9WgXcQ") = true
  /\ Ytmp3Api.isValidYouTubeUrl (Js.lit "https://www.youtube.com/embed/dQw4w9WgXcQ") = false
  /\ Ytmp3Api.extractVideoId (Js.lit "https://www.youtube.com/embed/dQw4w9WgXcQ") = None
  /\ test Mp3Basic.youtubeRegex (Js.lit "https://www.youtube.com/embed/dQw4w9WgXcQ") = false.
Proof. repeat split; vm_compute; reflexivity. Qed.

(** ** Addresses with something after the identifier *)

Section Tails.

Import Mp3Server.

(** A repetition over a run of its class stops at the last position where
    what follows it succeeds. *)
Lemma starC_last {R} p x a y c (k : Js.str -> caps -> option R) res :
  forallb p x = true ->
  (forall z w, y = z ++ w -> k w c = None) ->
  k (a :: y) c = Some res ->
  starC p (x ++ a :: y) c k = Some res.
Proof.
  intros Hp Hy Hk. induction x as [|b x IH]; simpl in *.
  - destruct (p a); [rewrite starC_none by exact Hy|]; exact Hk.
  - apply andb_prop in Hp as [-> Hp]. now rewrite IH.
Qed.

(** A text that does not include [t] has it at none of its positions. *)
Lemma includes_none (t : Js.str) z : forall s w,
  Js.includes s t = false -> s = z ++ w -> Js.startsWith w t = false.
Proof.
  induction z as [|a z IH]; intros s w H E; subst s.
  - destruct w; cbn [app Js.includes] in H; now apply orb_false_elim in H.
  - cbn [app Js.includes] in H. apply orb_false_elim in H as [_ H].
    now apply (IH (z ++ w)).
Qed.

(** A position in a text that ends with [rest]: in [rest], or at a code unit
    of what stands before it. *)
Lemma position_in (y rest z w : Js.str) :
  y ++ rest = z ++ w ->
  (exists z', rest = z' ++ w) \/ (exists a w', w = a :: w' /\ In a y).
Proof.
  intros E. apply app_eq_app in E as [l [[Ey Ew] | [Ez Er]]].
  - destruct l as [|a l].
    + left. exists []. now rewrite Ew.
    + right. exists a, (l ++ rest). split; [exact Ew|].
      rewrite Ey. apply in_or_app. right. now left.
  - left. now exists l.
Qed.

(** The shape [.*[?&]v=] before an identifier segment followed by a tail
    without a further [?v=] or [&v=]. *)
Lemma queryShape_tail {R} n x seg rest c (k : Js.str -> caps -> option R) res :
  forallb dot x = true ->
  forallb Ytmp3Api.idChar seg = true ->
  Js.includes rest (Js.lit "?v=") = false ->
  Js.includes rest (Js.lit "&v=") = false ->
  k (seg ++ rest) c = Some res ->
  m n queryShape (x ++ 63 :: Js.lit "v=" ++ seg ++ rest) c k = Some res.
Proof.
  intros Hx Hseg H1 H2 Hk. unfold queryShape. cbn [m].
  apply starC_last; [exact Hx| |].
  - intros z w E.
    destruct w as [|a w']; [reflexivity|].
    destruct (queryMark a) eqn:Ea; [|reflexivity].
    rewrite m_Lit.
    replace (Js.lit "v=" ++ seg ++ rest) with ((Js.lit "v=" ++ seg) ++ rest) in E
      by (now rewrite <- app_assoc).
    apply position_in in E as [[z' E] | [b [w1 [E Hin]]]].
    + assert (Hs : Js.startsWith w' (Js.lit "v=") = false).
      { unfold queryMark in Ea. apply orb_prop in Ea as [Ea|Ea]; apply N.eqb_eq in Ea; subst a.
        - pose proof (includes_none _ _ _ _ H1 E) as S. exact S.
        - pose proof (includes_none _ _ _ _ H2 E) as S. exact S. }
      now rewrite Hs.
    + injection E as <- _. exfalso.
      apply in_app_or in Hin as [Hin|Hin].
      * cbn in Hin. destruct Hin as [<-|[<-|[]]]; discriminate Ea.
      * rewrite forallb_forall in Hseg. apply Hseg, idChar_notQuery in Hin. congruence.
  - change (queryMark 63) with true. cbv iota. now rewrite m_Lit_app.
Qed.

Lemma idPrefix_watch_tail {R} n G seg rest cp (k : Js.str -> caps -> option R) res :
  forallb Ytmp3Api.idChar seg = true ->
  (List.length (filter (N.eqb 47) rest) <= 1)%nat ->
  Js.includes rest (Js.lit "?v=") = false ->
  Js.includes rest (Js.lit "&v=") = false ->
  m n G (seg ++ rest) cp k = Some res ->
  m n (Cat idPrefix G) (Js.lit "youtube.com/watch?v=" ++ seg ++ rest) cp k = Some res.
Proof.
  intros Hseg Hs H1 H2 HG. unfold idPrefix. cbn [m].
  change (Js.lit "youtube.com/watch?v=" ++ seg ++ rest)
    with (Js.lit "youtube.com/" ++ Js.lit "watch?v=" ++ seg ++ rest).
  rewrite m_Lit_app.
  rewrite pathShape_none.
  2:{ rewrite !filter_app, (no_slash_id _ Hseg). simpl. lia. }
  change (Js.lit "watch?v=" ++ seg ++ rest) with (119 :: Js.lit "atch?v=" ++ seg ++ rest).
  rewrite embedShape_head by lia.
  change (119 :: Js.lit "atch?v=" ++ seg ++ rest)
    with (Js.lit "watch" ++ 63 :: Js.lit "v=" ++ seg ++ rest).
  now rewrite queryShape_tail with (res := res).
Qed.

(** The extractor of src/unnamed/part_000 on an identifier segment of 11
    characters or more with a tail: after [youtu.be/] whatever the tail,
    after [watch?v=] for a tail with at most one slash and no further
    [?v=] or [&v=]. *)
Lemma extract_shape_tail pre sh seg rest :
  noY pre = true -> forallb Ytmp3Api.idChar seg = true -> (11 <= List.length seg)%nat ->
  sh = Short
  \/ (sh = Watch
      /\ (List.length (filter (N.eqb 47) rest) <= 1)%nat
      /\ Js.includes rest (Js.lit "?v=") = false
      /\ Js.includes rest (Js.lit "&v=") = false) ->
  extractVideoId (pre ++ shapeText sh ++ seg ++ rest) = Some (firstn 11 seg).
Proof.
  intros Hpre Hseg Hlen Hsh. unfold extractVideoId, exec.
  rewrite execFrom_skip.
  2:{ intros z x y E. apply videoId_head. exact (noY_split _ _ _ _ Hpre E). }
  rewrite execFrom_eq. unfold matchAt.
  destruct (split_id seg Hlen) as [Eseg Hx].
  set (x := firstn 11 seg) in *. set (more := skipn 11 seg) in *.
  set (n := List.length (pre ++ shapeText sh ++ seg ++ rest)).
  set (k0 := fun (s' : Js.str) (c : caps) =>
               Some (consumed (shapeText sh ++ seg ++ rest) s', c)).
  assert (HG : m n (Group 1 (rep 11 (Cls idLoose))) (seg ++ rest) [] k0
               = Some (consumed (shapeText sh ++ seg ++ rest) (more ++ rest), [(1%nat, x)])).
  { rewrite Eseg at 1. rewrite <- app_assoc, <- Hx. rewrite m_group_rep; [reflexivity|].
    apply (forallb_impl Ytmp3Api.idChar); [exact idChar_idLoose|].
    now apply forallb_firstn. }
  unfold videoIdRegex.
  destruct Hsh as [-> | [-> [Hs [H1 H2]]]]; cbn [shapeText].
  - now rewrite (idPrefix_short n _ (seg ++ rest) [] k0 _ HG).
  - now rewrite (idPrefix_watch_tail n _ seg rest [] k0 _ Hseg Hs H1 H2 HG).
Qed.

End Tails.

(** The validator accepts an address of one of its two shapes, whatever
    follows the identifier. *)
Lemma valid_with_rest sc www sh x rest :
  sh <> Embed -> List.length x = 11%nat -> forallb Ytmp3Api.idChar x = true ->
  Ytmp3Api.isValidYouTubeUrl (canonical sc www sh (x ++ rest)) = true.
Proof.
  intros Hsh Hx Hp. unfold Ytmp3Api.isValidYouTubeUrl, test.
  rewrite validRegex_eq, exec_anchored. unfold canonical.
  match goal with |- context [m ?n ?r ?s [] ?k] =>
    destruct (front_ok (Cat (Group 3 Ytmp3Api.hostShape)
                          (Group 4 (rep 11 (Cls Ytmp3Api.idChar))))
                sc www (shapeText sh ++ x ++ rest) k n) as [res Hres] end.
  - intros c. rewrite tail_ok; eauto.
  - intros t E. apply shape_head in E. discriminate.
  - intros t E. apply shape_head in E. discriminate.
  - now rewrite Hres.
Qed.

(** C10, as the code has it: when [watch?v=] or [youtu.be/] is followed by
    more than 11 characters of [[A-Za-z0-9_-]] and then by anything, and
    nothing before it in the address can start a match (it holds no letter
    [y]), [extractVideoId] of src/api/ytmp3.js returns the first 11 of
    them; the validators of src/api/ytmp3.js and src/index.js accept the
    address when what stands before is the optional scheme and the
    optional [www.].  [extractVideoId] of src/unnamed/part_000 returns the
    first 11 characters too after [youtu.be/], and after [watch?v=] when
    what follows the segment holds at most one slash and no further [?v=]
    or [&v=]. *)
Theorem overlong_identifier_truncated (pre : Js.str) (sh : shape) (seg rest : Js.str) :
  sh <> Embed ->
  noY pre = true ->
  forallb Ytmp3Api.idChar seg = true ->
  (11 < List.length seg)%nat ->
  let url := pre ++ shapeText sh ++ seg ++ rest in
  Ytmp3Api.extractVideoId url = Some (firstn 11 seg)
  /\ List.length (firstn 11 seg) = 11%nat
  /\ (forall sc www, pre = schemeText sc ++ hostText www ->
        Ytmp3Api.isValidYouTubeUrl url = true
        /\ test Mp3Basic.youtubeRegex url = true)
  /\ (sh = Short
      \/ ((List.length (filter (N.eqb 47) rest) <= 1)%nat
          /\ Js.includes rest (Js.lit "?v=") = false
          /\ Js.includes rest (Js.lit "&v=") = false) ->
      Mp3Server.extractVideoId url = Some (firstn 11 seg)).
Proof.
  intros Hsh Hpre Hid Hlen url.
  assert (Hge : (11 <= List.length seg)%nat) by lia.
  destruct (split_id seg Hge) as [Eseg Hx].
  assert (Hf : forallb Ytmp3Api.idChar (firstn 11 seg) = true) by (now apply forallb_firstn).
  assert (Eu : url = pre ++ shapeText sh ++ firstn 11 seg ++ skipn 11 seg ++ rest).
  { unfold url. now rewrite (app_assoc (firstn 11 seg)), <- Eseg. }
  split; [|split; [exact Hx|split]].
  - rewrite Eu. now apply extract_api.
  - intros sc www ->.
    assert (Hvalid : Ytmp3Api.isValidYouTubeUrl url = true).
    { rewrite Eu, <- app_assoc. apply (valid_with_rest sc www sh); assumption. }
    split; exact Hvalid.
  - intros Ht. unfold url. apply extract_shape_tail; auto.
    destruct Ht as [-> | Ht]; [now left|].
    destruct sh; [right; now split|now left|congruence].
Qed.

Lemma overlong_identifier_truncated_witness :
  Watch <> Embed
  /\ noY (Js.lit "https://www.") = true
  /\ forallb Ytmp3Api.idChar (Js.lit "dQw4w9WgXcQ_extra") = true
  /\ (11 < List.length (Js.lit "dQw4w9WgXcQ_extra"))%nat
  /\ Ytmp3Api.extractVideoId
       (Js.lit "https://www.youtube.com/watch?v=dQw4w9WgXcQ_extra&t=42s")
     = Some (Js.lit "dQw4w9WgXcQ")
  /\ Ytmp3Api.isValidYouTubeUrl
       (Js.lit "https://www.youtube.com/watch?v=dQw4w9WgXcQ_extra&t=42s") = true
  /\ Mp3Server.extractVideoId
       (Js.lit "https://www.youtube.com/watch?v=dQw4w9WgXcQ_extra&t=42s")
     = Some (Js.lit "dQw4w9WgXcQ").
Proof.
  assert (H1 : Watch <> Embed) by discriminate.
  assert (H0 : noY (Js.lit "https://www.") = true) by reflexivity.
  assert (H2 : forallb Ytmp3Api.idChar (Js.lit "dQw4w9WgXcQ_extra") = true) by reflexivity.
  assert (H3 : (11 < List.length (Js.lit "dQw4w9WgXcQ_extra"))%nat) by (simpl; lia).
  assert (H4 : (List.length (filter (N.eqb 47) (Js.lit "&t=42s")) <= 1)%nat
               /\ Js.includes (Js.lit "&t=42s") (Js.lit "?v=") = false
               /\ Js.includes (Js.lit "&t=42s") (Js.lit "&v=") = false).
  { split; [simpl; lia|]. split; reflexivity. }
  pose proof (overlong_identifier_truncated (Js.lit "https://www.") Watch
                (Js.lit "dQw4w9WgXcQ_extra") (Js.lit "&t=42s") H1 H0 H2 H3) as [A [_ [V B]]].
  split; [exact H1|]. split; [exact H0|]. split; [exact H2|]. split; [exact H3|].
  split; [exact A|]. split; [exact (proj1 (V Https true eq_refl))|].
  exact (B (or_intror H4)).
Defined.

(** C10 as stated fails for [extractVideoId] of src/unnamed/part_000: its
    pattern looks for the last [?v=] or [&v=] of the address, so when the
    over-long segment after [watch?v=] is followed by a second [v]
    parameter, the identifier comes from that one and not from the first
    11 characters of the segment. *)
Lemma later_parameter_wins :
  let seg := Js.lit "AAAAAAAAAAAAAAA" in
  let url := canonical Https true Watch (seg ++ Js.lit "&v=BBBBBBBBBBB") in
  url = Js.lit "https://www.youtube.com/watch?v=AAAAAAAAAAAAAAA&v=BBBBBBBBBBB"
  /\ forallb Ytmp3Api.idChar seg = true
  /\ (11 < List.length seg)%nat
  /\ Mp3Server.extractVideoId url = Some (Js.lit "BBBBBBBBBBB")
  /\ Mp3Server.extractVideoId url <> Some (firstn 11 seg)
  /\ Ytmp3Api.extractVideoId url = Some (firstn 11 seg).
Proof.
  cbv zeta. split; [reflexivity|]. split; [reflexivity|]. split; [simpl; lia|].
  split; [vm_compute; reflexivity|]. split; [vm_compute; discriminate|].
  vm_compute. reflexivity.
Qed.

(* ------------------------------------------------------------------ *)
(** ** File names *)

(** Removing every match of a class is filtering by its complement. *)
Lemma removeAll_class p n : forall fuel s,
  (List.length s < fuel)%nat ->
  removeAllFuel fuel (Cls p) n s = filter (fun c => negb (p c)) s.
Proof.
  induction fuel as [|fuel IH]; intros s H; [lia|].
  destruct s as [|x s]; [reflexivity|].
  cbn [removeAllFuel m filter]. cbn [List.length] in H.
  destruct (p x); cbn [negb].
  - replace (Nat.ltb (List.length s) (List.length (x :: s))) with true
      by (symmetry; apply Nat.ltb_lt; simpl; lia).
    apply IH. lia.
  - f_equal. apply IH. lia.
Qed.

Lemma filter_keeps {A} (p : A -> bool) (l : list A) :
  Forall (fun a => p a = true) (filter p l).
Proof. apply Forall_forall. intros a Ha. now apply filter_In in Ha. Qed.

(** C7: sanitizing a title removes the characters that are neither word
    characters nor white space, and only those: what is left is the title
    filtered by that test, so the remaining characters, spaces included, keep
    their order; the title [Test: Movie? #1] becomes [Test Movie 1]. *)
Theorem sanitize_strips_punctuation :
  (forall title,
     Ytmp3Api.sanitize title = filter (fun c => word c || space c) title
     /\ Forall (fun c => word c || space c = true) (Ytmp3Api.sanitize title))
  /\ Ytmp3Api.sanitize (Js.lit "Test: Movie? #1") = Js.lit "Test Movie 1".
Proof.
  assert (E : forall title,
             Ytmp3Api.sanitize title = filter (fun c => word c || space c) title).
  { intros title. unfold Ytmp3Api.sanitize, removeAll.
    rewrite removeAll_class by lia. apply filter_ext. intros c.
    unfold Ytmp3Api.notWordNorSpace. apply negb_involutive. }
  split.
  - intros title. split; [apply E|]. rewrite E. apply filter_keeps.
  - rewrite E. reflexivity.
Qed.

(* ------------------------------------------------------------------ *)
(** ** The resolver *)

Section Resolver.

Import Mp3Server Outcome.

Variable net : upstream.
Variable url : Js.str.

Lemma alternative_silent : written (alternativeService net url) = [].
Proof.
  unfold alternativeService. destruct (net _) as [data|message]; [|reflexivity].
  destruct (truthy data && truthy (prop "url" data)); reflexivity.
Qed.

(** What the alternative service returns when it fails. *)
Lemma alternative_failure :
  succeeded (value_of (alternativeService net url)) = false ->
  value_of (alternativeService net url)
    = obj [("status", VBool false); ("msg", str "Alternative service failed")]
  \/ value_of (alternativeService net url)
    = obj [("status", VBool false); ("msg", str "Alternative service error")].
Proof.
  unfold alternativeService. destruct (net _) as [data|message]; [|now right].
  destruct (truthy data && truthy (prop "url" data)); [discriminate|now left].
Qed.

(** The resolver when the primary service fails. *)
Lemma getMP3Info_fallback :
  succeeded (value_of (ytmp3free net url)) = false ->
  getMP3Info net url
  = (value_of (alternativeService net url),
     written (ytmp3free net url)
     ++ [Log [str "Primary service failed, trying alternative..."]]).
Proof.
  unfold succeeded, getMP3Info, bind, value_of, written, log.
  destruct (ytmp3free net url) as [r1 l1]. cbn [fst snd]. intros ->. cbn [negb].
  pose proof alternative_silent as Hs. unfold written in Hs.
  destruct (alternativeService net url) as [r2 l2]. cbn [fst snd] in *. now subst l2.
Qed.

(** The resolver when the primary service succeeds: the alternative one is
    not asked. *)
Lemma getMP3Info_primary :
  succeeded (value_of (ytmp3free net url)) = true ->
  getMP3Info net url = (value_of (ytmp3free net url), written (ytmp3free net url)).
Proof.
  unfold succeeded, getMP3Info, bind, value_of, written, ret.
  destruct (ytmp3free net url) as [r1 l1]. cbn [fst snd]. intros ->. cbn [negb].
  now rewrite app_nil_r.
Qed.

(** The lines of the primary service are not the fallback line. *)
Lemma ytmp3free_lines :
  filter isFallbackLine (written (ytmp3free net url)) = [].
Proof.
  unfold ytmp3free. destruct (extractVideoId url) as [videoId|]; [|reflexivity].
  destruct (net _) as [data|message]; [|reflexivity].
  unfold bind, log, ret, written.
  destruct (negb (truthy data) || negb (truthy (prop "title" data))
            || negb (truthy (prop "link" data))); reflexivity.
Qed.

Lemma extract_nonempty videoId : extractVideoId url = Some videoId -> url <> [].
Proof. intros H ->. discriminate H. Qed.

End Resolver.

Import Outcome.


(** C1, as the code has it: when the primary and the alternative service
    both fail, [getMP3Info] returns the result of the alternative service
    alone, which is never a success and carries one reason, that of the
    alternative service; [/api/mp3] answers 500 with that result, the
    identifier and a note. *)
Theorem exhausted_returns_last_failure (net : upstream) (url : Js.str) :
  succeeded (value_of (Mp3Server.ytmp3free net url)) = false ->
  succeeded (value_of (Mp3Server.alternativeService net url)) = false ->
  let out := value_of (Mp3Server.getMP3Info net url) in
  out = value_of (Mp3Server.alternativeService net url)
  /\ succeeded out = false
  /\ (failureReasons out = [str "Alternative service failed"]
      \/ failureReasons out = [str "Alternative service error"])
  /\ forall videoId, Mp3Server.extractVideoId url = Some videoId ->
       value_of (Mp3Server.apiMp3 net (Some url))
       = {| Mp3Server.code := 500;
            Mp3Server.body :=
              spread out
                [("videoId", VStr videoId);
                 ("note", str "The service might be temporarily down. Please try again later.")] |}.
Proof.
  intros H1 H2 out.
  assert (E : out = value_of (Mp3Server.alternativeService net url)).
  { unfold out. now rewrite getMP3Info_fallback. }
  split; [exact E|]. split; [now rewrite E|]. split.
  - rewrite E. destruct (alternative_failure net url H2) as [-> | ->];
      [left|right]; reflexivity.
  - intros videoId Hid. pose proof (extract_nonempty url videoId Hid) as Hne.
    unfold Mp3Server.apiMp3. destruct url as [|c u] eqn:Eu; [congruence|].
    rewrite Hid. rewrite getMP3Info_fallback by exact H1.
    unfold bind, log, value_of. cbn [fst snd].
    fold (value_of (Mp3Server.alternativeService net (c :: u))).
    unfold succeeded in H2. rewrite H2. cbn [ret fst]. now rewrite E.
Qed.

Lemma exhausted_returns_last_failure_witness :
  succeeded (value_of (Mp3Server.ytmp3free Scenario.allDown Scenario.testUrl)) = false
  /\ succeeded (value_of (Mp3Server.alternativeService Scenario.allDown Scenario.testUrl)) = false
  /\ value_of (Mp3Server.getMP3Info Scenario.allDown Scenario.testUrl)
     = value_of (Mp3Server.alternativeService Scenario.allDown Scenario.testUrl).
Proof.
  split; [reflexivity|]. split; [reflexivity|].
  exact (proj1 (exhausted_returns_last_failure Scenario.allDown Scenario.testUrl
                  eq_refl eq_refl)).
Defined.

(** C1 as stated fails: with a primary service that answers without data
    and an unreachable alternative one, both strategies fail, each for its
    own reason, and the result of [getMP3Info], like the body of the 500
    answer of [/api/mp3], carries the reason of the alternative service
    only. *)
Lemma exhausted_reasons_not_aggregated :
  let first := value_of (Mp3Server.ytmp3free Scenario.allDown Scenario.testUrl) in
  let second := value_of (Mp3Server.alternativeService Scenario.allDown Scenario.testUrl) in
  let out := value_of (Mp3Server.getMP3Info Scenario.allDown Scenario.testUrl) in
  let answer := value_of (Mp3Server.apiMp3 Scenario.allDown (Some Scenario.testUrl)) in
  succeeded first = false
  /\ succeeded second = false
  /\ failureReasons first = [str "No data received from service"]
  /\ failureReasons second = [str "Alternative service error"]
  /\ failureReasons out = [str "Alternative service error"]
  /\ failureReasons out <> failureReasons first ++ failureReasons second
  /\ Mp3Server.code answer = 500%nat
  /\ failureReasons (Mp3Server.body answer) = [str "Alternative service error"].
Proof. repeat split; try (vm_compute; reflexivity). vm_compute. discriminate. Qed.

(** The alternative service asks one address. *)
Lemma alternative_local net net' url :
  net' (Endpoints.alternativeAddress (Mp3Server.extractVideoId url))
  = net (Endpoints.alternativeAddress (Mp3Server.extractVideoId url)) ->
  Mp3Server.alternativeService net' url = Mp3Server.alternativeService net url.
Proof.
  unfold Endpoints.alternativeAddress, Mp3Server.alternativeService. cbv zeta.
  intros H. now rewrite H.
Qed.

(** A failure of the primary service always states a reason. *)
Lemma primary_failure_reason (net : upstream) (url : Js.str) :
  succeeded (value_of (Mp3Server.ytmp3free net url)) = false ->
  failureReasons (value_of (Mp3Server.ytmp3free net url)) <> [].
Proof.
  unfold Mp3Server.ytmp3free.
  destruct (Mp3Server.extractVideoId url) as [videoId|]; [|discriminate].
  destruct (net _) as [data|message]; [|discriminate].
  unfold bind, log, value_of. cbn [fst snd].
  destruct (negb (truthy data) || negb (truthy (prop "title" data))
            || negb (truthy (prop "link" data))); discriminate.
Qed.

(** C3, as the code has it: when the primary service fails and the
    alternative one succeeds, [getMP3Info] returns the result of the
    alternative service as it is, a success whose source is vevioz.com, and
    [/api/mp3] answers 200 with it.  No failure reason is recorded: the
    primary service stated one, the result carries none, and the result is
    the same whatever the primary service failed with.  What is left of the
    first failure is on the console: what the primary service wrote itself,
    then one line, always the same, which says that it failed. *)
Theorem fallback_returns_second (net : upstream) (url : Js.str) :
  succeeded (value_of (Mp3Server.ytmp3free net url)) = false ->
  succeeded (value_of (Mp3Server.alternativeService net url)) = true ->
  let out := Mp3Server.getMP3Info net url in
  value_of out = value_of (Mp3Server.alternativeService net url)
  /\ succeeded (value_of out) = true
  /\ prop "source" (value_of out) = str "vevioz.com"
  /\ failureReasons (value_of (Mp3Server.ytmp3free net url)) <> []
  /\ failureReasons (value_of out) = []
  /\ (forall net',
        succeeded (value_of (Mp3Server.ytmp3free net' url)) = false ->
        net' (Endpoints.alternativeAddress (Mp3Server.extractVideoId url))
        = net (Endpoints.alternativeAddress (Mp3Server.extractVideoId url)) ->
        value_of (Mp3Server.getMP3Info net' url) = value_of out)
  /\ written out
     = written (Mp3Server.ytmp3free net url)
       ++ [Log [str "Primary service failed, trying alternative..."]]
  /\ List.length (filter isFallbackLine (written out)) = 1%nat
  /\ forall videoId, Mp3Server.extractVideoId url = Some videoId ->
       value_of (Mp3Server.apiMp3 net (Some url))
       = {| Mp3Server.code := 200;
            Mp3Server.body := value_of (Mp3Server.alternativeService net url) |}.
Proof.
  intros H1 H2 out.
  assert (E : prop "source" (value_of (Mp3Server.alternativeService net url))
              = str "vevioz.com"
              /\ failureReasons (value_of (Mp3Server.alternativeService net url)) = []).
  { revert H2. unfold Mp3Server.alternativeService.
    destruct (net _) as [data|message]; [|discriminate].
    destruct (truthy data && truthy (prop "url" data)); [|discriminate].
    intros _. split; reflexivity. }
  destruct E as [E1 E2].
  pose proof (ytmp3free_lines net url) as Hl.
  pose proof (primary_failure_reason net url H1) as Hr.
  assert (A : forall videoId, Mp3Server.extractVideoId url = Some videoId ->
                value_of (Mp3Server.apiMp3 net (Some url))
                = {| Mp3Server.code := 200;
                     Mp3Server.body := value_of (Mp3Server.alternativeService net url) |}).
  { intros videoId Hid. pose proof (extract_nonempty url videoId Hid) as Hne.
    unfold Mp3Server.apiMp3. destruct url as [|c u] eqn:Eu; [congruence|].
    rewrite Hid. rewrite getMP3Info_fallback by exact H1.
    unfold bind, log, value_of. cbn [fst snd].
    fold (value_of (Mp3Server.alternativeService net (c :: u))).
    unfold succeeded in H2. now rewrite H2. }
  assert (B : forall net',
             succeeded (value_of (Mp3Server.ytmp3free net' url)) = false ->
             net' (Endpoints.alternativeAddress (Mp3Server.extractVideoId url))
             = net (Endpoints.alternativeAddress (Mp3Server.extractVideoId url)) ->
             value_of (Mp3Server.getMP3Info net' url) = value_of out).
  { intros net' F1 F2. unfold out.
    rewrite (getMP3Info_fallback net' url F1), (getMP3Info_fallback net url H1).
    unfold value_of at 1 3. cbn [fst]. now rewrite (alternative_local net net' url F2). }
  unfold out in *. rewrite getMP3Info_fallback in * by exact H1.
  unfold value_of, written in *. cbn [fst snd] in *.
  repeat split; try assumption.
  now rewrite filter_app, Hl.
Qed.

Lemma fallback_returns_second_witness :
  succeeded (value_of (Mp3Server.ytmp3free Scenario.primaryDown Scenario.testUrl)) = false
  /\ succeeded (value_of (Mp3Server.alternativeService Scenario.primaryDown Scenario.testUrl))
     = true
  /\ prop "mp3" (value_of (Mp3Server.getMP3Info Scenario.primaryDown Scenario.testUrl))
     = str "https://cdn/x.mp3"
  /\ failureReasons (value_of (Mp3Server.getMP3Info Scenario.primaryDown Scenario.testUrl))
     = [].
Proof.
  split; [reflexivity|]. split; [reflexivity|]. split; [reflexivity|].
  exact (proj1 (proj2 (proj2 (proj2 (proj2 (fallback_returns_second Scenario.primaryDown
                                              Scenario.testUrl eq_refl eq_refl)))))).
Defined.

(** C3 as stated fails: no failure reason is recorded for the first
    strategy.  With a primary service that answers without data and an
    alternative one that answers with a link, the primary service fails
    with the reason [No data received from service]; the result of
    [getMP3Info] is the success of the alternative service and carries no
    reason, and no entry of the console holds the reason: the console has
    the two lines the primary service wrote about its request and the line
    that says that it failed.  With a primary service whose answer is not
    JSON, the console has two entries about the failure, not one, and the
    result carries no reason either. *)
Lemma fallback_reason_not_recorded :
  let first := value_of (Mp3Server.ytmp3free Scenario.primaryEmpty Scenario.testUrl) in
  let out := Mp3Server.getMP3Info Scenario.primaryEmpty Scenario.testUrl in
  let out' := Mp3Server.getMP3Info Scenario.primaryDown Scenario.testUrl in
  succeeded first = false
  /\ failureReasons first = [str "No data received from service"]
  /\ succeeded (value_of out) = true
  /\ failureReasons (value_of out) = []
  /\ existsb (carries (Js.lit "No data received from service")) (written out) = false
  /\ written out
     = [Log [str "Fetching from:"; VStr Scenario.primaryApi];
        Log [str "Raw response:"; VNull];
        Log [str "Primary service failed, trying alternative..."]]
  /\ failureReasons (value_of out') = []
  /\ written out'
     = [Log [str "Fetching from:"; VStr Scenario.primaryApi];
        Error [str "ytmp3free error:"; str "Unexpected token < in JSON at position 0"];
        Log [str "Primary service failed, trying alternative..."]].
Proof. repeat split. Qed.

(* ------------------------------------------------------------------ *)
(** ** Normalization of the upstream answers *)

(** An answer without the field that holds the link does not pass the
    check of the primary service. *)
Lemma link_missing name (data : value) :
  field name data = None ->
  name <> "link" ->
  truthy (prop name data) = false.
Proof.
  intros H Hn. destruct data as [| | b | q | s | items | fields |]; try reflexivity.
  - cbn [prop]. destruct (String.eqb_spec name "link"); [contradiction|reflexivity].
  - cbn [field] in H. cbn [prop]. now rewrite H.
Qed.

Lemma link_check (data : value) :
  field "link" data = None ->
  negb (truthy data) || negb (truthy (prop "title" data))
  || negb (truthy (prop "link" data)) = true.
Proof.
  intros H. destruct data as [| | b | q | s | items | fields |]; try reflexivity.
  - destruct (truthy (VBool b)); reflexivity.
  - destruct (truthy (VNum q)); reflexivity.
  - destruct (truthy (VStr s)); reflexivity.
  - cbn [field] in H. unfold prop at 2. rewrite H. cbn [truthy negb].
    now rewrite orb_true_r.
Qed.



(** C5: when the answers of the upstream service lack the field that holds
    the link -- [link] for ytmp3free.cc, [url] for the alternative service
    -- the strategy returns a result that is not a success, whatever else
    the answers hold. *)
Theorem missing_link_is_failure (net : upstream) (url : Js.str) :
  ((forall address data, net address = Resolved data -> field "link" data = None) ->
   succeeded (value_of (Mp3Server.ytmp3free net url)) = false
   /\ succeeded (value_of (Mp3Basic.ytmp3free net url)) = false)
  /\ ((forall address data, net address = Resolved data -> field "url" data = None) ->
      succeeded (value_of (Mp3Server.alternativeService net url)) = false).
Proof.
  split.
  - intros H. split.
    + unfold Mp3Server.ytmp3free.
      destruct (Mp3Server.extractVideoId url) as [videoId|]; [|reflexivity].
      destruct (net _) as [data|message] eqn:E; [|reflexivity].
      unfold bind, log, value_of. cbn [fst snd].
      now rewrite (link_check data (H _ _ E)).
    + unfold Mp3Basic.ytmp3free.
      destruct (Mp3Basic.encodeURIComponent url) as [encoded|]; [|reflexivity].
      destruct (net _) as [data|message] eqn:E; [|reflexivity].
      now rewrite (link_check data (H _ _ E)).
  - intros H. unfold Mp3Server.alternativeService.
    destruct (net _) as [data|message] eqn:E; [|reflexivity].
    rewrite (link_missing "url" data (H _ _ E)) by discriminate.
    now rewrite andb_false_r.
Qed.

Lemma missing_link_is_failure_witness :
  (forall address data, Scenario.noLink address = Resolved data -> field "link" data = None)
  /\ succeeded (value_of (Mp3Server.ytmp3free Scenario.noLink Scenario.testUrl)) = false.
Proof.
  assert (H : forall address data,
             Scenario.noLink address = Resolved data -> field "link" data = None).
  { intros address data E. injection E as <-. reflexivity. }
  split; [exact H|].
  exact (proj1 (proj1 (missing_link_is_failure Scenario.noLink Scenario.testUrl) H)).
Defined.

(* ------------------------------------------------------------------ *)
(** ** The catalog scraper *)

Section Scraper.

Context {cheerio : Cheerio} {casing : Casing}.

Lemma includes_nonempty (h needle : Js.str) :
  needle <> [] -> Js.includes h needle = true -> h <> [].
Proof. intros Hn H ->. destruct needle; [congruence|discriminate]. Qed.

Lemma secondaryBlock_shape (e : element) (m : MovieApi.movie) :
  In m (MovieApi.secondaryBlock e) ->
  MovieApi.image m = None /\ MovieApi.description m = [].
Proof.
  unfold MovieApi.secondaryBlock. destruct (attr e "href") as [[|c h]|]; try contradiction.
  destruct (_ && _); [|contradiction]. intros [<- | []]. split; reflexivity.
Qed.

(** C6, as the code has it: when the primary pass finds no block and the
    page has a hyperlink whose target contains [/movie/] and whose trimmed
    text is longer than 5 code units, the search returns a block for that
    hyperlink: its title is the text and its link the target made absolute.
    The blocks of this pass carry no mark of confidence; they have no image
    and an empty description. *)
Theorem secondary_pass_mines_links (doc : document) (e : element) (h : Js.str) :
  MovieApi.primaryPass doc = [] ->
  In e (select doc "a") ->
  attr e "href" = Some h ->
  Js.includes h (Js.lit "/movie/") = true ->
  (5 < List.length (Js.trim (text e)))%nat ->
  (exists m, In m (MovieApi.searchMovies doc)
             /\ MovieApi.title m = Js.trim (text e)
             /\ MovieApi.link m = MovieApi.absolute h)
  /\ (forall m, In m (MovieApi.searchMovies doc) ->
                MovieApi.image m = None /\ MovieApi.description m = []).
Proof.
  intros Hp He Hh Hi Hl. unfold MovieApi.searchMovies. rewrite Hp. cbn [List.length Nat.eqb app].
  split.
  - assert (Hne : h <> []) by (apply (includes_nonempty h (Js.lit "/movie/")); [discriminate|exact Hi]).
    destruct h as [|c h']; [congruence|].
    exists {| MovieApi.title := Js.trim (text e);
              MovieApi.link := MovieApi.absolute (c :: h');
              MovieApi.image := None;
              MovieApi.description := [];
              MovieApi.year := MovieApi.extractYear (Js.trim (text e)) |}.
    split.
    + unfold MovieApi.secondaryPass. apply in_flat_map. exists e. split; [exact He|].
      unfold MovieApi.secondaryBlock. rewrite Hh, Hi.
      destruct (Js.trim (text e)) as [|t ts] eqn:Et; [simpl in Hl; lia|].
      replace (Nat.ltb 5 (List.length (t :: ts))) with true
        by (symmetry; now apply Nat.ltb_lt).
      cbn [Js.nonEmpty andb]. left. reflexivity.
    + split; reflexivity.
  - intros m Hm. unfold MovieApi.secondaryPass in Hm. apply in_flat_map in Hm as [e' [_ Hm]].
    now apply secondaryBlock_shape in Hm.
Qed.

(** The target a hyperlink of [/api/movie] offers, when it counts as a
    download. *)
Lemma downloadEntry_url (e : element) :
  map MovieApi.url (MovieApi.downloadEntry e)
  = match attr e "href" with
    | Some h =>
        if Js.nonEmpty h
           && MovieApi.mentionsDownload (toLowerCase (Js.trim (text e))) h
        then [h] else []
    | None => []
    end.
Proof.
  unfold MovieApi.downloadEntry. destruct (attr e "href") as [[|c h]|]; try reflexivity.
  cbn [Js.nonEmpty andb]. destruct (MovieApi.mentionsDownload _ _); reflexivity.
Qed.

Lemma strEqb_eq (a b : Js.str) : strEqb a b = true <-> a = b.
Proof.
  revert b. induction a as [|x a IH]; intros [|y b]; cbn [strEqb]; try (split; congruence).
  rewrite andb_true_iff, N.eqb_eq, IH. split; [intros [-> ->]; reflexivity|].
  intros E. injection E as -> ->. split; reflexivity.
Qed.

(** Whether a hyperlink counts as a download with the target [h]. *)
Lemma count_offered (e : element) (h : Js.str) :
  count_occ (list_eq_dec N.eq_dec) (map MovieApi.url (MovieApi.downloadEntry e)) h
  = List.length
      (filter (fun e =>
                 match attr e "href" with
                 | Some h' =>
                     strEqb h' h && Js.nonEmpty h'
                     && MovieApi.mentionsDownload (toLowerCase (Js.trim (text e))) h'
                 | None => false
                 end) [e]).
Proof.
  rewrite downloadEntry_url. cbn [filter].
  destruct (attr e "href") as [h'|]; [|reflexivity].
  destruct (strEqb h' h) eqn:E.
  - apply strEqb_eq in E. subst h'. cbn [andb].
    destruct (Js.nonEmpty h && _); [|reflexivity].
    cbn [count_occ]. destruct (list_eq_dec N.eq_dec h h); [reflexivity|congruence].
  - cbn [andb]. destruct (Js.nonEmpty h' && _); [|reflexivity].
    cbn [count_occ]. destruct (list_eq_dec N.eq_dec h' h) as [->|]; [|reflexivity].
    assert (strEqb h h = true) by now apply strEqb_eq. congruence.
Qed.

(** C8, as the code has it: [downloadLinks] has one entry for each hyperlink
    of the page that has a target and counts as a download, in the order
    of the page; a target is listed as often as such hyperlinks carry it,
    without removal of duplicates. *)
Theorem downloadLinks_keep_every_link (doc : document) :
  let urls := map MovieApi.url (MovieApi.downloadLinks (MovieApi.movieDetails doc)) in
  urls
  = flat_map
      (fun e =>
         match attr e "href" with
         | Some h =>
             if Js.nonEmpty h
                && MovieApi.mentionsDownload (toLowerCase (Js.trim (text e))) h
             then [h] else []
         | None => []
         end)
      (select doc "a")
  /\ forall h,
       count_occ (list_eq_dec N.eq_dec) urls h
       = List.length
           (filter (fun e =>
                      match attr e "href" with
                      | Some h' =>
                          strEqb h' h && Js.nonEmpty h'
                          && MovieApi.mentionsDownload (toLowerCase (Js.trim (text e))) h'
                      | None => false
                      end)
                   (select doc "a")).
Proof.
  cbn [MovieApi.movieDetails MovieApi.downloadLinks]. cbv zeta.
  induction (select doc "a") as [|e es [IH1 IH2]]; [split; reflexivity|].
  cbn [flat_map]. rewrite map_app. split.
  - now rewrite downloadEntry_url, IH1.
  - intros h. rewrite count_occ_app, IH2, count_offered.
    cbn [filter]. now destruct (match attr e "href" with Some _ => _ | None => _ end).
Qed.

End Scraper.

(** C6 as stated fails: a page whose only hyperlink goes to [/movie/x]
    under the text [Movie], of 5 code units, has no block of the primary
    pass, and the search returns nothing. *)
Lemma five_letters_not_mined :
  MovieApi.primaryPass Scenario.shortText = []
  /\ map (fun e => (attr e "href", Js.trim (text e))) (select Scenario.shortText "a")
     = [(Some (Js.lit "/movie/x"), Js.lit "Movie")]
  /\ Js.includes (Js.lit "/movie/x") (Js.lit "/movie/") = true
  /\ (5 <= List.length (Js.lit "Movie"))%nat
  /\ MovieApi.searchMovies Scenario.shortText = [].
Proof.
  split; [reflexivity|]. split; [reflexivity|]. split; [reflexivity|].
  split; [simpl; lia|reflexivity].
Qed.

Lemma secondary_pass_mines_links_witness :
  MovieApi.primaryPass Scenario.longText = []
  /\ exists m, In m (MovieApi.searchMovies Scenario.longText)
               /\ MovieApi.title m = Js.lit "Movies".
Proof.
  split; [reflexivity|].
  destruct (secondary_pass_mines_links (cheerio := Dom.tree) Scenario.longText
              ([("body", []); ("html", [])], Dom.anchor "/movie/x" "Movies")
              (Js.lit "/movie/x")) as [[m [Hin [Ht _]]] _].
  - reflexivity.
  - vm_compute. left. reflexivity.
  - reflexivity.
  - reflexivity.
  - vm_compute. lia.
  - exists m. split; [exact Hin|exact Ht].
Defined.

(** C8 as stated fails: a page that offers the same file under two
    hyperlinks gets two entries with the same [url]. *)
Lemma same_url_listed_twice :
  map MovieApi.url (MovieApi.downloadLinks (MovieApi.movieDetails Scenario.twice))
  = [Js.lit "https://mega.nz/file/1"; Js.lit "https://mega.nz/file/1"]
  /\ ~ NoDup (map MovieApi.url
                (MovieApi.downloadLinks (MovieApi.movieDetails Scenario.twice))).
Proof.
  assert (E : map MovieApi.url (MovieApi.downloadLinks (MovieApi.movieDetails Scenario.twice))
              = [Js.lit "https://mega.nz/file/1"; Js.lit "https://mega.nz/file/1"])
    by (vm_compute; reflexivity).
  split; [exact E|]. rewrite E. intros H. inversion H as [|x l Hnot _].
  apply Hnot. left. reflexivity.
Qed.

(* ------------------------------------------------------------------ *)
(** ** Streamed delivery *)

Section Delivery.

Import Ytmp3Api.

Lemma bind_value {A B} (x : io A) (f : A -> io B) :
  value_of (bind x f) = value_of (f (value_of x)).
Proof. unfold bind, value_of. destruct x as [a l1]. cbn [fst]. now destruct (f a). Qed.

Lemma bind_written {A B} (x : io A) (f : A -> io B) :
  written (bind x f) = written x ++ written (f (value_of x)).
Proof. unfold bind, value_of, written. destruct x as [a l1]. cbn [fst snd]. now destruct (f a). Qed.

(** *** The response under the pipe *)

Lemma write_finished data r : finished (write data r) = finished r.
Proof. unfold write. now destruct (finished r) eqn:E. Qed.

Lemma write_statusCode data r : statusCode (write data r) = statusCode r.
Proof. unfold write. now destruct (finished r). Qed.

Lemma write_headers data r : headers (write data r) = headers r.
Proof. unfold write. now destruct (finished r). Qed.

Lemma pipe_finished cs : forall r, finished (pipe cs r) = finished r.
Proof.
  unfold pipe. induction cs as [|c cs IH]; intros r; cbn [fold_left]; [reflexivity|].
  now rewrite IH, write_finished.
Qed.

Lemma pipe_statusCode cs : forall r, statusCode (pipe cs r) = statusCode r.
Proof.
  unfold pipe. induction cs as [|c cs IH]; intros r; cbn [fold_left]; [reflexivity|].
  now rewrite IH, write_statusCode.
Qed.

Lemma pipe_headers cs : forall r, headers (pipe cs r) = headers r.
Proof.
  unfold pipe. induction cs as [|c cs IH]; intros r; cbn [fold_left]; [reflexivity|].
  now rewrite IH, write_headers.
Qed.

Lemma pipe_sent cs : forall r,
  finished r = false ->
  sent (pipe cs r) = sent r ++ map (fun c => Bytes (bytes c)) cs.
Proof.
  unfold pipe. induction cs as [|c cs IH]; intros r Hr; cbn [fold_left map].
  - now rewrite app_nil_r.
  - rewrite IH by (now rewrite write_finished).
    unfold write. rewrite Hr. cbn [sent]. now rewrite <- app_assoc.
Qed.

Lemma pipe_headersSent cs : forall r,
  finished r = false ->
  headersSent (pipe cs r) = headersSent r || match cs with [] => false | _ => true end.
Proof.
  unfold pipe. induction cs as [|c cs IH]; intros r Hr; cbn [fold_left].
  - now rewrite orb_false_r.
  - rewrite IH by (now rewrite write_finished).
    unfold write. rewrite Hr. cbn [headersSent]. now rewrite orb_true_r.
Qed.

Lemma audio_bytes cs :
  flat_map (fun p => match p with Bytes d => d | Json _ => [] end)
    (map (fun c => Bytes (bytes c)) cs)
  = flat_map bytes cs.
Proof. induction cs as [|c cs IH]; cbn [map flat_map]; [reflexivity|]. now rewrite IH. Qed.

Lemma documents_bytes cs :
  flat_map (fun p => match p with Bytes _ => [] | Json v => [v] end)
    (map (fun c => Bytes (bytes c)) cs)
  = [].
Proof. induction cs as [|c cs IH]; cbn [map flat_map]; [reflexivity|]. exact IH. Qed.

(** *** The headers of a download *)

Lemma disposition_legal title :
  forallb headerChar (disposition title) = forallb headerChar title.
Proof.
  unfold disposition. rewrite !forallb_app.
  change (forallb headerChar (Js.lit "attachment; filename=")) with true.
  change (forallb headerChar (Js.lit ".mp3")) with true.
  change (forallb headerChar [34]) with true.
  cbn [andb]. now rewrite andb_true_r.
Qed.

(** The two headers are set, or the first is refused: the second never
    is. *)
Lemma audioHeaders_fresh title :
  audioHeaders title fresh
  = if forallb headerChar title
    then Returned (Shape.opened title)
    else Thrown (invalidChar "Content-Disposition") fresh.
Proof.
  unfold audioHeaders, setHeader. cbn [fresh headersSent].
  rewrite disposition_legal. destruct (forallb headerChar title); reflexivity.
Qed.

Lemma headerSafe_legal title :
  forallb Shape.headerSafe title = true -> audioHeaders title fresh = Returned (Shape.opened title).
Proof.
  intros H. rewrite audioHeaders_fresh.
  change (forallb headerChar title) with (forallb Shape.headerSafe title). now rewrite H.
Qed.

(** *** The listener of a source stream *)

(** The listener on a response that streams the audio of [title]. *)
Lemma onError_streaming label reply message title cs :
  let r0 := pipe cs (Shape.opened title) in
  let out := onError label reply message r0 in
  written out = [Error [str label; VStr message]]
  /\ (cs = [] ->
      statusCode (value_of out) = 500%nat
      /\ sent (value_of out) = [Json (obj [("error", str reply)])]
      /\ audio (value_of out) = []
      /\ finished (value_of out) = true)
  /\ (cs <> [] ->
      statusCode (value_of out) = 200%nat
      /\ documents (value_of out) = []
      /\ audio (value_of out) = flat_map bytes cs
      /\ value_of out = r0
      /\ finished (value_of out) = false).
Proof.
  intros r0 out. unfold out, onError, bind, error, value_of, written.
  assert (Hh : headersSent r0 = match cs with [] => false | _ => true end)
    by (unfold r0; now rewrite pipe_headersSent).
  assert (Hs : sent r0 = map (fun c => Bytes (bytes c)) cs)
    by (unfold r0; now rewrite pipe_sent).
  assert (Hc : statusCode r0 = 200%nat) by (unfold r0; now rewrite pipe_statusCode).
  assert (Hf : finished r0 = false) by (unfold r0; now rewrite pipe_finished).
  destruct cs as [|c cs]; rewrite Hh; cbn [negb ret fst snd app].
  - split; [reflexivity|]. split; [|congruence]. intros _.
    cbn [json status statusCode sent finished]. rewrite Hs. repeat split.
  - split; [reflexivity|]. split; [discriminate|]. intros _.
    unfold documents, audio. rewrite Hs, audio_bytes, documents_bytes. repeat split.
    + exact Hc.
    + exact Hf.
Qed.

(** *** The events of the transcoder *)

Lemma transcode_value_app es1 : forall es2 r,
  value_of (transcode (es1 ++ es2) r)
  = value_of (transcode es2 (value_of (transcode es1 r))).
Proof.
  induction es1 as [|e es1 IH]; intros es2 r; [reflexivity|].
  cbn [app transcode]. now rewrite !bind_value, IH.
Qed.

(** What the events write to the console does not depend on the response. *)
Lemma transcode_written es : forall r,
  written (transcode es r)
  = flat_map (fun e => match e with
                       | Fault message => [Error [str "FFmpeg error:"; VStr message]]
                       | Completed => [Log [str "Conversion finished"]]
                       | _ => []
                       end) es.
Proof.
  induction es as [|e es IH]; intros r; [reflexivity|].
  cbn [transcode flat_map]. rewrite bind_written, IH. f_equal.
  destruct e as [c| |message|]; try reflexivity.
  unfold react, onError. rewrite bind_written.
  now destruct (negb (headersSent r)).
Qed.

(** A response that has ended takes no event. *)
Lemma react_closed e r :
  finished r = true -> headersSent r = true -> value_of (react e r) = r.
Proof.
  intros Hf Hh. destruct e as [c| |message|]; cbn [react].
  - unfold write. now rewrite Hf.
  - unfold finish. now rewrite Hf.
  - unfold onError. rewrite bind_value, Hh. reflexivity.
  - now rewrite bind_value.
Qed.

Lemma transcode_closed es : forall r,
  finished r = true -> headersSent r = true -> value_of (transcode es r) = r.
Proof.
  induction es as [|e es IH]; intros r Hf Hh; [reflexivity|].
  cbn [transcode]. rewrite bind_value, (react_closed e r Hf Hh). now apply IH.
Qed.

(** Events that neither write nor fail leave the response as it is. *)
Lemma transcode_quiet es : forall r,
  Shape.begins es = false -> Shape.faultless es = true -> value_of (transcode es r) = r.
Proof.
  induction es as [|e es IH]; intros r Hb Hq; [reflexivity|].
  destruct e as [c| |message|]; try discriminate.
  cbn [transcode react]. rewrite !bind_value. now apply IH.
Qed.

(** Without an [error] event, the response takes the chunks up to the end
    of the output and ends with it. *)
Lemma transcode_stream es : forall r,
  Shape.faultless es = true -> finished r = false ->
  statusCode (value_of (transcode es r)) = statusCode r
  /\ headers (value_of (transcode es r)) = headers r
  /\ sent (value_of (transcode es r))
     = sent r ++ map (fun c => Bytes (bytes c)) (Shape.output es)
  /\ finished (value_of (transcode es r)) = Shape.closes es
  /\ headersSent (value_of (transcode es r)) = headersSent r || Shape.begins es.
Proof.
  induction es as [|e es IH]; intros r Hq Hf.
  - cbn. rewrite app_nil_r, orb_false_r. auto.
  - destruct e as [c| |message|]; try discriminate;
      cbn [transcode react]; rewrite !bind_value; cbn [ret value_of fst].
    + assert (Hw : finished (write (bytes c) r) = false) by (now rewrite write_finished).
      destruct (IH (write (bytes c) r) Hq Hw) as [A [B [C [D E]]]].
      rewrite A, B, C, D, E. rewrite write_statusCode, write_headers.
      unfold write. rewrite Hf. cbn [sent headersSent Shape.output map Shape.closes
                                     Shape.begins existsb orb].
      rewrite <- app_assoc, orb_true_r. repeat split.
    + rewrite transcode_closed; unfold finish; rewrite Hf; try reflexivity.
      cbn. rewrite app_nil_r, orb_true_r. repeat split.
    + destruct (IH r Hq Hf) as [A [B [C [D E]]]]. repeat split; assumption.
Qed.

(** An [error] event that comes once the response has begun changes
    nothing in it. *)
Lemma transcode_fault_late before message after r :
  headersSent (value_of (transcode before r)) = true ->
  value_of (transcode (before ++ Fault message :: after) r)
  = value_of (transcode (before ++ after) r).
Proof.
  intros Hh. rewrite !transcode_value_app. cbn [transcode react].
  rewrite bind_value. unfold onError at 1. rewrite bind_value, Hh. reflexivity.
Qed.

Lemma faultless_app es1 es2 :
  Shape.faultless (es1 ++ es2) = Shape.faultless es1 && Shape.faultless es2.
Proof. apply forallb_app. Qed.

Lemma valid_nonempty url : isValidYouTubeUrl url = true -> url <> [].
Proof. intros H ->. discriminate H. Qed.

(** The two endpoints, once the address is accepted and the headers are
    set. *)
Lemma download_opened url title es :
  isValidYouTubeUrl url = true -> forallb Shape.headerSafe (sanitize title) = true ->
  download (Some url) (InfoOk title) es = transcode es (Shape.opened (sanitize title)).
Proof.
  intros Hv Ht. pose proof (valid_nonempty url Hv) as Hne.
  unfold download. destruct url as [|c u]; [congruence|].
  now rewrite Hv, (headerSafe_legal _ Ht).
Qed.

Lemma downloadMp3_opened url title r :
  isValidYouTubeUrl url = true -> forallb Shape.headerSafe (sanitize title) = true ->
  downloadMp3 (Some url) (InfoOk title) Chosen r
  = match outcome r with
    | Failed message =>
        onError "Stream error:" "Stream failed" message
          (pipe (chunks r) (Shape.opened (sanitize title)))
    | Ended => ret (finish (pipe (chunks r) (Shape.opened (sanitize title))))
    end.
Proof.
  intros Hv Ht. pose proof (valid_nonempty url Hv) as Hne.
  unfold downloadMp3. destruct url as [|c u]; [congruence|].
  now rewrite Hv, (headerSafe_legal _ Ht).
Qed.

End Delivery.

(** C9, as the code has it: for an accepted address and a title that a
    header can hold, an error of the transcoder of [/api/download] or of the
    source of [/api/download-mp3] is written to the console once.  The
    listeners test whether the response has begun.  If it has not -- no
    chunk was written and the output of the transcoder has not ended -- the
    answer is 500 with one JSON document that holds the error, and the
    response ends.  If it has, no JSON document is sent and the status
    stays 200; the listener does not end the response: [/api/download]
    sends the chunks up to the end of the output of the transcoder and ends
    with it, and [/api/download-mp3] stays open with the chunks written so
    far.  A source that fails before the stream is opened is answered with
    500 and a JSON document too. *)
Theorem stream_failure_reported_once (url title message : Js.str)
  (before after : list Ytmp3Api.event) (cs : list Ytmp3Api.chunk) :
  Ytmp3Api.isValidYouTubeUrl url = true ->
  forallb Shape.headerSafe (Ytmp3Api.sanitize title) = true ->
  Shape.faultless before = true ->
  Shape.faultless after = true ->
  let transcoded :=
    Ytmp3Api.download (Some url) (Ytmp3Api.InfoOk title)
      (before ++ Ytmp3Api.Fault message :: after) in
  let direct :=
    Ytmp3Api.downloadMp3 (Some url) (Ytmp3Api.InfoOk title) Ytmp3Api.Chosen
      {| Ytmp3Api.chunks := cs; Ytmp3Api.outcome := Ytmp3Api.Failed message |} in
  (filter isError (written transcoded) = [Error [str "FFmpeg error:"; VStr message]]
   /\ written direct = [Error [str "Stream error:"; VStr message]])
  /\ (Shape.begins before = false ->
      statusCode (value_of transcoded) = 500%nat
      /\ sent (value_of transcoded) = [Json (obj [("error", str "Conversion failed")])]
      /\ finished (value_of transcoded) = true)
  /\ (cs = [] ->
      statusCode (value_of direct) = 500%nat
      /\ sent (value_of direct) = [Json (obj [("error", str "Stream failed")])]
      /\ finished (value_of direct) = true)
  /\ (Shape.begins before = true ->
      statusCode (value_of transcoded) = 200%nat
      /\ documents (value_of transcoded) = []
      /\ audio (value_of transcoded)
         = flat_map Ytmp3Api.bytes (Shape.output (before ++ after))
      /\ finished (value_of transcoded) = Shape.closes (before ++ after))
  /\ (cs <> [] ->
      statusCode (value_of direct) = 200%nat
      /\ documents (value_of direct) = []
      /\ audio (value_of direct) = flat_map Ytmp3Api.bytes cs
      /\ finished (value_of direct) = false)
  /\ (forall es r format,
        let early := Ytmp3Api.download (Some url) (Ytmp3Api.InfoFailed message) es in
        let early' := Ytmp3Api.downloadMp3 (Some url) (Ytmp3Api.InfoFailed message) format r in
        early = early'
        /\ written early = [Error [str "Download error:"; VStr message]]
        /\ statusCode (value_of early) = 500%nat
        /\ sent (value_of early) = [Json (obj [("error", str "Download failed")])]).
Proof.
  intros Hv Ht Hb Ha transcoded direct.
  pose proof (valid_nonempty url Hv) as Hne.
  set (r0 := Shape.opened (Ytmp3Api.sanitize title)).
  assert (Et : transcoded = Ytmp3Api.transcode (before ++ Ytmp3Api.Fault message :: after) r0)
    by (now apply download_opened).
  assert (Ed : direct
               = Ytmp3Api.onError "Stream error:" "Stream failed" message (Ytmp3Api.pipe cs r0))
    by (unfold direct; now rewrite downloadMp3_opened).
  destruct (onError_streaming "Stream error:" "Stream failed" message
              (Ytmp3Api.sanitize title) cs) as [W2 [A2 B2]].
  cbv zeta in W2, A2, B2. fold r0 in W2, A2, B2. rewrite <- Ed in W2, A2, B2.
  split; [split; [|exact W2]|]. 2: split; [|split; [|split; [|split]]].
  - rewrite Et, transcode_written, flat_map_app, filter_app. cbn [flat_map].
    rewrite filter_app. cbn [filter isError].
    assert (Q : forall es, Shape.faultless es = true ->
              filter isError
                (flat_map (fun e => match e with
                                    | Ytmp3Api.Fault m => [Error [str "FFmpeg error:"; VStr m]]
                                    | Ytmp3Api.Completed => [Log [str "Conversion finished"]]
                                    | _ => []
                                    end) es) = []).
    { induction es as [|e es IH]; [reflexivity|].
      destruct e as [c| |m|]; try discriminate; cbn; exact IH. }
    now rewrite (Q before Hb), (Q after Ha).
  - intros Hq. rewrite Et, transcode_value_app, (transcode_quiet before r0 Hq Hb).
    cbn [Ytmp3Api.transcode Ytmp3Api.react]. rewrite bind_value.
    rewrite transcode_closed; repeat split.
  - intros Hcs. destruct (A2 Hcs) as [? [? [_ ?]]]. auto.
  - intros Hq.
    assert (Hf : finished r0 = false) by reflexivity.
    destruct (transcode_stream before r0 Hb Hf) as [_ [_ [_ [_ Hh]]]].
    rewrite Hq in Hh. cbn [r0 Shape.opened headersSent orb] in Hh.
    rewrite Et, (transcode_fault_late before message after r0 Hh).
    assert (Hba : Shape.faultless (before ++ after) = true)
      by (now rewrite faultless_app, Hb, Ha).
    destruct (transcode_stream (before ++ after) r0 Hba Hf) as [A [_ [C [D _]]]].
    unfold documents, audio. rewrite A, C, D. cbn [r0 Shape.opened sent statusCode app].
    rewrite audio_bytes, documents_bytes. repeat split.
  - intros Hcs. destruct (B2 Hcs) as [? [? [? [_ ?]]]]. auto.
  - intros es r format. unfold Ytmp3Api.download, Ytmp3Api.downloadMp3.
    destruct url as [|c u]; [congruence|]. rewrite Hv. cbn [negb].
    repeat split.
Qed.

Lemma stream_failure_reported_once_witness :
  Ytmp3Api.isValidYouTubeUrl Scenario.testUrl = true
  /\ forallb Shape.headerSafe (Ytmp3Api.sanitize (Js.lit "Test: Movie? #1")) = true
  /\ sent (value_of (Ytmp3Api.download (Some Scenario.testUrl)
                       (Ytmp3Api.InfoOk (Js.lit "Test: Movie? #1")) Scenario.cannotStart))
     = [Json (obj [("error", str "Conversion failed")])]
  /\ finished (value_of (Ytmp3Api.downloadMp3 (Some Scenario.testUrl)
                           (Ytmp3Api.InfoOk (Js.lit "Test: Movie? #1")) Ytmp3Api.Chosen
                           Scenario.failsLate))
     = false.
Proof.
  assert (Hv : Ytmp3Api.isValidYouTubeUrl Scenario.testUrl = true) by reflexivity.
  assert (Ht : forallb Shape.headerSafe (Ytmp3Api.sanitize (Js.lit "Test: Movie? #1")) = true)
    by reflexivity.
  assert (N : Scenario.twoChunks <> []) by discriminate.
  split; [exact Hv|]. split; [exact Ht|]. split.
  - exact (proj1 (proj2 (proj1 (proj2 (stream_failure_reported_once Scenario.testUrl
             (Js.lit "Test: Movie? #1") (Js.lit "Cannot find ffmpeg") [] [] []
             Hv Ht eq_refl eq_refl)) eq_refl))).
  - exact (proj2 (proj2 (proj2 (proj1 (proj2 (proj2 (proj2 (proj2
             (stream_failure_reported_once Scenario.testUrl
                (Js.lit "Test: Movie? #1") (Js.lit "aborted") [] [] Scenario.twoChunks
                Hv Ht eq_refl eq_refl))))) N)))).
Defined.

(** C9 as stated fails.  A transcoder that exits with an error before it
    has given any output has its output ended first: the pipe ends the
    response, so the listener finds the headers sent and the caller gets an
    empty answer with status 200 and no JSON document, although no byte was
    written.  And a source of [/api/download-mp3] that fails after two
    chunks leaves the response as it is: nothing ends it. *)
Lemma failure_before_output_unreported :
  let silent := Ytmp3Api.download (Some Scenario.testUrl)
                  (Ytmp3Api.InfoOk (Js.lit "Test: Movie? #1")) Scenario.exitsAtOnce in
  let late := Ytmp3Api.downloadMp3 (Some Scenario.testUrl)
                (Ytmp3Api.InfoOk (Js.lit "Test: Movie? #1")) Ytmp3Api.Chosen
                Scenario.failsLate in
  audio (value_of silent) = []
  /\ documents (value_of silent) = []
  /\ statusCode (value_of silent) = 200%nat
  /\ finished (value_of silent) = true
  /\ written silent = [Error [str "FFmpeg error:"; str "ffmpeg exited with code 1"]]
  /\ audio (value_of late) = [73; 68; 51; 255; 251]
  /\ documents (value_of late) = []
  /\ finished (value_of late) = false.
Proof. repeat split. Qed.

(* ------------------------------------------------------------------ *)
(** ** What a match tells about the text *)

Section Inversion.

Context {R : Type}.
Implicit Types (k : Js.str -> caps -> option R) (s t : Js.str) (c : caps).

(** A repetition that succeeds has taken a run of its class. *)
Lemma starC_inv p s c k res :
  starC p s c k = Some res ->
  exists x t, s = x ++ t /\ forallb p x = true /\ k t c = Some res.
Proof.
  induction s as [|a s IH]; cbn [starC]; intros H.
  - exists [], []. repeat split. exact H.
  - destruct (p a) eqn:Ea.
    + destruct (starC p s c k) as [r|] eqn:Es.
      * injection H as ->. destruct (IH eq_refl) as [x [t [-> [Hx Hk]]]].
        exists (a :: x), t. cbn [forallb app]. rewrite Ea, Hx. repeat split. exact Hk.
      * exists [], (a :: s). repeat split. exact H.
    + exists [], (a :: s). repeat split. exact H.
Qed.

(** A match that succeeds has reached its continuation at a later
    position. *)
Lemma m_reach n r : forall s c k res,
  m n r s c k = Some res ->
  exists z y c', s = z ++ y /\ k y c' = Some res.
Proof.
  induction r; intros s c k res H; cbn [m] in H.
  - exists [], s, c. split; [reflexivity|exact H].
  - destruct s as [|a s]; [discriminate|]. destruct (p a); [|discriminate].
    exists [a], s, c. split; [reflexivity|exact H].
  - apply IHr1 in H as [z [y [c1 [-> H]]]]. apply IHr2 in H as [z' [y' [c2 [-> H]]]].
    exists (z ++ z'), y', c2. split; [now rewrite app_assoc|exact H].
  - destruct (m n r1 s c k) as [r|] eqn:E.
    + injection H as ->. now apply IHr1 in E.
    + now apply IHr2 in H.
  - apply starC_inv in H as [x [t [-> [_ H]]]]. now exists x, t, c.
  - apply IHr in H as [z [y [c1 [-> H]]]].
    exists z, y, ((i, consumed (z ++ y) y) :: c1). split; [reflexivity|exact H].
  - destruct (Nat.eqb _ _); [|discriminate]. exists [], s, c. split; [reflexivity|exact H].
Qed.

Lemma m_Lit_inv n str : forall s c k res,
  m n (Lit str) s c k = Some res ->
  exists t, s = Js.lit str ++ t /\ k t c = Some res.
Proof.
  induction str as [|a str IH]; intros s c k res H.
  - now exists s.
  - change (Lit (String a str)) with (Cat (chr a) (Lit str)) in H.
    destruct s as [|x s]; [discriminate|]. cbn [m chr] in H.
    destruct (N.eqb_spec (N_of_ascii a) x) as [<-|]; [|discriminate].
    apply IH in H as [t [-> H]]. now exists t.
Qed.

Lemma m_rep_cls_inv n p j : forall s c k res,
  m n (rep j (Cls p)) s c k = Some res ->
  exists x t, s = x ++ t /\ List.length x = j /\ forallb p x = true /\ k t c = Some res.
Proof.
  induction j as [|j IH]; intros s c k res H; cbn [rep m] in H.
  - exists [], s. repeat split. exact H.
  - destruct s as [|a s]; [discriminate|]. destruct (p a) eqn:Ea; [|discriminate].
    apply IH in H as [x [t [-> [Hl [Hx Hk]]]]].
    exists (a :: x), t. cbn [forallb List.length app]. rewrite Ea, Hx, Hl.
    repeat split. exact Hk.
Qed.

Lemma m_opt_inv n r s c k res :
  m n (opt r) s c k = Some res -> m n r s c k = Some res \/ k s c = Some res.
Proof.
  unfold opt. cbn [m]. destruct (m n r s c k) as [x|]; intros H; [left|right]; exact H.
Qed.

End Inversion.

(** A search that succeeds has matched at some position. *)
Lemma execFrom_inv r n s res :
  execFrom r n s = Some res -> exists z y, s = z ++ y /\ matchAt r n y = Some res.
Proof.
  induction s as [|a s IH]; rewrite execFrom_eq; intros H.
  - destruct (matchAt r n []) eqn:E; [|discriminate]. injection H as ->.
    now exists [], [].
  - destruct (matchAt r n (a :: s)) eqn:E.
    + injection H as ->. now exists [], (a :: s).
    + destruct (IH H) as [z [y [-> Hy]]]. now exists (a :: z), y.
Qed.

(** A search succeeds when some position matches. *)
Lemma execFrom_some r n z : forall y res,
  matchAt r n y = Some res -> exists res', execFrom r n (z ++ y) = Some res'.
Proof.
  induction z as [|a z IH]; intros y res H; cbn [app]; rewrite execFrom_eq.
  - rewrite H. now exists res.
  - destruct (matchAt r n (a :: z ++ y)) as [res0|]; [now exists res0|].
    now apply (IH y res).
Qed.

(** The identifier group of the patterns: what it captures. *)
Lemma idGroup_inv {A} (f : Js.str -> A) i p y c0 res n :
  m n (Group i (rep 11 (Cls p))) y c0 (fun s' c => Some (f s', c)) = Some res ->
  exists x t, y = x ++ t /\ List.length x = 11%nat /\ forallb p x = true
              /\ snd res = (i, x) :: c0.
Proof.
  intros H. cbn [m] in H. apply m_rep_cls_inv in H as [x [t [-> [Hl [Hx Hk]]]]].
  injection Hk as <-. rewrite consumed_app. exists x, t. repeat split; assumption.
Qed.

(* ------------------------------------------------------------------ *)
(** ** The identifiers the extractors return *)

(** X1: what [extractVideoId] of src/unnamed/part_000 returns is a piece
    of the address, 11 code units long, none of which is a double quote,
    [&], [?], [/] or white space. *)
Theorem extracted_id_is_wellformed (url id : Js.str) :
  Mp3Server.extractVideoId url = Some id ->
  List.length id = 11%nat
  /\ forallb Mp3Server.idLoose id = true
  /\ exists before after, url = before ++ id ++ after.
Proof.
  unfold Mp3Server.extractVideoId, exec. intros H.
  destruct (execFrom _ _ url) as [res|] eqn:E; [|discriminate].
  apply execFrom_inv in E as [z [y [-> E]]].
  unfold matchAt, Mp3Server.videoIdRegex in E. cbn [m] in E.
  apply m_reach in E as [z' [y' [c' [-> E]]]].
  change (m ?n (rep 11 (Cls Mp3Server.idLoose)) y' c' ?k = Some res)
    with (m n (Group 1 (rep 11 (Cls Mp3Server.idLoose))) y' c'
            (fun s' c => Some (consumed (z' ++ y') s', c)) = Some res) in E.
  apply idGroup_inv in E as [x [t [-> [Hl [Hx Hs]]]]].
  unfold group in H. rewrite Hs in H. cbn in H. injection H as <-.
  split; [exact Hl|]. split; [exact Hx|].
  exists (z ++ z'), t. now rewrite <- app_assoc.
Qed.

Lemma extracted_id_is_wellformed_witness :
  Mp3Server.extractVideoId (Js.lit "https://www.youtube.com/embed/KK9bwTlAvgo?rel=0")
  = Some (Js.lit "KK9bwTlAvgo")
  /\ List.length (Js.lit "KK9bwTlAvgo") = 11%nat.
Proof.
  assert (H : Mp3Server.extractVideoId
                (Js.lit "https://www.youtube.com/embed/KK9bwTlAvgo?rel=0")
              = Some (Js.lit "KK9bwTlAvgo")) by reflexivity.
  split; [exact H|]. exact (proj1 (extracted_id_is_wellformed _ _ H)).
Defined.

(** X2: what [extractVideoId] of src/api/ytmp3.js returns is 11 characters
    of [[a-zA-Z0-9_-]] that stand in the address right after
    [youtube.com/watch?v=] or [youtu.be/]. *)
Theorem api_id_follows_shape (url id : Js.str) :
  Ytmp3Api.extractVideoId url = Some id ->
  List.length id = 11%nat
  /\ forallb Ytmp3Api.idChar id = true
  /\ exists before sh after,
       sh <> Embed /\ url = before ++ shapeText sh ++ id ++ after.
Proof.
  unfold Ytmp3Api.extractVideoId, exec. intros H.
  destruct (execFrom _ _ url) as [res|] eqn:E; [|discriminate].
  apply execFrom_inv in E as [z [y [-> E]]].
  unfold matchAt, Ytmp3Api.idRegex, Ytmp3Api.hostShape in E. cbn [m] in E.
  assert (S : exists sh t, sh <> Embed /\ y = shapeText sh ++ t
                /\ m (List.length (z ++ y)) (Group 1 (rep 11 (Cls Ytmp3Api.idChar))) t []
                     (fun s' c => Some (consumed y s', c)) = Some res).
  { destruct (m _ (Lit "youtube.com/watch?v=") y [] _) as [r|] eqn:E1.
    - injection E as ->. apply m_Lit_inv in E1 as [t [-> E1]].
      exists Watch, t. split; [discriminate|]. split; [reflexivity|exact E1].
    - apply m_Lit_inv in E as [t [-> E]].
      exists Short, t. split; [discriminate|]. split; [reflexivity|exact E]. }
  destruct S as [sh [t [Hsh [-> S]]]].
  apply idGroup_inv in S as [x [t' [-> [Hl [Hx Hs]]]]].
  unfold group in H. rewrite Hs in H. cbn in H. injection H as <-.
  split; [exact Hl|]. split; [exact Hx|].
  exists z, sh, t'. split; [exact Hsh|reflexivity].
Qed.

Lemma api_id_follows_shape_witness :
  Ytmp3Api.extractVideoId (Js.lit "see https://youtu.be/KK9bwTlAvgo&t=3")
  = Some (Js.lit "KK9bwTlAvgo")
  /\ forallb Ytmp3Api.idChar (Js.lit "KK9bwTlAvgo") = true.
Proof.
  assert (H : Ytmp3Api.extractVideoId (Js.lit "see https://youtu.be/KK9bwTlAvgo&t=3")
              = Some (Js.lit "KK9bwTlAvgo")) by reflexivity.
  split; [exact H|]. exact (proj1 (proj2 (api_id_follows_shape _ _ H))).
Defined.

(* ------------------------------------------------------------------ *)
(** ** The addresses the validator accepts *)

Section Accepted.

Context {R : Type}.
Implicit Types (k : Js.str -> caps -> option R) (s t : Js.str) (c : caps).

Lemma scheme_inv n s c k res :
  m n (opt schemeGroup) s c k = Some res ->
  exists sc t c', s = schemeText sc ++ t /\ k t c' = Some res.
Proof.
  intros H. apply m_opt_inv in H as [H|H]; [|now exists NoScheme, s, c].
  unfold schemeGroup in H. cbn [m] in H.
  apply m_Lit_inv in H as [t [-> H]].
  apply m_opt_inv in H as [H|H].
  - unfold chr in H. cbn [m] in H. destruct t as [|a t]; [discriminate|].
    destruct (N.eqb_spec (N_of_ascii "s") a) as [<-|]; [|discriminate].
    apply m_Lit_inv in H as [t' [-> H]]. exists Https, t'. eexists. split; [reflexivity|exact H].
  - apply m_Lit_inv in H as [t' [-> H]]. exists Http, t'. eexists. split; [reflexivity|exact H].
Qed.

Lemma host_inv n s c k res :
  m n (opt hostGroup) s c k = Some res ->
  exists www t c', s = hostText www ++ t /\ k t c' = Some res.
Proof.
  intros H. apply m_opt_inv in H as [H|H]; [|now exists false, s, c].
  unfold hostGroup in H. cbn [m] in H. apply m_Lit_inv in H as [t [-> H]].
  exists true, t. eexists. split; [reflexivity|exact H].
Qed.

Lemma hostShape_inv n s c k res :
  m n Ytmp3Api.hostShape s c k = Some res ->
  exists sh t, sh <> Embed /\ s = shapeText sh ++ t /\ k t c = Some res.
Proof.
  unfold Ytmp3Api.hostShape. cbn [m]. intros H.
  destruct (m n (Lit "youtube.com/watch?v=") s c k) as [r|] eqn:E1.
  - injection H as ->. apply m_Lit_inv in E1 as [t [-> E1]].
    exists Watch, t. split; [discriminate|]. split; [reflexivity|exact E1].
  - apply m_Lit_inv in H as [t [-> H]].
    exists Short, t. split; [discriminate|]. split; [reflexivity|exact H].
Qed.

End Accepted.

(** What an accepted address is made of. *)
Lemma valid_inv (url : Js.str) :
  Ytmp3Api.isValidYouTubeUrl url = true ->
  exists sc www sh id rest,
    sh <> Embed /\ List.length id = 11%nat /\ forallb Ytmp3Api.idChar id = true
    /\ url = canonical sc www sh (id ++ rest).
Proof.
  unfold Ytmp3Api.isValidYouTubeUrl, test. rewrite validRegex_eq, exec_anchored.
  destruct (m _ _ url [] _) as [res|] eqn:E; [intros _|discriminate].
  rewrite m_Cat in E. apply scheme_inv in E as [sc [t1 [c1 [-> E]]]].
  rewrite m_Cat in E. apply host_inv in E as [www [t2 [c2 [-> E]]]].
  rewrite m_Cat in E. cbn [m] in E.
  apply hostShape_inv in E as [sh [t3 [Hsh [-> E]]]].
  apply m_rep_cls_inv in E as [x [rest [-> [Hl [Hx _]]]]].
  exists sc, www, sh, x, rest. repeat split; assumption.
Qed.

(** X3: [isValidYouTubeUrl] accepts exactly the addresses made of an
    optional [http://] or [https://], an optional [www.], one of
    [youtube.com/watch?v=] and [youtu.be/], 11 characters of
    [[a-zA-Z0-9_-]], and anything after them; [youtubeRegex] of src/index.js
    is the same test. *)
Theorem valid_iff_canonical (url : Js.str) :
  (Ytmp3Api.isValidYouTubeUrl url = true <->
   exists sc www sh id rest,
     sh <> Embed /\ List.length id = 11%nat /\ forallb Ytmp3Api.idChar id = true
     /\ url = canonical sc www sh (id ++ rest))
  /\ test Mp3Basic.youtubeRegex url = Ytmp3Api.isValidYouTubeUrl url.
Proof.
  split; [|reflexivity]. split; [apply valid_inv|].
  intros [sc [www [sh [id [rest [Hsh [Hl [Hx ->]]]]]]]]. now apply valid_with_rest.
Qed.

(** X4: an address that [isValidYouTubeUrl] accepts always has an
    identifier for [extractVideoId]: the 11 characters the validator saw,
    so the handlers that validate first never work with [null]. *)
Theorem validated_id_extracted (url : Js.str) :
  Ytmp3Api.isValidYouTubeUrl url = true ->
  exists sc www sh id rest,
    url = canonical sc www sh (id ++ rest)
    /\ Ytmp3Api.extractVideoId url = Some id
    /\ List.length id = 11%nat
    /\ forallb Ytmp3Api.idChar id = true.
Proof.
  intros H. apply valid_inv in H as [sc [www [sh [id [rest [Hsh [Hl [Hx ->]]]]]]]].
  exists sc, www, sh, id, rest. split; [reflexivity|]. split; [|split; assumption].
  rewrite canonical_split. apply extract_api; auto using front_noY.
Qed.

Lemma validated_id_extracted_witness :
  Ytmp3Api.isValidYouTubeUrl (Js.lit "http://youtu.be/KK9bwTlAvgo?t=3") = true
  /\ exists sc www sh id rest,
       Js.lit "http://youtu.be/KK9bwTlAvgo?t=3" = canonical sc www sh (id ++ rest)
       /\ Ytmp3Api.extractVideoId (Js.lit "http://youtu.be/KK9bwTlAvgo?t=3") = Some id
       /\ List.length id = 11%nat
       /\ forallb Ytmp3Api.idChar id = true.
Proof.
  split; [reflexivity|].
  exact (validated_id_extracted (Js.lit "http://youtu.be/KK9bwTlAvgo?t=3") eq_refl).
Defined.

(* ------------------------------------------------------------------ *)
(** ** Objects *)

Lemma strEqb_refl (a : Js.str) : strEqb a a = true.
Proof. induction a as [|x a IH]; cbn [strEqb]; [reflexivity|]. now rewrite N.eqb_refl. Qed.

Lemma strEqb_sym (a b : Js.str) : strEqb a b = strEqb b a.
Proof.
  revert b. induction a as [|x a IH]; intros [|y b]; cbn [strEqb]; try reflexivity.
  now rewrite N.eqb_sym, IH.
Qed.

Lemma strEqb_true (a b : Js.str) : strEqb a b = true -> a = b.
Proof.
  revert b. induction a as [|x a IH]; intros [|y b]; cbn [strEqb]; try congruence.
  intros H. apply andb_prop in H as [Hx Ha]. apply N.eqb_eq in Hx. apply IH in Ha.
  congruence.
Qed.

(** Reading a property that was just written, and another one. *)
Lemma lookup_assign_same k v fields : lookup k (assign k v fields) = Some v.
Proof.
  induction fields as [|[k' v'] fields IH]; cbn [assign lookup].
  - now rewrite strEqb_refl.
  - destruct (strEqb k k') eqn:E; cbn [lookup]; rewrite E; [reflexivity|exact IH].
Qed.

Lemma lookup_assign_other k k' v fields :
  strEqb k k' = false -> lookup k (assign k' v fields) = lookup k fields.
Proof.
  intros H. induction fields as [|[k0 v0] fields IH]; cbn [assign lookup].
  - now rewrite H.
  - destruct (strEqb k' k0) eqn:E; cbn [lookup].
    + apply strEqb_true in E. subst k0. now rewrite H.
    + now rewrite IH.
Qed.

(** The keys of an object after a write. *)
Lemma keys_assign k v fields :
  map fst (assign k v fields)
  = if existsb (strEqb k) (map fst fields) then map fst fields
    else map fst fields ++ [k].
Proof.
  induction fields as [|[k' v'] fields IH]; cbn [assign map existsb fst app]; [reflexivity|].
  destruct (strEqb k k') eqn:E; cbn [orb map fst]; [reflexivity|].
  rewrite IH. now destruct (existsb _ _).
Qed.

Lemma existsb_strEqb k keys : existsb (strEqb k) keys = true <-> In k keys.
Proof.
  rewrite existsb_exists. split.
  - intros [x [Hx E]]. apply strEqb_true in E. now subst.
  - intros H. exists k. split; [exact H|apply strEqb_refl].
Qed.

(* ------------------------------------------------------------------ *)
(** ** The answers of the resolver endpoints *)

Section Answers.

Import Mp3Server.

(** The primary service looks at the upstream answer for one address. *)
Lemma ytmp3free_local net net' url :
  (forall videoId, extractVideoId url = Some videoId ->
     net' (Endpoints.primaryAddress videoId) = net (Endpoints.primaryAddress videoId)) ->
  ytmp3free net' url = ytmp3free net url.
Proof.
  intros H. unfold ytmp3free. destruct (extractVideoId url) as [videoId|]; [|reflexivity].
  specialize (H videoId eq_refl). unfold Endpoints.primaryAddress in H. now rewrite H.
Qed.

Lemma status_of_spread o videoId note :
  prop "status" (spread o [("videoId", videoId); ("note", note)]) = prop "status" o.
Proof.
  unfold spread, prop. cbn [fold_left fst snd].
  rewrite !lookup_assign_other by reflexivity.
  destruct o; reflexivity.
Qed.

End Answers.

Lemma apiMp3_with_id net url videoId :
  Mp3Server.extractVideoId url = Some videoId ->
  value_of (Mp3Server.apiMp3 net (Some url))
  = (let result := value_of (Mp3Server.getMP3Info net url) in
     if succeeded result
     then {| Mp3Server.code := 200; Mp3Server.body := result |}
     else {| Mp3Server.code := 500;
             Mp3Server.body :=
               spread result
                 [("videoId", VStr videoId);
                  ("note", str "The service might be temporarily down. Please try again later.")] |})
  /\ value_of (Mp3Server.apiMp3Download net (Some url))
     = (let result := value_of (Mp3Server.getMP3Info net url) in
        {| Mp3Server.code := if succeeded result then 200 else 500;
           Mp3Server.body := result |}).
Proof.
  intros Hid. pose proof (extract_nonempty url videoId Hid) as Hne.
  unfold Mp3Server.apiMp3, Mp3Server.apiMp3Download.
  destruct url as [|c u]; [congruence|]. rewrite Hid.
  unfold bind, log, value_of, succeeded.
  destruct (Mp3Server.getMP3Info net (c :: u)) as [r l]. cbn [fst snd].
  split; destruct (truthy (prop "status" r)); reflexivity.
Qed.

Lemma apiMp3_without_id net y :
  match y with Some u => Mp3Server.extractVideoId u | None => None end = None ->
  Mp3Server.code (value_of (Mp3Server.apiMp3 net y)) = 400%nat
  /\ Mp3Server.code (value_of (Mp3Server.apiMp3Download net y)) = 400%nat
  /\ succeeded (Mp3Server.body (value_of (Mp3Server.apiMp3 net y))) = false
  /\ succeeded (Mp3Server.body (value_of (Mp3Server.apiMp3Download net y))) = false
  /\ written (Mp3Server.apiMp3 net y) = []
  /\ written (Mp3Server.apiMp3Download net y) = [].
Proof.
  intros H. unfold Mp3Server.apiMp3, Mp3Server.apiMp3Download.
  destruct y as [[|c u]|]; try (repeat split; reflexivity).
  rewrite H. repeat split; reflexivity.
Qed.

(** X5: a request without [youtubeUrl], or with one in which
    [extractVideoId] finds no identifier, is answered 400 by both endpoints
    of src/unnamed/part_000 with a [status: false] body; nothing is
    written to the console and no upstream service is asked: the answer is
    the same whatever the services would say.  Every other request is
    answered 200 or 500. *)
Theorem invalid_reference_stops (net : upstream) (youtubeUrl : option Js.str) :
  let videoId :=
    match youtubeUrl with Some u => Mp3Server.extractVideoId u | None => None end in
  (videoId = None ->
   Mp3Server.code (value_of (Mp3Server.apiMp3 net youtubeUrl)) = 400%nat
   /\ Mp3Server.code (value_of (Mp3Server.apiMp3Download net youtubeUrl)) = 400%nat
   /\ written (Mp3Server.apiMp3 net youtubeUrl) = []
   /\ written (Mp3Server.apiMp3Download net youtubeUrl) = []
   /\ forall net',
        Mp3Server.apiMp3 net' youtubeUrl = Mp3Server.apiMp3 net youtubeUrl
        /\ Mp3Server.apiMp3Download net' youtubeUrl
           = Mp3Server.apiMp3Download net youtubeUrl)
  /\ (videoId <> None ->
      Mp3Server.code (value_of (Mp3Server.apiMp3 net youtubeUrl)) <> 400%nat
      /\ Mp3Server.code (value_of (Mp3Server.apiMp3Download net youtubeUrl)) <> 400%nat).
Proof.
  intros videoId. split.
  - intros H. destruct (apiMp3_without_id net youtubeUrl H) as [A [B [_ [_ [C D]]]]].
    repeat split; try assumption.
    + unfold videoId in H. unfold Mp3Server.apiMp3.
      destruct youtubeUrl as [[|c u]|]; try reflexivity. now rewrite H.
    + unfold videoId in H. unfold Mp3Server.apiMp3Download.
      destruct youtubeUrl as [[|c u]|]; try reflexivity. now rewrite H.
  - intros H. unfold videoId in H. destruct youtubeUrl as [u|]; [|congruence].
    destruct (Mp3Server.extractVideoId u) as [id|] eqn:E; [|congruence].
    destruct (apiMp3_with_id net u id E) as [-> ->]. cbv zeta.
    destruct (succeeded _); split; discriminate.
Qed.

Lemma invalid_reference_stops_witness :
  Mp3Server.extractVideoId (Js.lit "https://youtube.com/watch?v=short") = None
  /\ Mp3Server.code
       (value_of (Mp3Server.apiMp3 Scenario.primaryUp
                    (Some (Js.lit "https://youtube.com/watch?v=short")))) = 400%nat.
Proof.
  split; [reflexivity|].
  exact (proj1 (proj1 (invalid_reference_stops Scenario.primaryUp
                         (Some (Js.lit "https://youtube.com/watch?v=short"))) eq_refl)).
Defined.

Lemma basic_answer_codes missing net y :
  let a := value_of (Mp3Basic.answer missing net y) in
  (Mp3Server.code a = 200%nat \/ Mp3Server.code a = 400%nat \/ Mp3Server.code a = 500%nat)
  /\ (Mp3Server.code a = 200%nat <-> succeeded (Mp3Server.body a) = true).
Proof.
  unfold Mp3Basic.answer. destruct y as [[|c u]|];
    try (cbn; split; [tauto|split; discriminate]).
  destruct (test Mp3Basic.youtubeRegex (c :: u)); cbn [negb];
    [|cbn; split; [tauto|split; discriminate]].
  unfold bind, value_of, succeeded. destruct (Mp3Basic.ytmp3free net (c :: u)) as [r l].
  cbn [fst snd]. destruct (truthy (prop "status" r)) eqn:E; cbn [ret fst Mp3Server.code Mp3Server.body].
  - split; [tauto|]. split; [intros _; exact E|reflexivity].
  - split; [tauto|]. split; [discriminate|]. rewrite E. discriminate.
Qed.

(** X6: the status code of the four audio endpoints is 200, 400 or 500, and
    it is 200 exactly when the body says [status: true]; the note and the
    identifier that [/api/mp3] of src/unnamed/part_000 adds to a failure do
    not change that. *)
Theorem status_code_agrees (net : upstream) (youtubeUrl : option Js.str)
  (a : Mp3Server.response) :
  In a [value_of (Mp3Server.apiMp3 net youtubeUrl);
        value_of (Mp3Server.apiMp3Download net youtubeUrl);
        value_of (Mp3Basic.apiMp3 net youtubeUrl);
        value_of (Mp3Basic.apiMp3Download net youtubeUrl)] ->
  (Mp3Server.code a = 200%nat \/ Mp3Server.code a = 400%nat \/ Mp3Server.code a = 500%nat)
  /\ (Mp3Server.code a = 200%nat <-> succeeded (Mp3Server.body a) = true).
Proof.
  intros Hin.
  assert (S : match youtubeUrl with Some u => Mp3Server.extractVideoId u | None => None end
              = None
              \/ exists u id, youtubeUrl = Some u /\ Mp3Server.extractVideoId u = Some id).
  { destruct youtubeUrl as [u|]; [|now left].
    destruct (Mp3Server.extractVideoId u) as [id|] eqn:E; [right|now left].
    now exists u, id. }
  cbn [In] in Hin. destruct Hin as [<- | [<- | [<- | [<- | []]]]].
  - destruct S as [S | [u [id [-> S]]]].
    + destruct (apiMp3_without_id net youtubeUrl S) as [A [_ [B _]]].
      rewrite A, B. split; [tauto|split; discriminate].
    + rewrite (proj1 (apiMp3_with_id net u id S)). cbv zeta.
      destruct (succeeded (value_of (Mp3Server.getMP3Info net u))) eqn:E;
        cbn [Mp3Server.code Mp3Server.body].
      * split; [tauto|]. split; [intros _; exact E|reflexivity].
      * unfold succeeded. rewrite status_of_spread. fold (succeeded (value_of (Mp3Server.getMP3Info net u))).
        rewrite E. split; [tauto|split; discriminate].
  - destruct S as [S | [u [id [-> S]]]].
    + destruct (apiMp3_without_id net youtubeUrl S) as [_ [A [_ [B _]]]].
      rewrite A, B. split; [tauto|split; discriminate].
    + rewrite (proj2 (apiMp3_with_id net u id S)). cbv zeta.
      cbn [Mp3Server.code Mp3Server.body].
      destruct (succeeded (value_of (Mp3Server.getMP3Info net u))) eqn:E.
      * split; [tauto|]. split; reflexivity.
      * split; [tauto|split; discriminate].
  - apply basic_answer_codes.
  - apply basic_answer_codes.
Qed.

Lemma status_code_agrees_witness :
  Mp3Server.code (value_of (Mp3Server.apiMp3 Scenario.allDown (Some Scenario.testUrl)))
  = 500%nat
  /\ (Mp3Server.code (value_of (Mp3Server.apiMp3 Scenario.allDown (Some Scenario.testUrl)))
      = 200%nat
      <-> succeeded
            (Mp3Server.body
               (value_of (Mp3Server.apiMp3 Scenario.allDown (Some Scenario.testUrl))))
          = true).
Proof.
  split; [reflexivity|].
  exact (proj2 (status_code_agrees Scenario.allDown (Some Scenario.testUrl) _
                  (or_introl eq_refl))).
Defined.

(** X7: when the primary service succeeds, [getMP3Info] returns its result
    and writes what it wrote, and the alternative service is not asked:
    upstream answers that agree at the address of the primary service give
    the same outcome. *)
Theorem primary_success_is_final (net net' : upstream) (url : Js.str) :
  succeeded (value_of (Mp3Server.ytmp3free net url)) = true ->
  (forall videoId, Mp3Server.extractVideoId url = Some videoId ->
     net' (Endpoints.primaryAddress videoId) = net (Endpoints.primaryAddress videoId)) ->
  Mp3Server.getMP3Info net url = Mp3Server.ytmp3free net url
  /\ Mp3Server.getMP3Info net' url = Mp3Server.getMP3Info net url.
Proof.
  intros Hs Hn.
  assert (A : forall n, succeeded (value_of (Mp3Server.ytmp3free n url)) = true ->
                Mp3Server.getMP3Info n url = Mp3Server.ytmp3free n url).
  { intros n H. rewrite getMP3Info_primary by exact H.
    unfold value_of, written. now destruct (Mp3Server.ytmp3free n url). }
  pose proof (ytmp3free_local net net' url Hn) as E.
  split; [now apply A|]. rewrite (A net Hs), (A net'); [exact E|]. now rewrite E.
Qed.

Lemma primary_success_is_final_witness :
  succeeded (value_of (Mp3Server.ytmp3free Scenario.primaryUp Scenario.testUrl)) = true
  /\ Mp3Server.getMP3Info
       (fun address =>
          if strEqb address Scenario.primaryApi
          then Scenario.primaryUp address
          else Rejected (Js.lit "connect ECONNREFUSED"))
       Scenario.testUrl
     = Mp3Server.getMP3Info Scenario.primaryUp Scenario.testUrl.
Proof.
  split; [reflexivity|].
  refine (proj2 (primary_success_is_final Scenario.primaryUp _ Scenario.testUrl eq_refl _)).
  intros videoId H. injection H as <-. reflexivity.
Defined.

(** X8: the 500 answer of [/api/mp3] of src/unnamed/part_000 keeps the
    [status], [msg] and [error] of the failure that [getMP3Info] returned
    and carries the identifier of the request and a note; the 500 answer of
    [/api/mp3/download] is the failure itself. *)
Theorem failure_answer_keeps_reason (net : upstream) (url videoId : Js.str) :
  Mp3Server.extractVideoId url = Some videoId ->
  succeeded (value_of (Mp3Server.getMP3Info net url)) = false ->
  let result := value_of (Mp3Server.getMP3Info net url) in
  let a := value_of (Mp3Server.apiMp3 net (Some url)) in
  Mp3Server.code a = 500%nat
  /\ prop "status" (Mp3Server.body a) = prop "status" result
  /\ prop "msg" (Mp3Server.body a) = prop "msg" result
  /\ prop "error" (Mp3Server.body a) = prop "error" result
  /\ prop "videoId" (Mp3Server.body a) = VStr videoId
  /\ prop "note" (Mp3Server.body a)
     = str "The service might be temporarily down. Please try again later."
  /\ value_of (Mp3Server.apiMp3Download net (Some url))
     = {| Mp3Server.code := 500; Mp3Server.body := result |}.
Proof.
  intros Hid Hs result a. unfold a.
  destruct (apiMp3_with_id net url videoId Hid) as [-> ->]. cbv zeta.
  rewrite Hs. fold result. cbn [Mp3Server.code Mp3Server.body].
  split; [reflexivity|]. split; [apply status_of_spread|].
  assert (O : exists fields, result = VObj fields).
  { unfold result. destruct (succeeded (value_of (Mp3Server.ytmp3free net url))) eqn:E.
    - rewrite getMP3Info_primary in Hs by exact E. cbn [value_of fst] in Hs. congruence.
    - rewrite getMP3Info_fallback by exact E. cbn [value_of fst].
      unfold Mp3Server.alternativeService. destruct (net _) as [data|message];
        [destruct (truthy data && truthy (prop "url" data))|]; eexists; reflexivity. }
  destruct O as [fields ->].
  unfold spread, prop. cbn [fold_left fst snd].
  repeat split.
  - now rewrite !lookup_assign_other by reflexivity.
  - now rewrite !lookup_assign_other by reflexivity.
  - rewrite lookup_assign_other by reflexivity. now rewrite lookup_assign_same.
  - now rewrite lookup_assign_same.
Qed.

Lemma failure_answer_keeps_reason_witness :
  Mp3Server.extractVideoId Scenario.testUrl = Some (Js.lit "ArkDQvI_OPE")
  /\ succeeded (value_of (Mp3Server.getMP3Info Scenario.allDown Scenario.testUrl)) = false
  /\ prop "videoId"
       (Mp3Server.body (value_of (Mp3Server.apiMp3 Scenario.allDown (Some Scenario.testUrl))))
     = str "ArkDQvI_OPE".
Proof.
  split; [reflexivity|]. split; [reflexivity|].
  exact (proj1 (proj2 (proj2 (proj2 (proj2
           (failure_answer_keeps_reason Scenario.allDown Scenario.testUrl
              (Js.lit "ArkDQvI_OPE") eq_refl eq_refl)))))).
Defined.

(** X9: a success that [getMP3Info] returns names one of the two services
    as its source, has a thumbnail -- the one of the answer, or the address
    built from the identifier -- and carries as [videoId] what
    [extractVideoId] found in the address. *)
Theorem resolved_result_shape (net : upstream) (url : Js.str) :
  succeeded (value_of (Mp3Server.getMP3Info net url)) = true ->
  let result := value_of (Mp3Server.getMP3Info net url) in
  (prop "source" result = str "ytmp3free.cc" \/ prop "source" result = str "vevioz.com")
  /\ truthy (prop "thumb" result) = true
  /\ prop "videoId" result = Mp3Server.idValue (Mp3Server.extractVideoId url)
  /\ failureReasons result = [].
Proof.
  intros Hs result. unfold result in *. clear result.
  destruct (succeeded (value_of (Mp3Server.ytmp3free net url))) eqn:E.
  - rewrite getMP3Info_primary in * by exact E. cbn [value_of fst] in *. clear Hs.
    revert E. unfold Mp3Server.ytmp3free.
    destruct (Mp3Server.extractVideoId url) as [videoId|]; [|discriminate].
    destruct (net _) as [data|message]; [|discriminate].
    unfold bind, log. cbn [fst snd].
    destruct (negb (truthy data) || negb (truthy (prop "title" data))
              || negb (truthy (prop "link" data))); [discriminate|].
    intros _. cbn [ret fst]. split; [now left|]. split; [|split; reflexivity].
    change (truthy (Value.or (prop "img" data)
                      (VStr (Mp3Server.thumbOf (Some videoId)))) = true).
    unfold Value.or. destruct (truthy (prop "img" data)) eqn:Ei; [exact Ei|reflexivity].
  - rewrite getMP3Info_fallback in * by exact E. cbn [value_of fst] in *.
    revert Hs. unfold Mp3Server.alternativeService.
    destruct (net _) as [data|message]; [|discriminate].
    destruct (truthy data && truthy (prop "url" data)); [|discriminate].
    intros _. cbn [ret fst]. split; [now right|]. repeat split; reflexivity.
Qed.

Lemma resolved_result_shape_witness :
  succeeded (value_of (Mp3Server.getMP3Info Scenario.primaryDown Scenario.testUrl)) = true
  /\ prop "videoId" (value_of (Mp3Server.getMP3Info Scenario.primaryDown Scenario.testUrl))
     = str "ArkDQvI_OPE".
Proof.
  split; [reflexivity|].
  exact (proj1 (proj2 (proj2 (resolved_result_shape Scenario.primaryDown Scenario.testUrl
                                eq_refl)))).
Defined.

(** X10: [/api/test] answers 200 whatever the primary service says, a
    failure included; its body holds the fixed address and the result of
    the primary service, for which only the upstream answer at the address
    of the identifier [ArkDQvI_OPE] counts. *)
Theorem test_endpoint_always_200 (net : upstream) :
  Mp3Server.code (value_of (Endpoints.apiTest net)) = 200%nat
  /\ Mp3Server.body (value_of (Endpoints.apiTest net))
     = obj [("test_url", str "https://youtu.be/ArkDQvI_OPE");
            ("result", value_of (Mp3Server.ytmp3free net (Js.lit "https://youtu.be/ArkDQvI_OPE")))]
  /\ written (Endpoints.apiTest net)
     = written (Mp3Server.ytmp3free net (Js.lit "https://youtu.be/ArkDQvI_OPE"))
  /\ forall net',
       net' (Endpoints.primaryAddress (Js.lit "ArkDQvI_OPE"))
       = net (Endpoints.primaryAddress (Js.lit "ArkDQvI_OPE")) ->
       Endpoints.apiTest net' = Endpoints.apiTest net.
Proof.
  unfold Endpoints.apiTest. cbv zeta.
  assert (L : forall net',
             net' (Endpoints.primaryAddress (Js.lit "ArkDQvI_OPE"))
             = net (Endpoints.primaryAddress (Js.lit "ArkDQvI_OPE")) ->
             Mp3Server.ytmp3free net' (Js.lit "https://youtu.be/ArkDQvI_OPE")
             = Mp3Server.ytmp3free net (Js.lit "https://youtu.be/ArkDQvI_OPE")).
  { intros net' H. apply ytmp3free_local. intros videoId Hid.
    injection Hid as <-. exact H. }
  unfold bind, value_of, written.
  split; [now destruct (Mp3Server.ytmp3free net _)|].
  split; [now destruct (Mp3Server.ytmp3free net _)|].
  split.
  - destruct (Mp3Server.ytmp3free net _) as [r l]. cbn [ret fst snd]. apply app_nil_r.
  - intros net' H. now rewrite (L net' H).
Qed.

(* ------------------------------------------------------------------ *)
(** ** File names and delivery *)

(** Sanitizing is filtering by the word and white-space classes. *)
Lemma sanitize_filter (title : Js.str) :
  Ytmp3Api.sanitize title = filter (fun c => word c || space c) title.
Proof.
  unfold Ytmp3Api.sanitize, removeAll. rewrite removeAll_class by lia.
  apply filter_ext. intros c. unfold Ytmp3Api.notWordNorSpace. apply negb_involutive.
Qed.

Lemma filter_idem {A} (p : A -> bool) (l : list A) : filter p (filter p l) = filter p l.
Proof.
  induction l as [|a l IH]; cbn [filter]; [reflexivity|].
  destruct (p a) eqn:E; cbn [filter]; [rewrite E, IH|]; auto.
Qed.

(** X11: sanitizing a title a second time changes nothing; the sanitized
    form of two pieces put together is the two sanitized forms put
    together; a sanitized title is never longer than the title, and as long
    only if nothing had to be removed. *)
Theorem sanitize_algebra (a b : Js.str) :
  Ytmp3Api.sanitize (Ytmp3Api.sanitize a) = Ytmp3Api.sanitize a
  /\ Ytmp3Api.sanitize (a ++ b) = Ytmp3Api.sanitize a ++ Ytmp3Api.sanitize b
  /\ (List.length (Ytmp3Api.sanitize a) <= List.length a)%nat
  /\ (List.length (Ytmp3Api.sanitize a) = List.length a -> Ytmp3Api.sanitize a = a).
Proof.
  rewrite !sanitize_filter. split; [apply filter_idem|]. split; [apply filter_app|].
  split; [apply filter_length_le|].
  induction a as [|x a IH]; cbn [filter]; [reflexivity|].
  destruct (word x || space x); cbn [List.length].
  - intros H. f_equal. apply IH. lia.
  - intros H. pose proof (filter_length_le (fun c => word c || space c) a). lia.
Qed.

(** X12: the file name that [/api/download] and [/api/download-mp3] put in
    Content-Disposition holds no double quote and no backslash, so the
    header has its two quotes only, around the name; every character of the
    name is an ASCII letter, a digit, an underscore or white space. *)
Theorem filename_stays_quoted (title : Js.str) :
  let name := Ytmp3Api.sanitize title in
  filter (N.eqb 34) (Ytmp3Api.disposition name) = [34; 34]
  /\ filter (N.eqb 92) (Ytmp3Api.disposition name) = []
  /\ Forall (fun c => c < 128 \/ Js.isWhiteSpace c = true) name
  /\ Ytmp3Api.disposition name
     = Js.lit "attachment; filename=" ++ [34] ++ name ++ Js.lit ".mp3" ++ [34].
Proof.
  intros name.
  assert (K : Forall (fun c => word c || space c = true) name).
  { unfold name. rewrite sanitize_filter. apply filter_keeps. }
  assert (Q : forall q, (word q || space q) = false -> filter (N.eqb q) name = []).
  { intros q Hq. induction K as [|c l Hc _ IH]; [reflexivity|]. cbn [filter].
    destruct (N.eqb_spec q c) as [->|]; [congruence|exact IH]. }
  unfold Ytmp3Api.disposition. rewrite !filter_app.
  rewrite (Q 34 eq_refl), (Q 92 eq_refl).
  split; [reflexivity|]. split; [reflexivity|]. split; [|reflexivity].
  apply (Forall_impl _ (P := fun c => word c || space c = true)); [|exact K].
  intros c Hc. apply orb_prop in Hc as [Hc|Hc]; [left|right; exact Hc].
  unfold word, digit in Hc. bool_arith.
Qed.

(** X13: for an accepted address, a title whose sanitized form may stand in
    a header, and a stream that ends normally, both download endpoints
    answer 200 with the type audio/mpeg and the sanitized title as file
    name, the response ends, and its body is the chunks of the stream in
    order, with nothing added, dropped or reordered and no JSON document.
    For [/api/download] the end of the output of the transcoder and its
    [end] event may come in either order. *)
Theorem stream_delivered_whole (url title : Js.str) (cs : list Ytmp3Api.chunk)
  (r : res) :
  Ytmp3Api.isValidYouTubeUrl url = true ->
  forallb Shape.headerSafe (Ytmp3Api.sanitize title) = true ->
  In r [value_of (Ytmp3Api.download (Some url) (Ytmp3Api.InfoOk title)
                    (map Ytmp3Api.Output cs ++ [Ytmp3Api.OutputEnd; Ytmp3Api.Completed]));
        value_of (Ytmp3Api.download (Some url) (Ytmp3Api.InfoOk title)
                    (map Ytmp3Api.Output cs ++ [Ytmp3Api.Completed; Ytmp3Api.OutputEnd]));
        value_of (Ytmp3Api.downloadMp3 (Some url) (Ytmp3Api.InfoOk title) Ytmp3Api.Chosen
                    {| Ytmp3Api.chunks := cs; Ytmp3Api.outcome := Ytmp3Api.Ended |})] ->
  statusCode r = 200%nat
  /\ headers r
     = [("Content-Disposition", Ytmp3Api.disposition (Ytmp3Api.sanitize title));
        ("Content-Type", Js.lit "audio/mpeg")]
  /\ sent r = map (fun c => Bytes (Ytmp3Api.bytes c)) cs
  /\ audio r = flat_map Ytmp3Api.bytes cs
  /\ documents r = []
  /\ finished r = true.
Proof.
  intros Hv Ht Hin.
  set (r0 := Shape.opened (Ytmp3Api.sanitize title)).
  assert (Hf : finished r0 = false) by reflexivity.
  assert (T : forall tail,
             Shape.faultless tail = true -> Shape.closes tail = true ->
             Shape.output tail = [] ->
             let r1 := value_of (Ytmp3Api.transcode (map Ytmp3Api.Output cs ++ tail) r0) in
             statusCode r1 = 200%nat /\ headers r1 = headers r0
             /\ sent r1 = map (fun c => Bytes (Ytmp3Api.bytes c)) cs
             /\ finished r1 = true).
  { intros tail Hq Hc Ho r1.
    assert (Hall : Shape.faultless (map Ytmp3Api.Output cs ++ tail) = true).
    { rewrite faultless_app, Hq, andb_true_r. clear. now induction cs. }
    destruct (transcode_stream _ r0 Hall Hf) as [A [B [C [D _]]]].
    fold r1 in A, B, C, D. rewrite A, B, C, D.
    assert (Eo : Shape.output (map Ytmp3Api.Output cs ++ tail) = cs).
    { clear - Ho. induction cs as [|c cs IH]; [exact Ho|].
      cbn [map app Shape.output]. now rewrite IH. }
    assert (Ec : Shape.closes (map Ytmp3Api.Output cs ++ tail) = true).
    { unfold Shape.closes in *. rewrite existsb_app, Hc. apply orb_true_r. }
    rewrite Eo, Ec. repeat split. }
  assert (E : statusCode r = 200%nat /\ headers r = headers r0
              /\ sent r = map (fun c => Bytes (Ytmp3Api.bytes c)) cs
              /\ finished r = true).
  { cbn [In] in Hin. destruct Hin as [<- | [<- | [<- | []]]].
    - rewrite download_opened by assumption. now apply T.
    - rewrite download_opened by assumption. now apply T.
    - rewrite downloadMp3_opened by assumption. cbn [Ytmp3Api.outcome Ytmp3Api.chunks].
      cbn [ret value_of fst]. fold r0. unfold finish.
      rewrite pipe_finished, Hf. cbn [statusCode headers sent finished].
      rewrite pipe_statusCode, pipe_headers, pipe_sent by exact Hf. repeat split. }
  destruct E as [A [B [C D]]]. unfold audio, documents.
  rewrite A, B, C, D, audio_bytes, documents_bytes. repeat split.
Qed.

Lemma stream_delivered_whole_witness :
  Ytmp3Api.isValidYouTubeUrl Scenario.testUrl = true
  /\ forallb Shape.headerSafe (Ytmp3Api.sanitize (Js.lit "Test: Movie? #1")) = true
  /\ audio (value_of (Ytmp3Api.download (Some Scenario.testUrl)
                        (Ytmp3Api.InfoOk (Js.lit "Test: Movie? #1"))
                        (map Ytmp3Api.Output Scenario.twoChunks
                         ++ [Ytmp3Api.OutputEnd; Ytmp3Api.Completed])))
     = [73; 68; 51; 255; 251].
Proof.
  split; [reflexivity|]. split; [reflexivity|].
  exact (proj1 (proj2 (proj2 (proj2
           (stream_delivered_whole Scenario.testUrl (Js.lit "Test: Movie? #1")
              Scenario.twoChunks _ eq_refl eq_refl
              (or_introl eq_refl)))))).
Defined.

(** *** One answer, of one kind *)

Section Separate.

Import Ytmp3Api.

Import Shape.

Lemma kept_separate r :
  kept r -> (List.length (documents r) <= 1)%nat /\ (documents r <> [] -> audio r = []).
Proof.
  intros [_ [Hd | [v [Hs _]]]].
  - rewrite Hd. split; [simpl; lia|congruence].
  - unfold documents, audio. rewrite Hs. split; [simpl; lia|reflexivity].
Qed.

Lemma kept_json v c : kept (json v (status c fresh)).
Proof. split; [discriminate|]. right. exists v. repeat split. Qed.

Lemma kept_opened title : kept (Shape.opened title).
Proof. split; [reflexivity|now left]. Qed.

Lemma kept_onError label reply message r :
  kept r -> kept (value_of (onError label reply message r)).
Proof.
  intros H. unfold onError. rewrite bind_value.
  destruct (headersSent r) eqn:E; cbn [negb ret value_of fst]; [exact H|].
  destruct H as [H1 _].
  split; [discriminate|]. right. cbn [json status sent finished headersSent].
  rewrite (H1 E). eexists. repeat split.
Qed.

Lemma kept_onThrow message r : kept r -> kept (value_of (onThrow message r)).
Proof.
  intros H. unfold onThrow. rewrite bind_value.
  destruct (headersSent r) eqn:E; cbn [negb ret value_of fst]; [exact H|].
  destruct H as [H1 _].
  split; [discriminate|]. right. cbn [json status sent finished headersSent].
  rewrite (H1 E). eexists. repeat split.
Qed.

Lemma kept_write data r : kept r -> kept (write data r).
Proof.
  intros H. unfold write. destruct (finished r) eqn:E; [exact H|].
  destruct H as [H1 H2].
  split; [discriminate|]. left. destruct H2 as [Hd | [v [_ [Hf _]]]]; [|congruence].
  unfold documents in *. cbn [sent]. rewrite flat_map_app, Hd. reflexivity.
Qed.

Lemma kept_finish r : kept r -> kept (finish r).
Proof.
  intros H. unfold finish. destruct (finished r) eqn:E; [exact H|].
  destruct H as [H1 H2].
  split; [discriminate|]. left. destruct H2 as [Hd | [v [_ [Hf _]]]]; [|congruence].
  exact Hd.
Qed.

Lemma kept_pipe cs : forall r, kept r -> kept (pipe cs r).
Proof.
  unfold pipe. induction cs as [|c cs IH]; intros r H; [exact H|].
  cbn [fold_left]. apply IH. now apply kept_write.
Qed.

Lemma kept_transcode es : forall r, kept r -> kept (value_of (transcode es r)).
Proof.
  induction es as [|e es IH]; intros r H; [exact H|].
  cbn [transcode]. rewrite bind_value. apply IH.
  destruct e as [c| |message|]; cbn [react].
  - now apply kept_write.
  - now apply kept_finish.
  - now apply kept_onError.
  - now rewrite bind_value.
Qed.

(** The response of each endpoint, whatever the request and whatever
    happens to it. *)
Lemma kept_download url i es : kept (value_of (download url i es)).
Proof.
  unfold download. destruct url as [[|c u]|]; try apply kept_json.
  destruct (isValidYouTubeUrl (c :: u)); cbn [negb]; [|apply kept_json].
  destruct i as [title|message]; [|apply kept_onThrow, (kept_opened [])].
  rewrite audioHeaders_fresh. destruct (forallb headerChar (sanitize title)).
  - apply kept_transcode, kept_opened.
  - apply kept_onThrow, (kept_opened []).
Qed.

Lemma kept_downloadMp3 url i format r : kept (value_of (downloadMp3 url i format r)).
Proof.
  unfold downloadMp3. destruct url as [[|c u]|]; try apply kept_json.
  destruct (isValidYouTubeUrl (c :: u)); cbn [negb]; [|apply kept_json].
  destruct i as [title|message]; [|apply kept_onThrow, (kept_opened [])].
  destruct format as [| |message];
    [|apply kept_json|apply kept_onThrow, (kept_opened [])].
  rewrite audioHeaders_fresh. destruct (forallb headerChar (sanitize title)).
  - destruct (outcome r) as [|message].
    + apply kept_finish, kept_pipe, kept_opened.
    + apply kept_onError, kept_pipe, kept_opened.
  - apply kept_onThrow, (kept_opened []).
Qed.

Lemma separate_download url i es :
  (List.length (documents (value_of (download url i es))) <= 1)%nat
  /\ (documents (value_of (download url i es)) <> []
      -> audio (value_of (download url i es)) = []).
Proof. apply kept_separate, kept_download. Qed.

Lemma separate_downloadMp3 url i format r :
  (List.length (documents (value_of (downloadMp3 url i format r))) <= 1)%nat
  /\ (documents (value_of (downloadMp3 url i format r)) <> []
      -> audio (value_of (downloadMp3 url i format r)) = []).
Proof. apply kept_separate, kept_downloadMp3. Qed.

End Separate.

(** X14: whatever the request, the outcome of [ytdl.getInfo] and of
    [ytdl.chooseFormat], the title, the events of the transcoder and the
    run of the source stream, a response of [/api/download] or
    [/api/download-mp3] holds at most one JSON document, and one that holds
    a JSON document holds no audio. *)
Theorem json_and_audio_never_mixed (url : option Js.str) (i : Ytmp3Api.info)
  (format : Ytmp3Api.choice) (es : list Ytmp3Api.event) (run : Ytmp3Api.run) (r : res) :
  In r [value_of (Ytmp3Api.download url i es);
        value_of (Ytmp3Api.downloadMp3 url i format run)] ->
  (List.length (documents r) <= 1)%nat /\ (documents r <> [] -> audio r = []).
Proof.
  intros Hin. cbn [In] in Hin. destruct Hin as [<- | [<- | []]].
  - apply separate_download.
  - apply separate_downloadMp3.
Qed.

Lemma json_and_audio_never_mixed_witness :
  documents (value_of (Ytmp3Api.download (Some Scenario.testUrl)
                         (Ytmp3Api.InfoOk (Js.lit "T")) Scenario.cannotStart)) <> []
  /\ audio (value_of (Ytmp3Api.download (Some Scenario.testUrl)
                        (Ytmp3Api.InfoOk (Js.lit "T")) Scenario.cannotStart)) = [].
Proof.
  assert (H : documents (value_of (Ytmp3Api.download (Some Scenario.testUrl)
                           (Ytmp3Api.InfoOk (Js.lit "T")) Scenario.cannotStart)) <> [])
    by discriminate.
  split; [exact H|].
  exact (proj2 (json_and_audio_never_mixed (Some Scenario.testUrl) (Ytmp3Api.InfoOk (Js.lit "T"))
                  Ytmp3Api.Chosen Scenario.cannotStart Scenario.failsAtOnce _
                  (or_introl eq_refl)) H).
Defined.

(** X15: a request without an address, or with one that
    [isValidYouTubeUrl] rejects, is answered 400 with a JSON error by both
    download endpoints before [ytdl] is asked anything: the answer does not
    depend on what [getInfo], [chooseFormat], the transcoder or the stream
    would do, no header of the download is set and nothing is written to
    the console. *)
Theorem rejected_before_source (url : option Js.str) (i i' : Ytmp3Api.info)
  (format format' : Ytmp3Api.choice) (es es' : list Ytmp3Api.event)
  (run run' : Ytmp3Api.run) :
  match url with Some u => Ytmp3Api.isValidYouTubeUrl u | None => false end = false ->
  Ytmp3Api.download url i es = Ytmp3Api.download url i' es'
  /\ Ytmp3Api.downloadMp3 url i format run = Ytmp3Api.downloadMp3 url i' format' run'
  /\ Ytmp3Api.downloadMp3 url i format run = Ytmp3Api.download url i es
  /\ statusCode (value_of (Ytmp3Api.download url i es)) = 400%nat
  /\ headers (value_of (Ytmp3Api.download url i es))
     = [("Content-Type", Js.lit "application/json; charset=utf-8")]
  /\ (exists v, sent (value_of (Ytmp3Api.download url i es)) = [Json v])
  /\ written (Ytmp3Api.download url i es) = [].
Proof.
  intros H. unfold Ytmp3Api.download, Ytmp3Api.downloadMp3.
  destruct url as [[|c u]|].
  - repeat split. eexists. reflexivity.
  - rewrite H. cbn [negb]. repeat split. eexists. reflexivity.
  - repeat split. eexists. reflexivity.
Qed.

Lemma rejected_before_source_witness :
  Ytmp3Api.isValidYouTubeUrl (Js.lit "https://www.youtube.com/embed/KK9bwTlAvgo") = false
  /\ statusCode
       (value_of (Ytmp3Api.download (Some (Js.lit "https://www.youtube.com/embed/KK9bwTlAvgo"))
                    (Ytmp3Api.InfoOk (Js.lit "T")) Scenario.sourceFailsLate)) = 400%nat.
Proof.
  split; [reflexivity|].
  exact (proj1 (proj2 (proj2 (proj2
           (rejected_before_source (Some (Js.lit "https://www.youtube.com/embed/KK9bwTlAvgo"))
              (Ytmp3Api.InfoOk (Js.lit "T")) (Ytmp3Api.InfoOk (Js.lit "T"))
              Ytmp3Api.Chosen Ytmp3Api.Chosen
              Scenario.sourceFailsLate Scenario.sourceFailsLate
              Scenario.failsLate Scenario.failsLate eq_refl))))).
Defined.

(* ------------------------------------------------------------------ *)
(** ** Trimmed texts *)

Lemma trimStart_head (s : Js.str) :
  match Js.trimStart s with
  | [] => True
  | c :: _ => Js.isWhiteSpace c = false
  end.
Proof.
  induction s as [|a s IH]; cbn [Js.trimStart]; [exact I|].
  destruct (Js.isWhiteSpace a) eqn:E; [exact IH|exact E].
Qed.

Lemma trimStart_suffix (s : Js.str) :
  exists a, s = a ++ Js.trimStart s /\ forallb Js.isWhiteSpace a = true.
Proof.
  induction s as [|x s [a [IH Ha]]]; cbn [Js.trimStart].
  - now exists [].
  - destruct (Js.isWhiteSpace x) eqn:E.
    + exists (x :: a). cbn [forallb app]. rewrite E, Ha. split; [congruence|reflexivity].
    + now exists [].
Qed.

(** White space in front of a text that ends with another character goes,
    the last character stays. *)
Lemma trimStart_last (s : Js.str) (h : N) :
  Js.isWhiteSpace h = false -> exists w, Js.trimStart (s ++ [h]) = w ++ [h].
Proof.
  intros Hh. induction s as [|x s [w IH]]; cbn [app Js.trimStart].
  - rewrite Hh. now exists [].
  - destruct (Js.isWhiteSpace x); [now exists w|now exists (x :: s)].
Qed.

(** A trimmed text has no white space at either end. *)
Lemma trim_bare (s : Js.str) : Shape.bare (Js.trim s) = true.
Proof.
  unfold Shape.bare, Js.trim, Js.trimEnd. rewrite rev_involutive.
  pose proof (trimStart_head s) as H1.
  pose proof (trimStart_head (rev (Js.trimStart s))) as H2.
  apply andb_true_intro. split.
  - destruct (Js.trimStart s) as [|h t]; [reflexivity|].
    cbn [rev]. destruct (trimStart_last (rev t) h H1) as [w ->].
    rewrite rev_app_distr. cbn [rev app]. now rewrite H1.
  - destruct (Js.trimStart (rev (Js.trimStart s))); [reflexivity|]. now rewrite H2.
Qed.

(** A trimmed text is a piece of the text. *)
Lemma trim_piece (s : Js.str) : exists a b, s = a ++ Js.trim s ++ b.
Proof.
  unfold Js.trim, Js.trimEnd.
  destruct (trimStart_suffix s) as [a [Ea _]].
  destruct (trimStart_suffix (rev (Js.trimStart s))) as [b [Eb _]].
  exists a, (rev b). rewrite <- rev_app_distr, <- Eb, rev_involutive. exact Ea.
Qed.

Lemma forallb_trim (p : N -> bool) (s : Js.str) :
  forallb p s = true -> forallb p (Js.trim s) = true.
Proof.
  intros H. destruct (trim_piece s) as [a [b E]]. rewrite E in H.
  rewrite !forallb_app in H. apply andb_prop in H as [_ H]. now apply andb_prop in H.
Qed.

(* ------------------------------------------------------------------ *)
(** ** Years and labelled values *)

(** X16: the year [extractYear] finds in a title is four digits that begin
    with 19 or 20 and stand in the title; a title that holds such digits
    has a year. *)
Theorem year_is_four_digits (title : Js.str) :
  (forall year, MovieApi.extractYear title = Some year ->
     exists century tens before after,
       (century = Js.lit "19" \/ century = Js.lit "20")
       /\ List.length tens = 2%nat /\ forallb digit tens = true
       /\ year = century ++ tens
       /\ title = before ++ year ++ after)
  /\ (forall century tens before after,
        century = Js.lit "19" \/ century = Js.lit "20" ->
        List.length tens = 2%nat -> forallb digit tens = true ->
        title = before ++ century ++ tens ++ after ->
        MovieApi.extractYear title <> None).
Proof.
  split.
  - intros year H. unfold MovieApi.extractYear, exec in H.
    destruct (execFrom _ _ title) as [res|] eqn:E; [|discriminate]. injection H as <-.
    apply execFrom_inv in E as [z [y [-> E]]].
    unfold matchAt, MovieApi.yearRegex in E. cbn [m] in E.
    assert (S : exists century t c1,
               (century = Js.lit "19" \/ century = Js.lit "20") /\ y = century ++ t
               /\ m (List.length (z ++ y)) (rep 2 (Cls digit)) t c1
                    (fun s' c => Some (consumed y s', c)) = Some res).
    { destruct (m _ (Lit "19") y [] _) as [r|] eqn:E1.
      - injection E as ->. apply m_Lit_inv in E1 as [t [-> E1]].
        exists (Js.lit "19"), t. eexists. split; [now left|]. split; [reflexivity|exact E1].
      - apply m_Lit_inv in E as [t [-> E]].
        exists (Js.lit "20"), t. eexists. split; [now right|]. split; [reflexivity|exact E]. }
    destruct S as [century [t [c1 [Hc [-> S]]]]].
    apply m_rep_cls_inv in S as [x [rest [-> [Hl [Hx Hk]]]]].
    injection Hk as <-. cbn [fst].
    replace (consumed (century ++ x ++ rest) rest) with (century ++ x)
      by (now rewrite app_assoc, consumed_app).
    exists century, x, z, rest. repeat split; try assumption. now rewrite <- app_assoc.
  - intros century tens before after Hc Hl Hd ->.
    unfold MovieApi.extractYear, exec.
    destruct (execFrom_some MovieApi.yearRegex
                (List.length (before ++ century ++ tens ++ after)) before
                (century ++ tens ++ after)
                (consumed (century ++ tens ++ after) after,
                 [(1%nat, century)])) as [res' ->]; [|discriminate].
    unfold matchAt, MovieApi.yearRegex. cbn [m]. rewrite <- Hl.
    destruct Hc as [-> | ->].
    + rewrite m_Lit_app, m_rep_cls by exact Hd. now rewrite consumed_app.
    + rewrite m_Lit.
      assert (F : Js.startsWith (Js.lit "20" ++ tens ++ after) (Js.lit "19") = false)
        by reflexivity.
      rewrite F. rewrite m_Lit_app, m_rep_cls by exact Hd. now rewrite consumed_app.
Qed.

(** What the group of the pattern of [extractValue] captures. *)
Lemma value_group_inv key text res :
  exec (MovieApi.valueRegex key) text = Some res ->
  exists w, group 1 res = Some w /\ w <> [] /\ forallb MovieApi.notNewline w = true
            /\ exists before after, text = before ++ w ++ after.
Proof.
  unfold exec. intros E. apply execFrom_inv in E as [z [y [-> E]]].
  unfold matchAt, MovieApi.valueRegex, plus in E. cbn [m] in E.
  apply m_reach in E as [z1 [y1 [c1 [-> E]]]].
  apply starC_inv in E as [z2 [y2 [-> [_ E]]]].
  destruct y2 as [|a y2]; [discriminate|].
  destruct (MovieApi.notNewline a) eqn:Ea; [|discriminate].
  apply starC_inv in E as [x [rest [-> [Hx E]]]].
  injection E as <-. unfold group. cbn [snd capture Nat.eqb].
  change (a :: x ++ rest) with ((a :: x) ++ rest). rewrite consumed_app.
  exists (a :: x). split; [reflexivity|]. split; [discriminate|].
  split; [cbn [forallb]; now rewrite Ea, Hx|].
  exists (z ++ z1 ++ z2), rest. now rewrite <- !app_assoc.
Qed.

(** X17: the value [extractValue] returns for a label has no line feed and
    no white space at either end, and it stands in the text. *)
Theorem labelled_value_is_one_line (text : Js.str) (key : string) (v : Js.str) :
  MovieApi.extractValue text key = Some v ->
  forallb MovieApi.notNewline v = true
  /\ Shape.bare v = true
  /\ exists before after, text = before ++ v ++ after.
Proof.
  unfold MovieApi.extractValue. intros H.
  destruct (exec (MovieApi.valueRegex key) text) as [res|] eqn:E; [|discriminate].
  apply value_group_inv in E as [w [Hg [_ [Hw [before [after ->]]]]]].
  rewrite Hg in H. cbn [option_map] in H. injection H as <-.
  split; [now apply forallb_trim|]. split; [apply trim_bare|].
  destruct (trim_piece w) as [a [b Ew]].
  exists (before ++ a), (b ++ after). rewrite Ew at 1. now rewrite <- !app_assoc.
Qed.

Lemma labelled_value_is_one_line_witness :
  MovieApi.extractValue (Js.lit "quality:   HD 720p  ") "Quality:" = Some (Js.lit "HD 720p")
  /\ Shape.bare (Js.lit "HD 720p") = true.
Proof.
  assert (H : MovieApi.extractValue (Js.lit "quality:   HD 720p  ") "Quality:"
              = Some (Js.lit "HD 720p")) by reflexivity.
  split; [exact H|]. exact (proj1 (proj2 (labelled_value_is_one_line _ _ _ H))).
Defined.

(* ------------------------------------------------------------------ *)
(** ** The results of the catalog endpoints *)

Lemma absolute_http (href : Js.str) :
  Js.startsWith (MovieApi.absolute href) (Js.lit "http") = true.
Proof.
  unfold MovieApi.absolute. destruct (Js.startsWith href (Js.lit "http")) eqn:E;
    [exact E|reflexivity].
Qed.

Lemma orNull_nonempty (x : option Js.str) : MovieApi.orNull x <> Some [].
Proof. destruct x as [[|c s]|]; discriminate. Qed.

Lemma includes_app_r (a b needle : Js.str) :
  Js.includes b needle = true -> Js.includes (a ++ b) needle = true.
Proof.
  intros H. induction a as [|x a IH]; [exact H|].
  cbn [app Js.includes]. rewrite IH. apply orb_true_r.
Qed.

Section Catalog.

Context {cheerio : Cheerio} {casing : Casing}.

Lemma primaryBlock_sound (e : element) (m : MovieApi.movie) :
  In m (MovieApi.primaryBlock e) ->
  Js.nonEmpty (MovieApi.title m) = true
  /\ Shape.bare (MovieApi.title m) = true
  /\ Js.startsWith (MovieApi.link m) (Js.lit "http") = true
  /\ MovieApi.image m <> Some []
  /\ MovieApi.year m = MovieApi.extractYear (MovieApi.title m).
Proof.
  unfold MovieApi.primaryBlock.
  destruct (MovieApi.firstAttr _ "href") as [[|c l]|]; try contradiction.
  destruct (Js.nonEmpty _) eqn:E; [|contradiction].
  intros [<- | []]. cbn [MovieApi.title MovieApi.link MovieApi.image MovieApi.year].
  repeat split; auto using trim_bare, absolute_http, orNull_nonempty.
Qed.

Lemma secondaryBlock_sound (e : element) (m : MovieApi.movie) :
  In m (MovieApi.secondaryBlock e) ->
  (5 < List.length (MovieApi.title m))%nat
  /\ Shape.bare (MovieApi.title m) = true
  /\ Js.startsWith (MovieApi.link m) (Js.lit "http") = true
  /\ Js.includes (MovieApi.link m) (Js.lit "/movie/") = true
  /\ MovieApi.image m = None
  /\ MovieApi.year m = MovieApi.extractYear (MovieApi.title m).
Proof.
  unfold MovieApi.secondaryBlock.
  destruct (attr e "href") as [[|c h]|]; try contradiction.
  destruct (Js.nonEmpty (Js.trim (text e))) eqn:E1; [|contradiction].
  destruct (Js.includes (c :: h) (Js.lit "/movie/")) eqn:E2; [|contradiction].
  destruct (Nat.ltb 5 _) eqn:E3; [|contradiction].
  intros [<- | []]. cbn [MovieApi.title MovieApi.link MovieApi.image MovieApi.year].
  apply Nat.ltb_lt in E3.
  repeat split; auto using trim_bare, absolute_http.
  unfold MovieApi.absolute. destruct (Js.startsWith _ _); [exact E2|].
  now apply includes_app_r.
Qed.

(** X18: every entry of [movies] in [/api/search] has a title that is not
    empty and has no white space at either end, a link that starts with
    [http] (a relative target is put after the base address), an image
    that is [null] or a non-empty string, and as year what [extractYear]
    finds in the title.  The entries come from one pass only: from the
    primary one, or, when that found nothing, from the links to
    [/movie/] with a text longer than 5. *)
Theorem search_entries_wellformed (doc : document) :
  (forall m, In m (MovieApi.searchMovies doc) ->
     Js.nonEmpty (MovieApi.title m) = true
     /\ Shape.bare (MovieApi.title m) = true
     /\ Js.startsWith (MovieApi.link m) (Js.lit "http") = true
     /\ MovieApi.image m <> Some []
     /\ MovieApi.year m = MovieApi.extractYear (MovieApi.title m))
  /\ (MovieApi.searchMovies doc = MovieApi.primaryPass doc
      \/ (MovieApi.primaryPass doc = []
          /\ MovieApi.searchMovies doc = MovieApi.secondaryPass doc
          /\ forall m, In m (MovieApi.searchMovies doc) ->
               (5 < List.length (MovieApi.title m))%nat
               /\ Js.includes (MovieApi.link m) (Js.lit "/movie/") = true
               /\ MovieApi.image m = None /\ MovieApi.description m = [])).
Proof.
  unfold MovieApi.searchMovies.
  destruct (MovieApi.primaryPass doc) as [|m0 ms] eqn:Ep; cbn [List.length Nat.eqb app].
  - split.
    + intros m Hm. apply in_flat_map in Hm as [e [_ Hm]].
      pose proof (secondaryBlock_sound e m Hm) as [Hl [Hb [Hs [_ [Hi Hy]]]]].
      repeat split; try assumption.
      * destruct (MovieApi.title m); [simpl in Hl; lia|reflexivity].
      * rewrite Hi. discriminate.
    + right. split; [reflexivity|]. split; [reflexivity|].
      intros m Hm. apply in_flat_map in Hm as [e [_ Hm]].
      pose proof (secondaryBlock_sound e m Hm) as [Hl [_ [_ [Hk _]]]].
      pose proof (secondaryBlock_shape e m Hm) as Hshape.
      repeat split; first [exact Hl | exact Hk | apply Hshape].
  - split; [|now left].
    intros m Hm. rewrite <- Ep in Hm. apply in_flat_map in Hm as [e [_ Hm]].
    now apply primaryBlock_sound in Hm.
Qed.

Lemma latestBlock_primary (e : element) :
  map (fun l => (Endpoints.latestTitle l, Endpoints.latestLink l,
                 Endpoints.latestImage l, Endpoints.latestYear l))
      (Endpoints.latestBlock e)
  = map (fun m => (MovieApi.title m, MovieApi.link m, MovieApi.image m, MovieApi.year m))
        (MovieApi.primaryBlock e).
Proof.
  unfold Endpoints.latestBlock, MovieApi.primaryBlock.
  destruct (MovieApi.firstAttr _ "href") as [[|c l]|]; try reflexivity.
  destruct (Js.nonEmpty _); reflexivity.
Qed.

(** X19: on the same page, [/api/latest] lists the blocks of the primary
    pass of [/api/search], with the same title, link, image and year, in
    the same order; it has no second pass, so a page without such blocks
    gives an empty list whatever links it holds. *)
Theorem latest_is_primary_pass (doc : document) :
  map (fun l => (Endpoints.latestTitle l, Endpoints.latestLink l,
                 Endpoints.latestImage l, Endpoints.latestYear l))
      (Endpoints.latestMovies doc)
  = map (fun m => (MovieApi.title m, MovieApi.link m, MovieApi.image m, MovieApi.year m))
        (MovieApi.primaryPass doc)
  /\ List.length (Endpoints.latestMovies doc) = List.length (MovieApi.primaryPass doc)
  /\ (MovieApi.primaryPass doc = [] -> Endpoints.latestMovies doc = []).
Proof.
  assert (E : map (fun l => (Endpoints.latestTitle l, Endpoints.latestLink l,
                             Endpoints.latestImage l, Endpoints.latestYear l))
                  (Endpoints.latestMovies doc)
              = map (fun m => (MovieApi.title m, MovieApi.link m, MovieApi.image m,
                               MovieApi.year m))
                    (MovieApi.primaryPass doc)).
  { unfold Endpoints.latestMovies, MovieApi.primaryPass.
    induction (select doc ".post-box, .movie-item, article, .post") as [|e es IH];
      [reflexivity|].
    cbn [flat_map]. now rewrite !map_app, latestBlock_primary, IH. }
  split; [exact E|].
  assert (L : List.length (Endpoints.latestMovies doc)
              = List.length (MovieApi.primaryPass doc)).
  { apply (f_equal (@List.length _)) in E. now rewrite !length_map in E. }
  split; [exact L|]. intros H. rewrite H in L.
  destruct (Endpoints.latestMovies doc); [reflexivity|discriminate].
Qed.

(** X20: every entry of [downloadLinks] in [/api/movie] has a target and a
    provider that are not empty and a type among the six that
    [classifyLinkType] knows; a target on drive.google.com is
    [google_drive] whatever the text says, one on mega.nz and not on
    drive.google.com is [mega], and the type is [stream] only for a text
    that mentions watch. *)
Theorem download_entries_wellformed (doc : document) (d : MovieApi.download) :
  In d (MovieApi.downloadLinks (MovieApi.movieDetails doc)) ->
  Js.nonEmpty (MovieApi.url d) = true
  /\ Js.nonEmpty (MovieApi.provider d) = true
  /\ In (MovieApi.type d) Shape.linkTypes
  /\ (Js.includes (MovieApi.url d) (Js.lit "drive.google.com") = true ->
      MovieApi.type d = "google_drive")
  /\ (Js.includes (MovieApi.url d) (Js.lit "drive.google.com") = false ->
      Js.includes (MovieApi.url d) (Js.lit "mega.nz") = true ->
      MovieApi.type d = "mega")
  /\ (MovieApi.type d = "stream" ->
      Js.includes (MovieApi.provider d) (Js.lit "watch") = true).
Proof.
  cbn [MovieApi.movieDetails MovieApi.downloadLinks]. intros H.
  apply in_flat_map in H as [e [_ H]]. unfold MovieApi.downloadEntry in H.
  destruct (attr e "href") as [[|c h]|]; try contradiction.
  destruct (MovieApi.mentionsDownload _ _); [|contradiction].
  destruct H as [<- | []]. cbn [MovieApi.url MovieApi.provider MovieApi.type].
  set (t := toLowerCase (Js.trim (text e))).
  split; [reflexivity|]. split; [destruct t; reflexivity|].
  unfold MovieApi.classifyLinkType, Shape.linkTypes.
  destruct (Js.includes (c :: h) (Js.lit "drive.google.com")) eqn:E1.
  { repeat split; try (cbn; tauto); try discriminate. }
  destruct (Js.includes (c :: h) (Js.lit "mega.nz")) eqn:E2.
  { repeat split; try (cbn; tauto); try discriminate. }
  destruct (Js.includes (c :: h) (Js.lit "mediafire.com")) eqn:E3.
  { repeat split; try (cbn; tauto); try discriminate. }
  destruct (Js.includes (c :: h) (Js.lit "dropbox.com")) eqn:E4.
  { repeat split; try (cbn; tauto); try discriminate. }
  destruct (Js.includes t (Js.lit "watch")) eqn:E5.
  { repeat split; try (cbn; tauto); try discriminate.
    intros _. destruct t; [discriminate|exact E5]. }
  repeat split; try (cbn; tauto); discriminate.
Qed.

End Catalog.

(* ------------------------------------------------------------------ *)
(** ** The details of a film *)

Lemma in_assign k v k' v' fields :
  In (k', v') (assign k v fields) -> In (k', v') fields \/ v' = v.
Proof.
  induction fields as [|[k0 v0] fields IH]; cbn [assign].
  - intros [E | []]. right. congruence.
  - destruct (strEqb k k0); cbn [In].
    + intros [E | H]; [right; congruence|left; now right].
    + intros [E | H]; [left; now left|]. destruct (IH H); [left; now right|now right].
Qed.

Lemma assign_keeps_keys k v fields :
  NoDup (map fst fields) -> incl (map fst fields) Shape.detailKeys ->
  In k Shape.detailKeys ->
  NoDup (map fst (assign k v fields))
  /\ incl (map fst (assign k v fields)) Shape.detailKeys.
Proof.
  intros Hn Hi Hk. rewrite keys_assign.
  destruct (existsb (strEqb k) (map fst fields)) eqn:E; [now split|].
  split.
  - apply NoDup_app; [exact Hn|constructor; [intros []|constructor]|].
    intros x Hx [<- | []]. apply existsb_strEqb in Hx. congruence.
  - apply incl_app; [exact Hi|]. intros x [<- | []]. exact Hk.
Qed.

Lemma detailValue_extract paragraph key :
  Shape.detailValue (MovieApi.fieldValue (MovieApi.extractValue paragraph key)) = true.
Proof.
  unfold MovieApi.extractValue.
  destruct (exec (MovieApi.valueRegex key) paragraph) as [res|] eqn:E; [|reflexivity].
  apply value_group_inv in E as [w [Hg [_ [Hw _]]]]. rewrite Hg.
  cbn [option_map MovieApi.fieldValue Shape.detailValue]. now apply forallb_trim.
Qed.

Section Details.

Context {cheerio : Cheerio} {casing : Casing}.

Lemma readLabels_keeps fields paragraph :
  Shape.wellKept fields -> Shape.wellKept (MovieApi.readLabels fields paragraph).
Proof.
  unfold MovieApi.readLabels.
  assert (G : forall ls, incl (map (fun l => Js.lit (snd l)) ls) Shape.detailKeys ->
                forall fs, Shape.wellKept fs ->
                  Shape.wellKept (fold_left
                    (fun acc l =>
                       if Js.includes paragraph (Js.lit (fst l))
                       then assign (Js.lit (snd l))
                              (MovieApi.fieldValue (MovieApi.extractValue paragraph (fst l)))
                              acc
                       else acc) ls fs)).
  { induction ls as [|l ls IH]; intros Hl fs Hf; [exact Hf|]. cbn [fold_left].
    apply IH; [intros x Hx; apply Hl; now right|].
    destruct (Js.includes paragraph (Js.lit (fst l))); [|exact Hf].
    destruct Hf as [Hn [Hi Hv]].
    assert (Hk : In (Js.lit (snd l)) Shape.detailKeys) by (apply Hl; now left).
    destruct (assign_keeps_keys (Js.lit (snd l))
                (MovieApi.fieldValue (MovieApi.extractValue paragraph (fst l)))
                fs Hn Hi Hk) as [Hn' Hi'].
    split; [exact Hn'|]. split; [exact Hi'|].
    intros k v Hin. apply in_assign in Hin as [Hin | ->]; [now apply (Hv k)|].
    apply detailValue_extract. }
  apply G. intros x Hx. exact Hx.
Qed.

(** X21: in the answer of [/api/movie], [details] has each of its keys
    once, all among year, genre, director, cast, quality, size and
    duration, so at most seven; each value is [null] or a string without a
    line feed. *)
Theorem details_are_wellkept (doc : document) :
  let fields := MovieApi.fields (MovieApi.movieDetails doc) in
  NoDup (map fst fields)
  /\ (forall k v, In (k, v) fields ->
        In k Shape.detailKeys /\ Shape.detailValue v = true)
  /\ (List.length fields <= 7)%nat.
Proof.
  cbn [MovieApi.movieDetails MovieApi.fields]. cbv zeta.
  assert (W : forall ps fs, Shape.wellKept fs -> Shape.wellKept (fold_left MovieApi.readLabels ps fs)).
  { induction ps as [|p ps IH]; intros fs Hf; [exact Hf|]. cbn [fold_left].
    apply IH. now apply readLabels_keeps. }
  assert (W0 : Shape.wellKept []).
  { split; [constructor|]. split; [intros x []|intros k v []]. }
  destruct (W (map (fun e => Js.trim (text e))
                 (select doc ".entry-content p, .post-content p")) [] W0)
    as [Hn [Hi Hv]].
  split; [exact Hn|]. split.
  - intros k v Hin. split; [|now apply (Hv k)].
    apply Hi. change k with (fst (k, v)). now apply in_map.
  - rewrite <- (length_map fst). apply (NoDup_incl_length Hn Hi).
Qed.

End Details.

(* ------------------------------------------------------------------ *)
(** ** Escaped addresses *)

Lemma hexDigit_unreserved d : d < 16 -> Mp3Basic.unreserved (Mp3Basic.hexDigit d) = true.
Proof.
  intros H. unfold Mp3Basic.hexDigit, Mp3Basic.unreserved.
  destruct (N.ltb_spec d 10); bool_arith.
Qed.

Lemma percent_encoded b : b < 256 -> forallb Shape.encoded (Mp3Basic.percent b) = true.
Proof.
  intros H. unfold Mp3Basic.percent, Shape.encoded. cbn [forallb].
  rewrite !hexDigit_unreserved.
  - reflexivity.
  - apply N.mod_lt. discriminate.
  - apply N.Div0.div_lt_upper_bound. exact H.
Qed.

Lemma div_below a b q : a < b * q -> a / b < q.
Proof. apply N.Div0.div_lt_upper_bound. Qed.

Lemma low_six a : 128 + a mod 64 < 256.
Proof. pose proof (N.mod_lt a 64). lia. Qed.

Lemma utf8_encoded cp :
  cp < 1114112 -> forallb Shape.encoded (flat_map Mp3Basic.percent (Mp3Basic.utf8 cp)) = true.
Proof.
  intros H. unfold Mp3Basic.utf8.
  destruct (N.ltb_spec cp 128) as [H1|H1]; [|destruct (N.ltb_spec cp 2048) as [H2|H2];
    [|destruct (N.ltb_spec cp 65536) as [H3|H3]]];
    cbn [flat_map]; rewrite ?forallb_app, ?app_nil_r;
    repeat (rewrite percent_encoded; [cbn [andb]|]); try reflexivity;
    try apply low_six; try lia.
  - pose proof (div_below cp 64 32). lia.
  - pose proof (div_below cp 4096 16). lia.
  - pose proof (div_below cp 262144 5). lia.
Qed.

Section Escaping.

Import Mp3Basic.

(** A string without surrogates is always encoded. *)
Lemma encode_total (s : Js.str) :
  Shape.noSurrogate s = true -> exists e, encodeURIComponent s = Some e.
Proof.
  induction s as [|c s IH]; [now exists []|]. cbn [Shape.noSurrogate forallb].
  intros H. apply andb_prop in H as [Hc Hs]. destruct (IH Hs) as [e He].
  apply negb_true_iff, orb_false_iff in Hc as [Hl Ht].
  cbn [encodeURIComponent]. rewrite He, Hl, Ht.
  destruct (unreserved c); eexists; reflexivity.
Qed.

(** Unreserved characters are left as they are. *)
Lemma encode_unreserved (s : Js.str) :
  forallb unreserved s = true -> encodeURIComponent s = Some s.
Proof.
  induction s as [|c s IH]; [reflexivity|]. cbn [forallb]. intros H.
  apply andb_prop in H as [Hc Hs]. cbn [encodeURIComponent]. now rewrite Hc, (IH Hs).
Qed.

(** What is written holds unreserved characters and percent signs only. *)
Lemma encode_encoded : forall n (s e : Js.str),
  (List.length s <= n)%nat ->
  Shape.sixteenBit s = true -> encodeURIComponent s = Some e ->
  forallb Shape.encoded e = true.
Proof.
  induction n as [|n IH]; intros s e Hn Hs He.
  - destruct s; [|simpl in Hn; lia]. now injection He as <-.
  - destruct s as [|c s]; [now injection He as <-|].
    cbn [Shape.sixteenBit forallb] in Hs. apply andb_prop in Hs as [Hc Hs].
    apply N.ltb_lt in Hc. cbn [List.length] in Hn. cbn [encodeURIComponent] in He.
    destruct (unreserved c) eqn:Eu.
    + destruct (encodeURIComponent s) as [e'|] eqn:E'; [|discriminate].
      injection He as <-. cbn [forallb]. unfold Shape.encoded at 1. rewrite Eu.
      apply (IH s e'); [lia|exact Hs|exact E'].
    + destruct (isTrail c); [discriminate|].
      destruct (isLead c) eqn:El.
      * destruct s as [|d s]; [discriminate|].
        destruct (isTrail d) eqn:Et; [|discriminate].
        cbn [forallb] in Hs. apply andb_prop in Hs as [Hd Hs]. cbn [List.length] in Hn.
        destruct (encodeURIComponent s) as [e'|] eqn:E'; [|discriminate].
        injection He as <-. rewrite forallb_app.
        rewrite utf8_encoded; [apply (IH s e'); [lia|exact Hs|exact E']|].
        unfold isLead in El. unfold isTrail in Et. bool_arith.
      * destruct (encodeURIComponent s) as [e'|] eqn:E'; [|discriminate].
        injection He as <-. rewrite forallb_app.
        rewrite utf8_encoded; [apply (IH s e'); [lia|exact Hs|exact E']|lia].
Qed.

End Escaping.

(** X22: the address [/api/search] asks the catalog for holds the query in
    escaped form only: after [?s=] there are unreserved characters and
    percent signs, so no [&], [=], [#], [/] or space of the query gets
    into the address; a query of unreserved characters is passed as it is,
    and a query without surrogate code units always has an address.  The
    page is put into the path as it came. *)
Theorem query_is_escaped (query : Js.str) (page : option Js.str) :
  Shape.sixteenBit query = true ->
  (forall address, Endpoints.searchUrl query page = Some address ->
     exists q,
       address = MovieApi.BASE_URL ++ Js.lit "/page/" ++ Endpoints.showPage page
                 ++ Js.lit "/?s=" ++ q
       /\ Mp3Basic.encodeURIComponent query = Some q
       /\ forallb Shape.encoded q = true
       /\ (forallb Mp3Basic.unreserved query = true -> q = query))
  /\ (Shape.noSurrogate query = true -> Endpoints.searchUrl query page <> None).
Proof.
  intros Hq. unfold Endpoints.searchUrl. split.
  - intros address H. destruct (Mp3Basic.encodeURIComponent query) as [q|] eqn:E;
      [|discriminate].
    injection H as <-. exists q. split; [reflexivity|]. split; [reflexivity|].
    split; [now apply (encode_encoded (List.length query) query)|].
    intros Hu. rewrite (encode_unreserved query Hu) in E. congruence.
  - intros Hs. destruct (encode_total query Hs) as [e ->]. discriminate.
Qed.

Lemma query_is_escaped_witness :
  Shape.sixteenBit (Js.lit "iron man & co") = true
  /\ Endpoints.searchUrl (Js.lit "iron man & co") None
     = Some (Js.lit "https://sinhalasub.lk/page/1/?s=iron%20man%20%26%20co")
  /\ Endpoints.searchUrl (Js.lit "iron man & co") None <> None.
Proof.
  split; [reflexivity|]. split; [reflexivity|].
  exact (proj2 (query_is_escaped (Js.lit "iron man & co") None eq_refl) eq_refl).
Defined.

(** X23: [ytmp3free] of src/index.js asks the service at one address, the
    base followed by the escaped form of the whole address it was given;
    upstream answers that agree there give the same result.  When the
    address cannot be escaped, the result is a failure and no service is
    asked. *)
Theorem basic_asks_one_address (net net' : upstream) (url : Js.str) :
  match Endpoints.requested url with
  | Some address =>
      (net' address = net address ->
       Mp3Basic.ytmp3free net' url = Mp3Basic.ytmp3free net url)
      /\ (Shape.sixteenBit url = true ->
          exists e, address = Js.lit "https://ytmp3free.cc/@api/json/mp3/" ++ e
                    /\ forallb Shape.encoded e = true)
  | None =>
      Mp3Basic.ytmp3free net' url = Mp3Basic.ytmp3free net url
      /\ succeeded (value_of (Mp3Basic.ytmp3free net url)) = false
      /\ Shape.noSurrogate url = false
  end.
Proof.
  unfold Endpoints.requested, Mp3Basic.ytmp3free.
  destruct (Mp3Basic.encodeURIComponent url) as [e|] eqn:E; cbn [option_map].
  - split; [intros ->; reflexivity|].
    intros Hs. exists e. split; [reflexivity|].
    now apply (encode_encoded (List.length url) url).
  - split; [reflexivity|]. split; [reflexivity|].
    destruct (Shape.noSurrogate url) eqn:Hs; [|reflexivity].
    destruct (encode_total url Hs) as [e' He]. congruence.
Qed.

(* ------------------------------------------------------------------ *)
(** ** What the resolver asks upstream *)

(** X24: for the outcome of [getMP3Info], and so for the answers of both
    endpoints of src/unnamed/part_000, two upstream answers count at most:
    the one of ytmp3free.cc for the identifier and the one of vevioz.com
    for it; without an identifier [getMP3Info] still asks vevioz.com, for
    [null], which the endpoints prevent by answering 400 first. *)
Theorem resolver_asks_two_addresses (net net' : upstream) (url : Js.str) :
  (forall videoId, Mp3Server.extractVideoId url = Some videoId ->
     net' (Endpoints.primaryAddress videoId) = net (Endpoints.primaryAddress videoId)) ->
  net' (Endpoints.alternativeAddress (Mp3Server.extractVideoId url))
  = net (Endpoints.alternativeAddress (Mp3Server.extractVideoId url)) ->
  Mp3Server.getMP3Info net' url = Mp3Server.getMP3Info net url
  /\ Mp3Server.apiMp3 net' (Some url) = Mp3Server.apiMp3 net (Some url)
  /\ Mp3Server.apiMp3Download net' (Some url) = Mp3Server.apiMp3Download net (Some url)
  /\ (Mp3Server.extractVideoId url = None ->
      Endpoints.alternativeAddress (Mp3Server.extractVideoId url)
      = Js.lit "https://api.vevioz.com/api/button/mp3/null"
      /\ Mp3Server.getMP3Info net url
         = (value_of (Mp3Server.alternativeService net url),
            [Log [str "Primary service failed, trying alternative..."]])
      /\ Mp3Server.code (value_of (Mp3Server.apiMp3 net (Some url))) = 400%nat).
Proof.
  intros Hp Ha.
  assert (G : Mp3Server.getMP3Info net' url = Mp3Server.getMP3Info net url).
  { unfold Mp3Server.getMP3Info.
    now rewrite (ytmp3free_local net net' url Hp), (alternative_local net net' url Ha). }
  split; [exact G|]. split; [|split].
  - unfold Mp3Server.apiMp3. destruct url as [|c u]; [reflexivity|].
    destruct (Mp3Server.extractVideoId (c :: u)); [|reflexivity]. now rewrite G.
  - unfold Mp3Server.apiMp3Download. destruct url as [|c u]; [reflexivity|].
    destruct (Mp3Server.extractVideoId (c :: u)); [|reflexivity]. now rewrite G.
  - intros E. rewrite E. split; [reflexivity|]. split.
    + assert (F : succeeded (value_of (Mp3Server.ytmp3free net url)) = false).
      { unfold Mp3Server.ytmp3free. now rewrite E. }
      rewrite getMP3Info_fallback by exact F.
      unfold Mp3Server.ytmp3free. now rewrite E.
    + unfold Mp3Server.apiMp3. destruct url as [|c u]; [reflexivity|]. now rewrite E.
Qed.

Lemma resolver_asks_two_addresses_witness :
  Mp3Server.getMP3Info
    (fun address =>
       if strEqb address Scenario.secondaryApi
       then Scenario.primaryDown address
       else Rejected (Js.lit "Unexpected token < in JSON at position 0"))
    Scenario.testUrl
  = Mp3Server.getMP3Info Scenario.primaryDown Scenario.testUrl.
Proof.
  refine (proj1 (resolver_asks_two_addresses Scenario.primaryDown _ Scenario.testUrl _ _)).
  - intros videoId H. injection H as <-. reflexivity.
  - reflexivity.
Defined.

(** X25: the GET and the POST endpoint of src/unnamed/part_000 give the
    same status code to the same [youtubeUrl], and the same body when
    that code is 200. *)
Theorem get_and_post_agree (net : upstream) (youtubeUrl : option Js.str) :
  let get := value_of (Mp3Server.apiMp3 net youtubeUrl) in
  let post := value_of (Mp3Server.apiMp3Download net youtubeUrl) in
  Mp3Server.code get = Mp3Server.code post
  /\ (Mp3Server.code get = 200%nat -> Mp3Server.body get = Mp3Server.body post).
Proof.
  cbv zeta. destruct youtubeUrl as [u|]; [|split; [reflexivity|discriminate]].
  destruct (Mp3Server.extractVideoId u) as [id|] eqn:E.
  - destruct (apiMp3_with_id net u id E) as [-> ->]. cbv zeta.
    destruct (succeeded _); cbn [Mp3Server.code Mp3Server.body];
      split; try reflexivity; discriminate.
  - destruct (apiMp3_without_id net (Some u) E) as [A [B _]]. rewrite A, B.
    split; [reflexivity|discriminate].
Qed.

Lemma download_entries_wellformed_witness :
  exists d,
    In d (MovieApi.downloadLinks (MovieApi.movieDetails Scenario.twice))
    /\ MovieApi.type d = "mega"
    /\ In (MovieApi.type d) Shape.linkTypes.
Proof.
  exists {| MovieApi.provider := Js.lit "download";
            MovieApi.url := Js.lit "https://mega.nz/file/1";
            MovieApi.type := "mega" |}.
  assert (H : In {| MovieApi.provider := Js.lit "download";
                    MovieApi.url := Js.lit "https://mega.nz/file/1";
                    MovieApi.type := "mega" |}
                (MovieApi.downloadLinks (MovieApi.movieDetails Scenario.twice)))
    by (left; reflexivity).
  split; [exact H|]. split; [reflexivity|].
  exact (proj1 (proj2 (proj2 (download_entries_wellformed (cheerio := Dom.tree)
                                (casing := Dom.lowerAscii) Scenario.twice _ H)))).
Defined.
